(** * Floor-plan layout and annotation engine (floorplangenerator.py)

    A shallow embedding of [StyledPlanGenerator]: the recursive space
    partitioner, the room selector, the wall graph builder, the window and
    door placers, the dimension annotator and the unit formatter, followed
    by the properties of the engine.

    Conventions.
    - Python [int]s are [Z]; Python [float]s are the rationals they denote
      ([Q]); every float operation whose rounding can matter is rounded
      explicitly with [to_double].
    - The process-wide pseudo-random generator is an oracle tape [rng]: each
      library call ([randint], [random], [choice], [shuffle]) consumes raw
      draws from the tape.  A property "for every seed" is a property for
      every tape.
    - A raised [ValueError]/[IndexError] aborts the run: computations live in
      [Rand A := rng -> option (A * rng)].
    - Rendering calls (matplotlib patches, plots) have no effect on the data
      and are left out; the one rendering query that feeds back into the
      data, [get_window_extent], is a parameter of the annotator. *)

From Stdlib Require Import ZArith QArith Qround List String Ascii Lia Bool.
From Stdlib Require Import Permutation Sorted DecimalString.
Import ListNotations.
Open Scope Z_scope.

(** ** Python numbers *)

(** [int(x)] on a float: truncation toward zero. *)
Definition py_int (q : Q) : Z := Z.quot (Qnum q) (Zpos (Qden q)).

(** Nearest integer to [n/d] ([d > 0]), ties to the even one. *)
Definition round_half_even (n d : Z) : Z :=
  let q := n / d in
  let r := n mod d in
  if 2 * r <? d then q
  else if d <? 2 * r then q + 1
  else if Z.even q then q else q + 1.

(** The exponent [e] with [2^e <= n/d < 2^(e+1)], for positive [n], [d]. *)
Definition binade (n d : Z) : Z :=
  let e0 := Z.log2 n - Z.log2 d in
  if n * 2 ^ Z.max 0 (- e0) <? d * 2 ^ Z.max 0 e0 then e0 - 1 else e0.

(** IEEE-754 binary64 rounding (nearest, ties to even) of a positive
    rational [n/d]: a 53-bit significand scaled by a power of two.  The
    subnormal and overflow ranges are not modelled; no quantity of the
    program comes near them. *)
Definition to_double_pos (n d : Z) : Q :=
  let e := binade n d in
  let s := 52 - e in
  let m := round_half_even (n * 2 ^ Z.max 0 s) (d * 2 ^ Z.max 0 (- s)) in
  if 0 <=? s then m # Z.to_pos (2 ^ s) else (m * 2 ^ (- s)) # 1.

Definition to_double (v : Q) : Q :=
  match Qnum v with
  | Z0 => 0%Q
  | Zpos n => to_double_pos (Zpos n) (Zpos (Qden v))
  | Zneg n => Qopp (to_double_pos (Zpos n) (Zpos (Qden v)))
  end.

(** [float(i)] for an [int] [i]. *)
Definition float_of_int (i : Z) : Q := to_double (inject_Z i).

(** Float product and quotient of two doubles. *)
Definition fmul (a b : Q) : Q := to_double (a * b).
Definition fdiv (a b : Q) : Q := to_double (a / b).

(** The float literals of the source, as the doubles they denote. *)
Definition d0_4 : Q := 3602879701896397 # 9007199254740992.
Definition d0_5 : Q := 1 # 2.
Definition d0_6 : Q := 5404319552844595 # 9007199254740992.
Definition d0_7 : Q := 3152519739159347 # 4503599627370496.
Definition d25_4 : Q := 3574732204225331 # 140737488355328.

(** [int(i * c)] for an [int] [i] and a float literal [c]. *)
Definition int_times (i : Z) (c : Q) : Z := py_int (fmul (float_of_int i) c).

Definition Qltb (a b : Q) : bool := negb (Qle_bool b a).

(** [str(i)] for an [int]. *)
Definition str (i : Z) : string := NilZero.string_of_int (Z.to_int i).

(** ** The pseudo-random source *)

Definition rng := list Z.

Definition Rand (A : Type) : Type := rng -> option (A * rng).

Definition ret {A} (a : A) : Rand A := fun g => Some (a, g).

Definition bind {A B} (m : Rand A) (f : A -> Rand B) : Rand B :=
  fun g => match m g with
           | Some (a, g') => f a g'
           | None => None
           end.

Definition raise {A} : Rand A := fun _ => None.

Declare Scope rand_scope.
Delimit Scope rand_scope with rand.
Notation "x <- m ;; k" := (bind m (fun x => k))
  (at level 61, m at next level, right associativity) : rand_scope.
Notation "' p <- m ;; k" := (bind m (fun x => let p := x in k))
  (at level 61, p pattern, m at next level, right associativity) : rand_scope.
Open Scope rand_scope.

(** One raw draw; an exhausted tape keeps yielding 0. *)
Definition next_raw : Rand Z :=
  fun g => match g with
           | [] => Some (0, [])
           | d :: g' => Some (d, g')
           end.

(** [_randbelow(n)], [n > 0]. *)
Definition randbelow (n : Z) : Rand Z :=
  d <- next_raw ;; ret (d mod n).

(** [random.randint(a, b)]: raises [ValueError] on an empty range. *)
Definition randint (a b : Z) : Rand Z :=
  if a <=? b then k <- randbelow (b - a + 1) ;; ret (a + k) else raise.

(** [random.random()]: a 53-bit integer divided by [2^53]. *)
Definition random : Rand Q :=
  d <- next_raw ;; ret ((d mod 2 ^ 53) # 9007199254740992).

(** [random.choice(seq)]: raises [IndexError] on an empty sequence. *)
Definition choice {A} (l : list A) : Rand A :=
  match l with
  | [] => raise
  | a :: _ => i <- randbelow (Z.of_nat (List.length l)) ;; ret (nth (Z.to_nat i) l a)
  end.

Fixpoint set_nth {A} (i : nat) (a : A) (l : list A) : list A :=
  match l, i with
  | [], _ => []
  | _ :: l', O => a :: l'
  | b :: l', S i' => b :: set_nth i' a l'
  end.

(** [x[i], x[j] = x[j], x[i]] *)
Definition swap {A} (i j : nat) (l : list A) : list A :=
  match nth_error l i, nth_error l j with
  | Some a, Some b => set_nth j a (set_nth i b l)
  | _, _ => l
  end.

(** [random.shuffle(x)]:
    [for i in reversed(range(1, len(x))): j = randbelow(i + 1); swap]. *)
Fixpoint shuffle_from {A} (i : nat) (x : list A) : Rand (list A) :=
  match i with
  | O => ret x
  | S i' => j <- randbelow (Z.of_nat (S i) ) ;;
            shuffle_from i' (swap i (Z.to_nat j) x)
  end.

Definition shuffle {A} (x : list A) : Rand (list A) :=
  shuffle_from (List.length x - 1) x.

(** ** Data model *)

Definition rect : Type := Z * Z * Z * Z.
Definition box : Type := Q * Q * Q * Q.

Inductive unit_mode := mm | mm_suffix | m | inch | ft.

Record Wall := mkWall {
  w_id : Z;
  w_coords : Z * Z * Z * Z;
  is_shared : bool;
  has_opening : bool;
  room_center : Q * Q
}.

Record Window := mkWindow {
  win_id : Z;
  win_wall_id : Z;
  win_coords : Z * Z * Z * Z;
  win_length : Z
}.

Inductive pos_mode := inline | above | below.

Inductive link := wall_link (i : Z) | window_link (i : Z).

Record Dimension := mkDimension {
  dim_id : Z;
  dim_val : string;
  dim_position : pos_mode;
  dim_bbox : Z * Z * Z * Z;
  dim_line : Z * Z * Z * Z;
  dim_link : link
}.

(** The attributes of [StyledPlanGenerator] that the layout and annotation
    code reads or writes. *)
Record generator := mkGen {
  width : Z;
  height : Z;
  base_offset : Z;
  g_unit_mode : unit_mode;
  complexity_depth : nat;
  walls : list Wall;
  windows : list Window;
  dimensions : list Dimension;
  rooms : list (rect * string);
  text_bboxes : list box;
  wall_id_counter : Z;
  window_id_counter : Z;
  dim_id_counter : Z
}.

(** [__init__], after the style has been sampled. *)
Definition init (width height base_offset : Z) (um : unit_mode) (depth : nat)
  : generator :=
  mkGen width height base_offset um depth [] [] [] [] [] 100 2000 1.

Definition set_walls (g : generator) (ws : list Wall) : generator :=
  mkGen (width g) (height g) (base_offset g) (g_unit_mode g)
        (complexity_depth g) ws (windows g) (dimensions g) (rooms g)
        (text_bboxes g) (wall_id_counter g) (window_id_counter g)
        (dim_id_counter g).

Definition set_rooms (g : generator) (rs : list (rect * string)) : generator :=
  mkGen (width g) (height g) (base_offset g) (g_unit_mode g)
        (complexity_depth g) (walls g) (windows g) (dimensions g) rs
        (text_bboxes g) (wall_id_counter g) (window_id_counter g)
        (dim_id_counter g).

(** ** Unit formatter *)

Definition dquote : string := String (ascii_of_nat 34) EmptyString.

(** [f"{round(x, 1)}"] for a float [x]: round to one decimal (correctly
    rounded, ties to even on the exact value of [x]) and print the shortest
    representation, [I.F].  Valid below [1e16], where [repr] does not switch
    to exponent notation. *)
Definition repr_round1 (x : Q) : string :=
  let t := round_half_even (Z.abs (Qnum x) * 10) (Zpos (Qden x)) in
  ((if (Qnum x <? 0)%Z then "-" else "") ++ str (t / 10) ++ "." ++ str (t mod 10))%string.

(** [_format_value]; [px_length] is an [int] or the float [math.hypot]
    returned (below [2^53] the product by 10 is the same in both cases). *)
Definition _format_value (um : unit_mode) (px_length : Q) : string :=
  let mm_val := py_int (fmul px_length 10) in
  match um with
  | mm => str mm_val
  | mm_suffix => (str mm_val ++ " mm")%string
  | m => (repr_round1 (fdiv (float_of_int mm_val) 1000) ++ "m")%string
  | inch => (str (py_int (fdiv (float_of_int mm_val) d25_4)) ++ dquote)%string
  | ft =>
      let total_inches := py_int (fdiv (float_of_int mm_val) d25_4) in
      let ft := total_inches / 12 in
      let inch := total_inches mod 12 in
      (str ft ++ "'" ++ str inch ++ dquote)%string
  end.

(** ** Space partitioner *)

(** [_recursive_split(rect, depth)].  [depth] is [complexity_depth], one of
    1, 2, 4; its type here is [nat]. *)
Fixpoint _recursive_split (r : rect) (depth : nat) : Rand (list rect) :=
  let '(x, y, w, h) := r in
  match depth with
  | O => ret [r]
  | S depth' =>
      if (w <? 160) || (h <? 160) then ret [r]
      else if h <? w then
        split <- randint (int_times w d0_4) (int_times w d0_6) ;;
        l <- _recursive_split (x, y, split, h) depth' ;;
        r' <- _recursive_split (x + split, y, w - split, h) depth' ;;
        ret (l ++ r')
      else
        split <- randint (int_times h d0_4) (int_times h d0_6) ;;
        l <- _recursive_split (x, y, w, split) depth' ;;
        r' <- _recursive_split (x, y + split, w, h - split) depth' ;;
        ret (l ++ r')
  end.

(** ** Room selector and wall graph builder *)

(** The sort key of [generate_layout]:
    [(r[0]-center_x)**2 + (r[1]-center_y)**2], with
    [center_x, center_y = width/2, height/2]; these float operations are
    exact as long as the squares stay below [2^53]. *)
Definition sort_key (g : generator) (r : rect) : Q :=
  let '(x, y, _, _) := r in
  let center_x := (inject_Z (width g) / 2)%Q in
  let center_y := (inject_Z (height g) / 2)%Q in
  ((inject_Z x - center_x) ^ 2 + (inject_Z y - center_y) ^ 2)%Q.

(** [list.sort(key=..., reverse=True)]: the stable sort into descending
    key order (equal keys keep their original order). *)
Fixpoint insert_desc {A} (key : A -> Q) (a : A) (l : list A) : list A :=
  match l with
  | [] => [a]
  | b :: l' => if Qltb (key a) (key b) then b :: insert_desc key a l'
               else a :: l
  end.

Definition sort_desc {A} (key : A -> Q) (l : list A) : list A :=
  fold_right (insert_desc key) [] l.

(** Lines 92-98 of [generate_layout]. *)
Definition select_rooms (g : generator) (raw_rooms : list rect)
  : Rand (list rect) :=
  let n := Z.of_nat (List.length raw_rooms) in
  if 3 <? n then
    let sorted := sort_desc (sort_key g) raw_rooms in
    num_to_remove <- randint 1 (Z.max 1 (int_times n d0_4)) ;;
    ret (skipn (Z.to_nat num_to_remove) sorted)
  else ret raw_rooms.

Definition room_labels : list string :=
  ["LIVING"; "KITCHEN"; "DINING"; "BEDROOM"; "MASTER BED"; "BATH"; "STORE";
   "STUDY"]%string.

(** The labelling loop: room [i] gets [room_labels[i % len(room_labels)]]. *)
Fixpoint assign_labels (labels : list string) (i : nat) (rs : list rect)
  : list (rect * string) :=
  match rs with
  | [] => []
  | r :: rs' =>
      (r, nth (i mod List.length labels) labels EmptyString)
        :: assign_labels labels (S i) rs'
  end.

Definition near (c1 c2 : Z * Z * Z * Z) : bool :=
  let '(wx1, wy1, wx2, wy2) := c1 in
  let '(x1, y1, x2, y2) := c2 in
  (Z.abs (wx1 - x1) <? 5) && (Z.abs (wx2 - x2) <? 5)
  && (Z.abs (wy1 - y1) <? 5) && (Z.abs (wy2 - y2) <? 5).

Definition set_shared (w : Wall) : Wall :=
  mkWall (w_id w) (w_coords w) true (has_opening w) (room_center w).

Definition set_opening (w : Wall) : Wall :=
  mkWall (w_id w) (w_coords w) (is_shared w) true (room_center w).

(** The scan of [_add_wall]: flag the first near-duplicate, if any. *)
Fixpoint mark_shared (c : Z * Z * Z * Z) (ws : list Wall)
  : option (list Wall) :=
  match ws with
  | [] => None
  | w :: ws' =>
      if near (w_coords w) c then Some (set_shared w :: ws')
      else match mark_shared c ws' with
           | Some ws'' => Some (w :: ws'')
           | None => None
           end
  end.

Definition normalize (x1 y1 x2 y2 : Z) : Z * Z * Z * Z :=
  if (x2 <? x1) || (y2 <? y1) then (x2, y2, x1, y1) else (x1, y1, x2, y2).

Definition _add_wall (g : generator) (x1 y1 x2 y2 : Z) (rcx rcy : Q)
  : generator :=
  let c := normalize x1 y1 x2 y2 in
  match mark_shared c (walls g) with
  | Some ws => set_walls g ws
  | None =>
      mkGen (width g) (height g) (base_offset g) (g_unit_mode g)
            (complexity_depth g)
            (walls g ++ [mkWall (wall_id_counter g) c false false (rcx, rcy)])
            (windows g) (dimensions g) (rooms g) (text_bboxes g)
            (wall_id_counter g + 1) (window_id_counter g) (dim_id_counter g)
  end.

(** The body of the last loop of [generate_layout]. *)
Definition add_room_walls (g : generator) (room : rect * string) : generator :=
  let '(x, y, w, h, _) := room in
  let room_cx := (inject_Z x + inject_Z w / 2)%Q in
  let room_cy := (inject_Z y + inject_Z h / 2)%Q in
  let g1 := _add_wall g x y (x + w) y room_cx room_cy in
  let g2 := _add_wall g1 (x + w) y (x + w) (y + h) room_cx room_cy in
  let g3 := _add_wall g2 (x + w) (y + h) x (y + h) room_cx room_cy in
  _add_wall g3 x (y + h) x y room_cx room_cy.

Definition generate_layout (g : generator) : Rand generator :=
  let margin := 150 in
  let initial_rect :=
    (margin, margin, width g - 2 * margin, height g - 2 * margin) in
  raw_rooms <- _recursive_split initial_rect (complexity_depth g) ;;
  selected <- select_rooms g raw_rooms ;;
  labels <- shuffle room_labels ;;
  let rs := assign_labels labels 0 selected in
  ret (fold_left add_room_walls rs (set_rooms g rs)).

(** ** Opening placer *)

Definition standard_sizes : list Z := [30; 45; 60; 75; 90].

(** A loop [for a in l: ...] whose body may replace the element it visits
    and updates the rest of the state [S]. *)
Fixpoint for_each {A S} (body : A -> S -> Rand (A * S)) (l : list A) (s : S)
  : Rand (list A * S) :=
  match l with
  | [] => ret ([], s)
  | a :: l' =>
      r <- body a s ;;
      r' <- for_each body l' (snd r) ;;
      ret (fst r :: fst r', snd r')
  end.

(** The body of the loop of [add_windows]; the state is
    [(self.windows, self.window_id_counter)]. *)
Definition add_window (w : Wall) (s : list Window * Z)
  : Rand (Wall * (list Window * Z)) :=
  if is_shared w || has_opening w then ret (w, s)
  else
    r <- random ;;
    if Qltb d0_4 r then
      let '(x1, y1, x2, y2) := w_coords w in
      let is_horiz := Z.abs (y1 - y2) <? 5 in
      let wall_len := if is_horiz then Z.abs (x2 - x1) else Z.abs (y2 - y1) in
      let valid_sizes := filter (fun sz => sz <? wall_len - 20) standard_sizes in
      match valid_sizes with
      | [] => ret (w, s)
      | _ =>
          win_len <- choice valid_sizes ;;
          let mid_x := (inject_Z (x1 + x2) / 2)%Q in
          let mid_y := (inject_Z (y1 + y2) / 2)%Q in
          let half := (inject_Z win_len / 2)%Q in
          let c :=
            if is_horiz then
              (py_int (mid_x - half), py_int mid_y,
               py_int (mid_x + half), py_int mid_y)
            else
              (py_int mid_x, py_int (mid_y - half),
               py_int mid_x, py_int (mid_y + half)) in
          ret (set_opening w,
               (fst s ++ [mkWindow (snd s) (w_id w) c win_len], snd s + 1))
      end
    else ret (w, s).

Definition add_windows (g : generator) : Rand generator :=
  r <- for_each add_window (walls g) (windows g, window_id_counter g) ;;
  ret (mkGen (width g) (height g) (base_offset g) (g_unit_mode g)
             (complexity_depth g) (fst r) (fst (snd r)) (dimensions g)
             (rooms g) (text_bboxes g) (wall_id_counter g) (snd (snd r))
             (dim_id_counter g)).

Definition door_size : Z := 35.

(** A door candidate [(wx, wy, widx)]. *)
Definition candidate : Type := (Z * Z) * (Z * Z) * Z.

Definition candidates (room : rect * string) : list candidate :=
  let '(x, y, w_room, h_room, _) := room in
  [((x, x + w_room), (y + h_room, y + h_room), 0);
   ((x + w_room, x + w_room), (y, y + h_room), 1);
   ((x, x + w_room), (y, y), 2);
   ((x, x), (y, y + h_room), 3)].

(** The guard of the inner loop of [add_doors]: the wall contains the
    candidate's midpoint and has no opening yet. *)
Definition door_host (cx cy : Q) (w : Wall) : bool :=
  let '(ex1, ey1, ex2, ey2) := w_coords w in
  Qle_bool (inject_Z (Z.min ex1 ex2)) cx && Qle_bool cx (inject_Z (Z.max ex1 ex2))
  && (Qle_bool (inject_Z (Z.min ey1 ey2)) cy && Qle_bool cy (inject_Z (Z.max ey1 ey2)))
  && negb (has_opening w).

(** Index of the first element satisfying [f]. *)
Fixpoint find_index {A} (f : A -> bool) (l : list A) : option nat :=
  match l with
  | [] => None
  | a :: l' => if f a then Some O
               else match find_index f l' with
                    | Some i => Some (S i)
                    | None => None
                    end
  end.

(** The candidate search of [add_doors]: the target wall (by position in
    [self.walls]) and [wall_idx]. *)
Fixpoint find_target (cands : list candidate) (ws : list Wall)
  : option (nat * Z) :=
  match cands with
  | [] => None
  | (wx, wy, widx) :: cands' =>
      let cx := (inject_Z (fst wx + snd wx) / 2)%Q in
      let cy := (inject_Z (fst wy + snd wy) / 2)%Q in
      match find_index (door_host cx cy) ws with
      | Some i => Some (i, widx)
      | None => find_target cands' ws
      end
  end.

(** The body of the loop of [add_doors]; the state is [self.walls]. *)
Definition add_door (room : rect * string) (ws : list Wall)
  : Rand (list Wall) :=
  r <- random ;;
  if Qltb d0_6 r then ret ws
  else
    cands <- shuffle (candidates room) ;;
    match find_target cands ws with
    | None => ret ws
    | Some (i, wall_idx) =>
        match nth_error ws i with
        | None => ret ws
        | Some target_wall =>
            let '(wx1, wy1, wx2, wy2) := w_coords target_wall in
            _ <- (if (wall_idx =? 0) || (wall_idx =? 2)
                  then randint (wx1 + 5) (wx2 - door_size - 5)
                  else randint (wy1 + 5) (wy2 - door_size - 5)) ;;
            ret (set_nth i (set_opening target_wall) ws)
        end
    end.

Fixpoint add_doors_loop (rs : list (rect * string)) (ws : list Wall)
  : Rand (list Wall) :=
  match rs with
  | [] => ret ws
  | room :: rs' => ws' <- add_door room ws ;; add_doors_loop rs' ws'
  end.

Definition add_doors (g : generator) : Rand generator :=
  ws <- add_doors_loop (rooms g) (walls g) ;;
  ret (set_walls g ws).

(** ** Dimension annotator *)

(** The per-wall test of [_line_crosses_walls]. *)
Definition crosses (x1 y1 x2 y2 my_wall_id : Z) (w : Wall) : bool :=
  if w_id w =? my_wall_id then false
  else
    let '(wx1, wy1, wx2, wy2) := w_coords w in
    if (Z.max wx1 wx2 <? Z.min x1 x2) || (Z.max x1 x2 <? Z.min wx1 wx2)
    then false
    else if (Z.max wy1 wy2 <? Z.min y1 y2) || (Z.max y1 y2 <? Z.min wy1 wy2)
    then false
    else
      let is_dim_horiz := Z.abs (y1 - y2) <? 1 in
      let is_wall_horiz := Z.abs (wy1 - wy2) <? 5 in
      if is_dim_horiz && negb is_wall_horiz then
        (Z.min x1 x2 <? wx1) && (wx1 <? Z.max x1 x2)
        && (Z.min wy1 wy2 <? y1) && (y1 <? Z.max wy1 wy2)
      else if negb is_dim_horiz && is_wall_horiz then
        (Z.min y1 y2 <? wy1) && (wy1 <? Z.max y1 y2)
        && (Z.min wx1 wx2 <? x1) && (x1 <? Z.max wx1 wx2)
      else false.

Definition _line_crosses_walls (g : generator) (p1 p2 : Z * Z)
  (my_wall_id : Z) : bool :=
  existsb (crosses (fst p1) (snd p1) (fst p2) (snd p2) my_wall_id) (walls g).

Definition overlaps (a b : box) : bool :=
  let '(nx1, ny1, nx2, ny2) := a in
  let '(ex1, ey1, ex2, ey2) := b in
  Qltb nx1 ex2 && Qltb ex1 nx2 && Qltb ny1 ey2 && Qltb ey1 ny2.

Definition inflate (b : box) : box :=
  let '(nx1, ny1, nx2, ny2) := b in
  (nx1 - 2, ny1 - 2, nx2 + 2, ny2 + 2)%Q.

Definition _check_collision (g : generator) (new_bbox : box) : bool :=
  existsb (overlaps (inflate new_bbox)) (text_bboxes g).

(** [random.choices(['inline', 'above', 'below'], weights=[0.4, 0.3, 0.3])[0]]:
    the cumulative weights are the doubles 0.4, 0.7, 1.0 and the draw is
    located among the first two by [bisect]. *)
Definition choose_pos_mode : Rand pos_mode :=
  r <- random ;;
  ret (if Qltb r d0_4 then inline else if Qltb r d0_7 then above else below).

(** The estimated label box of [_draw_dimension_safe]. *)
Definition sim_bbox (x1 y1 x2 y2 : Z) (text_val : string) : box :=
  let mid_x := (inject_Z (x1 + x2) / 2)%Q in
  let mid_y := (inject_Z (y1 + y2) / 2)%Q in
  let is_vert := Z.abs (x1 - x2) <? 1 in
  let char_w := 8 in
  let char_h := 10 in
  let text_len_px := (inject_Z (Z.of_nat (String.length text_val) * char_w))%Q in
  if is_vert then
    (mid_x - inject_Z char_h / 2, mid_y - text_len_px / 2,
     mid_x + inject_Z char_h / 2, mid_y + text_len_px / 2)%Q
  else
    (mid_x - text_len_px / 2, mid_y - inject_Z char_h / 2,
     mid_x + text_len_px / 2, mid_y + inject_Z char_h / 2)%Q.

(** [math.hypot(dx, dy)] on integers: exact when the segment is
    axis-aligned, as every wall and chain segment of the generator is;
    otherwise its integer part. *)
Definition hypot (dx dy : Z) : Q :=
  if dy =? 0 then inject_Z (Z.abs dx)
  else if dx =? 0 then inject_Z (Z.abs dy)
  else inject_Z (Z.sqrt (dx * dx + dy * dy)).

Inductive strategy := detailed | simple | mixed.

Section Annotator.

(** The renderer's answer to [t.get_window_extent(renderer)] for the text
    [text_val] drawn centred at [(tx, ty)], rotated by 90 degrees when
    [is_vert]: the box [(x0, y0, x1, y1)]. *)
Variable get_window_extent : string -> bool -> Q -> Q -> box.

Definition _draw_dimension_safe (g : generator) (x1 y1 x2 y2 : Z)
  (text_val : string) (lk : link) (owner_wall_id : Z) : Rand generator :=
  if _line_crosses_walls g (x1, y1) (x2, y2) owner_wall_id then ret g
  else
    let mid_x := (inject_Z (x1 + x2) / 2)%Q in
    let mid_y := (inject_Z (y1 + y2) / 2)%Q in
    let is_vert := Z.abs (x1 - x2) <? 1 in
    if _check_collision g (sim_bbox x1 y1 x2 y2 text_val) then ret g
    else
      pm <- choose_pos_mode ;;
      let shift := 9%Q in
      let '(tx, ty) :=
        match pm with
        | inline => (mid_x, mid_y)
        | above => (if is_vert then mid_x - shift else mid_x,
                    if is_vert then mid_y else mid_y + shift)%Q
        | below => (if is_vert then mid_x + shift else mid_x,
                    if is_vert then mid_y else mid_y - shift)%Q
        end in
      let '(bx0, by0, bx1, by1) := get_window_extent text_val is_vert tx ty in
      let dim_entry :=
        mkDimension (dim_id_counter g) text_val pm
          (py_int bx0, py_int (inject_Z (height g) - by1),
           py_int bx1, py_int (inject_Z (height g) - by0))
          (x1, y1, x2, y2) lk in
      ret (mkGen (width g) (height g) (base_offset g) (g_unit_mode g)
                 (complexity_depth g) (walls g) (windows g)
                 (dimensions g ++ [dim_entry]) (rooms g)
                 (text_bboxes g ++ [(bx0, by0, bx1, by1)])
                 (wall_id_counter g) (window_id_counter g)
                 (dim_id_counter g + 1)).

(** A chain segment [(sx1, sy1, sx2, sy2, link)]. *)
Definition segment : Type := Z * Z * Z * Z * link.

(** [sorted([a, b, c, d])] *)
Fixpoint insert_asc (a : Z) (l : list Z) : list Z :=
  match l with
  | [] => [a]
  | b :: l' => if b <? a then b :: insert_asc a l' else a :: l
  end.

Definition sorted4 (a b c d : Z) : Z * Z * Z * Z :=
  match fold_right insert_asc [] [a; b; c; d] with
  | [p0; p1; p2; p3] => (p0, p1, p2, p3)
  | _ => (a, b, c, d)
  end.

(** The segment loop of the chain branch of [add_smart_dimensions]. *)
Fixpoint draw_segments (g : generator) (base_dx base_dy owner : Z)
  (segs : list segment) : Rand generator :=
  match segs with
  | [] => ret g
  | (sx1, sy1, sx2, sy2, lk) :: segs' =>
      let length := hypot (sx2 - sx1) (sy2 - sy1) in
      if Qltb length 5 then draw_segments g base_dx base_dy owner segs'
      else
        let val_str := _format_value (g_unit_mode g) length in
        g' <- _draw_dimension_safe g (sx1 + base_dx) (sy1 + base_dy)
                (sx2 + base_dx) (sy2 + base_dy) val_str lk owner ;;
        draw_segments g' base_dx base_dy owner segs'
  end.

(** The body of the loop of [add_smart_dimensions]. *)
Definition dimension_wall (strat : strategy) (g : generator) (w : Wall)
  : Rand generator :=
  if is_shared w then ret g
  else
    r <- random ;;
    if Qltb d0_7 r then ret g
    else
      wall_strat <-
        match strat with
        | mixed => r2 <- random ;;
                   ret (if Qltb d0_5 r2 then detailed else simple)
        | _ => ret strat
        end ;;
      let attached_window :=
        find (fun win => win_wall_id win =? w_id w) (windows g) in
      let '(wx1, wy1, wx2, wy2) := w_coords w in
      let is_horizontal := Z.abs (wy1 - wy2) <? 5 in
      j <- randint (-5) 5 ;;
      let offset_dist := base_offset g + j in
      let '(rcx, rcy) := room_center w in
      let wmx := (inject_Z (wx1 + wx2) / 2)%Q in
      let wmy := (inject_Z (wy1 + wy2) / 2)%Q in
      let '(base_dx, base_dy) :=
        if is_horizontal then
          (0, offset_dist * (if Qltb rcy wmy then 1 else -1))
        else
          (offset_dist * (if Qltb rcx wmx then 1 else -1), 0) in
      match attached_window, wall_strat with
      | Some win, detailed =>
          let '(win_x1, win_y1, win_x2, win_y2) := win_coords win in
          let segments :=
            if is_horizontal then
              let '(p0, p1, p2, p3) := sorted4 wx1 wx2 win_x1 win_x2 in
              [(p0, wy1, p1, wy1, wall_link (w_id w));
               (p1, wy1, p2, wy1, window_link (win_id win));
               (p2, wy1, p3, wy1, wall_link (w_id w))]
            else
              let '(p0, p1, p2, p3) := sorted4 wy1 wy2 win_y1 win_y2 in
              [(wx1, p0, wx1, p1, wall_link (w_id w));
               (wx1, p1, wx1, p2, window_link (win_id win));
               (wx1, p2, wx1, p3, wall_link (w_id w))] in
          draw_segments g base_dx base_dy (w_id w) segments
      | _, _ =>
          let length := hypot (wx2 - wx1) (wy2 - wy1) in
          let val_str := _format_value (g_unit_mode g) length in
          _draw_dimension_safe g (wx1 + base_dx) (wy1 + base_dy)
            (wx2 + base_dx) (wy2 + base_dy) val_str (wall_link (w_id w))
            (w_id w)
      end.

Fixpoint dimension_walls (strat : strategy) (g : generator) (ws : list Wall)
  : Rand generator :=
  match ws with
  | [] => ret g
  | w :: ws' => g' <- dimension_wall strat g w ;; dimension_walls strat g' ws'
  end.

Definition add_smart_dimensions (g : generator) : Rand generator :=
  strat <- choice [detailed; simple; mixed] ;;
  dimension_walls strat g (walls g).

(** [generate], without the rendering and export steps. *)
Definition generate (g : generator) : Rand generator :=
  g1 <- generate_layout g ;;
  g2 <- add_windows g1 ;;
  g3 <- add_doors g2 ;;
  add_smart_dimensions g3.

End Annotator.

(** A renderer that draws every glyph 8 units wide and 10 units high,
    centred on the anchor: the metrics [_draw_dimension_safe] itself assumes
    for its estimate. *)
Definition fixed_width_extent (text_val : string) (is_vert : bool) (tx ty : Q)
  : box :=
  let len := (inject_Z (Z.of_nat (String.length text_val) * 8))%Q in
  if is_vert then (tx - 5, ty - len / 2, tx + 5, ty + len / 2)%Q
  else (tx - len / 2, ty - 5, tx + len / 2, ty + 5)%Q.

(** ** Vocabulary of the properties *)

(** [_recursive_split] with every leaf tagged by the value of [depth] in the
    call that returned it. *)
Fixpoint _recursive_split_traced (r : rect) (depth : nat)
  : Rand (list (rect * nat)) :=
  let '(x, y, w, h) := r in
  match depth with
  | O => ret [(r, depth)]
  | S depth' =>
      if (w <? 160) || (h <? 160) then ret [(r, depth)]
      else if h <? w then
        split <- randint (int_times w d0_4) (int_times w d0_6) ;;
        l <- _recursive_split_traced (x, y, split, h) depth' ;;
        r' <- _recursive_split_traced (x + split, y, w - split, h) depth' ;;
        ret (l ++ r')
      else
        split <- randint (int_times h d0_4) (int_times h d0_6) ;;
        l <- _recursive_split_traced (x, y, w, split) depth' ;;
        r' <- _recursive_split_traced (x, y + split, w, h - split) depth' ;;
        ret (l ++ r')
  end.

Definition rect_w (r : rect) : Z := let '(_, _, w, _) := r in w.
Definition rect_h (r : rect) : Z := let '(_, _, _, h) := r in h.

(** The point [p] lies in the rectangle [r], taken half-open:
    [x <= px < x + w] and [y <= py < y + h]. *)
Definition inside (p : Q * Q) (r : rect) : Prop :=
  let '(x, y, w, h) := r in
  (inject_Z x <= fst p /\ fst p < inject_Z (x + w))%Q /\
  (inject_Z y <= snd p /\ snd p < inject_Z (y + h))%Q.

Definition disjoint (a b : rect) : Prop :=
  forall p, ~ (inside p a /\ inside p b).

(** [leaves] tile [r]: they cover exactly the points of [r] and no two of
    them have a point in common. *)
Definition tiles (r : rect) (leaves : list rect) : Prop :=
  (forall p, inside p r <-> exists l, In l leaves /\ inside p l) /\
  ForallOrdPairs disjoint leaves.

(** What the partitioner guarantees about a leaf [lf] returned with the
    recursion depth [d], for the input rectangle [r]. *)
Definition leaf_ok (r : rect) (leaf : rect * nat) : Prop :=
  let '(lf, d) := leaf in
  (d = O \/ rect_w lf < 160 \/ rect_h lf < 160) /\
  (lf = r \/ (64 <= rect_w lf /\ 64 <= rect_h lf)).

(** The claim C3 as the spec words it. *)
Definition leaf_min_size (leaf : rect * nat) : Prop :=
  let '(lf, d) := leaf in
  (160 <= rect_w lf /\ 160 <= rect_h lf) \/ d = O.

(** A wall without its two flags. *)
Definition unflagged (w : Wall) : Z * (Z * Z * Z * Z) * (Q * Q) :=
  (w_id w, w_coords w, room_center w).

(** Axis-aligned, with the first endpoint not after the second. *)
Definition wall_ok (w : Wall) : Prop :=
  let '(x1, y1, x2, y2) := w_coords w in
  (x1 = x2 \/ y1 = y2) /\ x1 <= x2 /\ y1 <= y2.

Definition shared_walls (g : generator) : list Wall :=
  filter is_shared (walls g).

(** The attributes that the wall graph builder leaves alone. *)
Definition annotations (g : generator) :=
  (width g, height g, base_offset g, g_unit_mode g, complexity_depth g,
   windows g, dimensions g, text_bboxes g, window_id_counter g,
   dim_id_counter g).

(** Wall identifiers are distinct and below the counter. *)
Definition ids_ok (g : generator) : Prop :=
  NoDup (map w_id (walls g)) /\
  Forall (fun w => w_id w < wall_id_counter g) (walls g).

(** The four boundary segments of a room, as [_add_wall] stores them. *)
Definition room_edges (r : rect) : list (Z * Z * Z * Z) :=
  let '(x, y, w, h) := r in
  [normalize x y (x + w) y; normalize (x + w) y (x + w) (y + h);
   normalize (x + w) (y + h) x (y + h); normalize x (y + h) x y].

(** The state after a dimension is committed: the record and its rendered
    box are appended and the identifier counter advances. *)
Definition push (g : generator) (d : Dimension) (b : box) : generator :=
  mkGen (width g) (height g) (base_offset g) (g_unit_mode g)
        (complexity_depth g) (walls g) (windows g) (dimensions g ++ [d])
        (rooms g) (text_bboxes g ++ [b]) (wall_id_counter g)
        (window_id_counter g) (dim_id_counter g + 1).

(** The link [lk] refers to the wall [w] or to a window hosted by [w]. *)
Definition links_to (g : generator) (w : Wall) (lk : link) : Prop :=
  lk = wall_link (w_id w) \/
  exists win, In win (windows g) /\ win_wall_id win = w_id w /\
              lk = window_link (win_id win).

(** The estimated label box of a record, from its line and its text. *)
Definition line_box (d : Dimension) : box :=
  let '(x1, y1, x2, y2) := dim_line d in sim_bbox x1 y1 x2 y2 (dim_val d).

(** The conditions under which the annotator, working on the wall [w],
    commits the record [d] in the state [g]. *)
Definition committed_for (g : generator) (w : Wall) (d : Dimension) : Prop :=
  is_shared w = false /\
  links_to g w (dim_link d) /\
  (let '(x1, y1, x2, y2) := dim_line d in
   _line_crosses_walls g (x1, y1) (x2, y2) (w_id w) = false) /\
  _check_collision g (line_box d) = false.

Inductive annot_step : generator -> generator -> Prop :=
| step_commit g w d b :
    In w (walls g) -> committed_for g w d -> annot_step g (push g d b).

Inductive annot_steps : generator -> generator -> Prop :=
| steps_refl g : annot_steps g g
| steps_snoc g g1 g2 :
    annot_steps g g1 -> annot_step g1 g2 -> annot_steps g g2.

(** The program's test for a horizontal wall, the same in [draw_structure],
    [add_windows], [_line_crosses_walls] and [add_smart_dimensions]:
    [abs(wy1 - wy2) < 5]. *)
Definition horizontal_wall (c : Z * Z * Z * Z) : Prop :=
  let '(_, wy1, _, wy2) := c in Z.abs (wy1 - wy2) < 5.

(** The perpendicular-intersection rule: a horizontal line crosses a
    non-horizontal wall when the wall's x is strictly inside the line's
    x-range and the line's y strictly inside the wall's y-range; a vertical
    line crosses a horizontal wall symmetrically. *)
Definition perp_crosses (line wall : Z * Z * Z * Z) : Prop :=
  let '(x1, y1, x2, y2) := line in
  let '(wx1, wy1, wx2, wy2) := wall in
  (y1 = y2 /\ ~ horizontal_wall wall /\
   Z.min x1 x2 < wx1 < Z.max x1 x2 /\ Z.min wy1 wy2 < y1 < Z.max wy1 wy2) \/
  (x1 = x2 /\ horizontal_wall wall /\
   Z.min y1 y2 < wy1 < Z.max y1 y2 /\ Z.min wx1 wx2 < x1 < Z.max wx1 wx2).

(** A wall that is truly horizontal or spans at least 5 units in y: for such
    a wall [horizontal_wall] says whether it is horizontal. *)
Definition tall_or_flat (c : Z * Z * Z * Z) : Prop :=
  let '(_, y1, _, y2) := c in y1 = y2 \/ 5 <= Z.abs (y1 - y2).

(** The record [d] has an owning wall and its line crosses no other wall. *)
Definition clear_of_walls (g : generator) (d : Dimension) : Prop :=
  exists o, In o (walls g) /\ links_to g o (dim_link d) /\
    forall w, In w (walls g) -> w_id w <> w_id o ->
              ~ perp_crosses (dim_line d) (w_coords w).

(** Every record was checked, when committed, against the boxes registered
    before it: its estimated box inflated by 2 overlaps none of them. *)
Inductive registry_ok : list Dimension -> list box -> Prop :=
| registry_nil : registry_ok [] []
| registry_snoc ds bs d b :
    registry_ok ds bs ->
    (forall e, In e bs -> overlaps (inflate (line_box d)) e = false) ->
    registry_ok (ds ++ [d]) (bs ++ [b]).



(** The door placer goes on with a room when [random.random()], drawn as
    [k / 2^53], is not above 0.6. *)
Definition door_proceeds (k : Z) : bool :=
  negb (Qltb d0_6 (k # 9007199254740992)).

(** The number of [k] in [0, n) with [f k]. *)
Fixpoint count_upto (f : Z -> bool) (n : nat) : Z :=
  match n with
  | O => 0
  | S n' => count_upto f n' + (if f (Z.of_nat n') then 1 else 0)
  end.

(** The midpoint of a door candidate. *)
Definition midpoint (c : candidate) : Q * Q :=
  let '(wx, wy, _) := c in
  ((inject_Z (fst wx + snd wx) / 2)%Q, (inject_Z (fst wy + snd wy) / 2)%Q).

(** No stored wall can host a door at the midpoint of [c]. *)
Definition no_host (ws : list Wall) (c : candidate) : Prop :=
  forall w, In w ws -> door_host (fst (midpoint c)) (snd (midpoint c)) w = false.

(** The two rooms of a 900 x 900 plan split once at height [s], with their
    labels, and the counts the layout is checked for. *)
Definition studio_rooms (s : Z) (l0 l1 : string) : list (rect * string) :=
  [((150, 150, 600, s), l0); ((150, 150 + s, 600, 600 - s), l1)].

Definition studio_counts (g : generator) : Prop :=
  List.length (rooms g) = 2%nat /\ List.length (walls g) = 7%nat /\
  List.length (shared_walls g) = 1%nat.

(** Two tapes used below.  [door_tape]: a 900 x 900 plan of depth 1 split
    at 247, no window, and for the first room a door trial that succeeds
    with the candidates left in their original order.  [label_tape]: a
    400 x 400 plan (one room of 100 x 100), a 75-unit window on the bottom
    and on the left wall, no door, the detailed strategy, offsets 20 and
    25, and the label of the left wall's first segment placed [below]. *)
Definition door_tape : rng :=
  [7; 0; 0; 0; 0; 0; 0; 0; 0; 0; 0; 0; 0; 0; 0; 3; 2; 1; 10].

Definition label_tape : rng :=
  [0; 0; 0; 0; 0; 0; 0;
   9007199254740991; 3; 0; 0; 9007199254740991; 3;
   9007199254740991;
   0; 0; 0; 0; 0; 9007199254740991; 9007199254740991; 0; 5;
   9007199254740991].

(** The door of candidate [widx] fits the wall with endpoints [c]: the
    range from which [add_doors] draws the door position is not empty. *)
Definition door_fits (widx : Z) (c : Z * Z * Z * Z) : bool :=
  let '(wx1, wy1, wx2, wy2) := c in
  if (widx =? 0) || (widx =? 2) then wx1 + 5 <=? wx2 - door_size - 5
  else wy1 + 5 <=? wy2 - door_size - 5.

(** The point [(cx, cy)] lies on the wall with endpoints [c]. *)
Definition on_wall (cx cy : Q) (c : Z * Z * Z * Z) : bool :=
  let '(ex1, ey1, ex2, ey2) := c in
  Qle_bool (inject_Z (Z.min ex1 ex2)) cx && Qle_bool cx (inject_Z (Z.max ex1 ex2))
  && (Qle_bool (inject_Z (Z.min ey1 ey2)) cy && Qle_bool cy (inject_Z (Z.max ey1 ey2))).

(** Whatever wall the door placer selects for [room] among walls with the
    endpoints [cs], the door fits. *)
Definition door_safe (cs : list (Z * Z * Z * Z)) (room : rect * string) : bool :=
  forallb
    (fun c : candidate =>
       forallb (fun wc => implb (on_wall (fst (midpoint c)) (snd (midpoint c)) wc)
                                (door_fits (snd c) wc)) cs)
    (candidates room).

(** [raise_tape]: the default 900 x 900 plan at depth 4, partitioned into
    nine rooms of which the one at the corner (150, 150) is removed; the
    wall from (300, 310) to (450, 310) gets a window; the third room,
    (150, 310, 300, 140), passes the door trial with its bottom edge as
    first candidate. *)
Definition raise_tape : rng :=
  [60; 60; 40; 30; 30; 60; 30; 30; 0; 0; 0; 0; 0; 0; 0; 0; 0; 0;
   9007199254740991; 0; 0; 0; 0; 0; 0; 0; 0; 0; 0; 0; 0; 0; 0; 0; 0;
   9007199254740991; 9007199254740991; 0; 3; 0; 1].

(** The door placer's pass over the rooms [rs]: every room is visited, in
    order, by the loop body, which receives the walls and the tape that the
    visit of the room before it left. *)
Inductive door_visits
  : list (rect * string) -> list Wall -> rng -> list Wall -> rng -> Prop :=
| visits_done ws t : door_visits [] ws t ws t
| visits_room room rs ws t ws1 t1 ws2 t2 :
    add_door room ws t = Some (ws1, t1) ->
    door_visits rs ws1 t1 ws2 t2 ->
    door_visits (room :: rs) ws t ws2 t2.

(** ** Vocabulary of the further properties *)

Definition area (r : rect) : Z := rect_w r * rect_h r.

Definition total_area (l : list rect) : Z :=
  fold_right (fun r a => area r + a) 0 l.

(** The rectangle [a] lies within the rectangle [b]. *)
Definition within (a b : rect) : Prop :=
  let '(x, y, w, h) := a in
  let '(bx, by_, bw, bh) := b in
  bx <= x /\ x + w <= bx + bw /\ by_ <= y /\ y + h <= by_ + bh.

(** [n] consecutive identifiers from [start]. *)
Definition ids_from (start : Z) (n : nat) : list Z :=
  map (fun i => start + Z.of_nat i) (seq 0 n).

(** The centre [(x + w/2, y + h/2)] of a room. *)
Definition room_centre (r : rect) : Q * Q :=
  let '(x, y, w, h) := r in
  ((inject_Z x + inject_Z w / 2)%Q, (inject_Z y + inject_Z h / 2)%Q).

(** The wall [u] (without flags) is an edge of one of the rooms [rs] and
    carries that room's centre. *)
Definition edge_of (rs : list (rect * string))
  (u : Z * (Z * Z * Z * Z) * (Q * Q)) : Prop :=
  exists room, In room rs /\ In (snd (fst u)) (room_edges (fst room)) /\
               snd u = room_centre (fst room).

(** Some stored wall is within the tolerance of the segment [e]. *)
Definition represented (ws : list Wall) (e : Z * Z * Z * Z) : Prop :=
  exists c, In c (map w_coords ws) /\ near c e = true.

(** The window [win] sits on the wall with endpoints [wc]: its length is a
    standard size, it spans exactly that length along the wall, it keeps a
    margin of at least 10 units to both ends, and it is centred up to the
    truncation of its coordinates. *)
Definition window_fits (wc : Z * Z * Z * Z) (win : Window) : Prop :=
  let '(x1, y1, x2, y2) := wc in
  let '(a, b, c, d) := win_coords win in
  let L := win_length win in
  In L standard_sizes /\
  ((y1 = y2 /\ b = y1 /\ d = y1 /\ c - a = L /\
    x1 + 10 <= a /\ c <= x2 - 10 /\ 0 <= (x2 - c) - (a - x1) <= 1) \/
   (x1 = x2 /\ a = x1 /\ c = x1 /\ d - b = L /\
    y1 + 10 <= b /\ d <= y2 - 10 /\ 0 <= (y2 - d) - (b - y1) <= 1)).

(** Axis-aligned with ordered endpoints, in the quadrant of non-negative
    coordinates. *)
Definition plan_wall (c : Z * Z * Z * Z) : Prop :=
  let '(x1, y1, x2, y2) := c in
  ((x1 = x2 \/ y1 = y2) /\ x1 <= x2 /\ y1 <= y2) /\ 0 <= x1 /\ 0 <= y1.

(** The number of walls with [has_opening] set. *)
Definition opening_count (ws : list Wall) : nat :=
  List.length (filter has_opening ws).

(** Wall identifiers are handed out consecutively from 100. *)
Definition wall_ids_consecutive (g : generator) : Prop :=
  map w_id (walls g) = ids_from 100 (List.length (walls g)) /\
  wall_id_counter g = 100 + Z.of_nat (List.length (walls g)).





(** The displacement [(base_dx, base_dy)] of the dimension lines of the wall
    [w] in [add_smart_dimensions], for the drawn distance [offset_dist]. *)
Definition wall_offset (w : Wall) (offset_dist : Z) : Z * Z :=
  let '(wx1, wy1, wx2, wy2) := w_coords w in
  let '(rcx, rcy) := room_center w in
  let wmx := (inject_Z (wx1 + wx2) / 2)%Q in
  let wmy := (inject_Z (wy1 + wy2) / 2)%Q in
  if Z.abs (wy1 - wy2) <? 5 then
    (0, offset_dist * (if Qltb rcy wmy then 1 else -1))
  else
    (offset_dist * (if Qltb rcx wmx then 1 else -1), 0).

(** The [segments] of the chain branch of [add_smart_dimensions] for the
    wall [w] and its window [win]. *)
Definition chain_segments (w : Wall) (win : Window) : list segment :=
  let '(wx1, wy1, wx2, wy2) := w_coords w in
  let '(win_x1, win_y1, win_x2, win_y2) := win_coords win in
  if Z.abs (wy1 - wy2) <? 5 then
    let '(p0, p1, p2, p3) := sorted4 wx1 wx2 win_x1 win_x2 in
    [(p0, wy1, p1, wy1, wall_link (w_id w));
     (p1, wy1, p2, wy1, window_link (win_id win));
     (p2, wy1, p3, wy1, wall_link (w_id w))]
  else
    let '(p0, p1, p2, p3) := sorted4 wy1 wy2 win_y1 win_y2 in
    [(wx1, p0, wx1, p1, wall_link (w_id w));
     (wx1, p1, wx1, p2, window_link (win_id win));
     (wx1, p2, wx1, p3, wall_link (w_id w))].

(** The segments for which the annotator, working on the wall [w] in the
    state [g], calls [_draw_dimension_safe]: the wall itself, or the chain
    segments of the wall and its first window that are at least 5 long. *)
Definition drawn_for (g : generator) (w : Wall) (seg : segment) : Prop :=
  let '(sx1, sy1, sx2, sy2, lk) := seg in
  ((sx1, sy1, sx2, sy2) = w_coords w /\ lk = wall_link (w_id w)) \/
  exists win,
    find (fun win => win_wall_id win =? w_id w) (windows g) = Some win /\
    In seg (chain_segments w win) /\
    Qltb (hypot (sx2 - sx1) (sy2 - sy1)) 5 = false.


(** The length of an axis-aligned segment. *)
Definition span (seg : Z * Z * Z * Z) : Z :=
  let '(sx1, sy1, sx2, sy2) := seg in Z.abs (sx2 - sx1) + Z.abs (sy2 - sy1).

(** The segment [seg] moved by [off] perpendicular to the wall [w], to the
    side of the wall that faces away from the centre of its room. *)
Definition pushed_out (w : Wall) (off : Z) (seg : Z * Z * Z * Z)
  : Z * Z * Z * Z :=
  let '(x1, y1, x2, y2) := w_coords w in
  let '(rcx, rcy) := room_center w in
  let '(sx1, sy1, sx2, sy2) := seg in
  if y1 =? y2 then
    let dy := if Qltb rcy (inject_Z y1) then off else - off in
    (sx1, sy1 + dy, sx2, sy2 + dy)
  else
    let dx := if Qltb rcx (inject_Z x1) then off else - off in
    (sx1 + dx, sy1, sx2 + dx, sy2).

(** What a dimension record can measure on the wall [w]: the whole wall,
    or, when the wall has a window, the stretch from the wall's start to
    the window, the window itself, or the stretch from the window to the
    wall's end; [lk] is what the record is linked to. *)
Definition measured_part (wins : list Window) (w : Wall)
  (seg : Z * Z * Z * Z) (lk : link) : Prop :=
  (seg = w_coords w /\ lk = wall_link (w_id w)) \/
  exists win,
    In win wins /\ win_wall_id win = w_id w /\
    let '(x1, y1, x2, y2) := w_coords w in
    let '(a, b, c, d) := win_coords win in
    (seg = (x1, y1, a, b) /\ lk = wall_link (w_id w)) \/
    (seg = (a, b, c, d) /\ lk = window_link (win_id win)) \/
    (seg = (c, d, x2, y2) /\ lk = wall_link (w_id w)).

(** The record [d] dimensions a part of an unshared wall: its line is that
    part pushed out by a distance between [lo] and [hi], and its text is
    the formatted length of the part. *)
Definition surveys (ws : list Wall) (wins : list Window) (lo hi : Z)
  (um : unit_mode) (d : Dimension) : Prop :=
  exists w off seg,
    In w ws /\ is_shared w = false /\ lo <= off <= hi /\
    measured_part wins w seg (dim_link d) /\
    dim_line d = pushed_out w off seg /\
    dim_val d = _format_value um (inject_Z (span seg)).

(** The walls and windows of a plan as the annotator finds them. *)
Definition surveyable (ws : list Wall) (wins : list Window) : Prop :=
  Forall (fun w => plan_wall (w_coords w) /\ tall_or_flat (w_coords w)) ws /\
  NoDup (map w_id ws) /\
  Forall (fun win => exists w, In w ws /\ w_id w = win_wall_id win /\
                               window_fits (w_coords w) win) wins.

(** From [g] to [g'] the annotator appended records that survey the walls. *)
Definition surveyed (g g' : generator) : Prop :=
  walls g' = walls g /\ windows g' = windows g /\
  base_offset g' = base_offset g /\ g_unit_mode g' = g_unit_mode g /\
  exists ds,
    dimensions g' = dimensions g ++ ds /\
    (surveyable (walls g) (windows g) ->
     Forall (surveys (walls g) (windows g) (base_offset g - 5)
               (base_offset g + 5) (g_unit_mode g)) ds).

(** [valid_sizes] of [add_windows] for the wall [w]. *)
Definition window_sizes (w : Wall) : list Z :=
  let '(x1, y1, x2, y2) := w_coords w in
  let wall_len :=
    if Z.abs (y1 - y2) <? 5 then Z.abs (x2 - x1) else Z.abs (y2 - y1) in
  filter (fun sz => sz <? wall_len - 20) standard_sizes.

(** The random decisions of the window placer and of the annotator, as
    functions of the 53-bit integer [k] behind [random.random() = k / 2^53]:
    a window is tried when the draw is above 0.4, a wall is dimensioned
    when the draw is not above 0.7, and the label position is located among
    the cumulative weights 0.4, 0.7, 1.0. *)
Definition window_trial (k : Z) : bool :=
  Qltb d0_4 (k # 9007199254740992).

Definition dimension_trial (k : Z) : bool :=
  negb (Qltb d0_7 (k # 9007199254740992)).

Definition position_of (k : Z) : pos_mode :=
  if Qltb (k # 9007199254740992) d0_4 then inline
  else if Qltb (k # 9007199254740992) d0_7 then above else below.

Definition is_mode (pm : pos_mode) (k : Z) : bool :=
  match pm, position_of k with
  | inline, inline | above, above | below, below => true
  | _, _ => false
  end.

(** ** Further parts of the program *)

(** *** Style sampler *)

Inductive fill_kind := solid_black | solid_grey | hatch | empty.

(** The style attributes that [__init__] draws for a plan. *)
Record style := mkStyle {
  wall_thickness : Z;
  wall_color : string;
  fill_style : fill_kind;
  arrow_style : string;
  style_base_offset : Z;
  font_family : string;
  font_size : Z;
  style_unit_mode : unit_mode;
  style_depth : nat
}.

(** The draws of [__init__], in the order of the source. *)
Definition sample_style : Rand style :=
  wt <- choice [2; 3; 4; 5] ;;
  wc <- choice ["#000000"; "#2F2F2F"; "#000050"]%string ;;
  fs <- choice [solid_black; solid_grey; hatch; empty] ;;
  ar <- choice ["<->"; "|-|"; "-|>"; "<|-|>"; "->"]%string ;;
  bo <- randint 25 65 ;;
  ff <- choice ["sans-serif"; "serif"; "monospace"]%string ;;
  fz <- randint 8 11 ;;
  um <- choice [mm; mm_suffix; m; inch; ft] ;;
  cd <- choice [1; 2; 4; 4; 4]%nat ;;
  ret (mkStyle wt wc fs ar bo ff fz um cd).

(** [StyledPlanGenerator(width, height)]: the sampled style and the empty
    plan. *)
Definition new_generator (width height : Z) : Rand (style * generator) :=
  st <- sample_style ;;
  ret (st, init width height (style_base_offset st) (style_unit_mode st)
             (style_depth st)).

(** *** Grid lines *)

(** [sorted(list(set(l)))] *)
Fixpoint insert_uniq (a : Z) (l : list Z) : list Z :=
  match l with
  | [] => [a]
  | b :: l' => if a <? b then a :: l
               else if a =? b then l
               else b :: insert_uniq a l'
  end.

Definition sorted_set (l : list Z) : list Z := fold_right insert_uniq [] l.

(** [l[::2]] *)
Fixpoint every_other {A} (l : list A) : list A :=
  match l with
  | [] => []
  | [a] => [a]
  | a :: _ :: l' => a :: every_other l'
  end.

(** [labels] *)
Definition grid_labels : list string := ["A"; "B"; "C"; "1"; "2"; "3"]%string.

(** [for i, x in enumerate(starts)], each position with the label
    [labels[i % 3 + shift]]. *)
Fixpoint label_from (i shift : nat) (starts : list Z) : list (Z * string) :=
  match starts with
  | [] => []
  | x :: starts' =>
      (x, nth (i mod 3 + shift) grid_labels EmptyString)
      :: label_from (S i) shift starts'
  end.

(** The grid lines [add_grid_lines] draws: the positions of the vertical
    lines with their labels, and those of the horizontal lines. *)
Definition add_grid_lines (g : generator)
  : list (Z * string) * list (Z * string) :=
  let x_starts :=
    firstn 3 (every_other (sorted_set
      (map (fun w => let '(x1, _, _, _) := w_coords w in x1) (walls g)))) in
  let y_starts :=
    firstn 3 (every_other (sorted_set
      (map (fun w => let '(_, y1, _, _) := w_coords w in y1) (walls g)))) in
  (label_from 0 0 x_starts, label_from 0 3 y_starts).

(* ================================================================= *)
(** * Properties *)

(** ** Float rounding *)

Lemma round_half_even_bounds (n d : Z) :
  0 < d ->
  n / d <= round_half_even n d <= n / d + 1 /\
  (n mod d = 0 -> round_half_even n d = n / d).
Proof.
  intros Hd. unfold round_half_even.
  destruct (Z.ltb_spec (2 * (n mod d)) d);
    [|destruct (Z.ltb_spec d (2 * (n mod d)));
      [|destruct (Z.even (n / d))]]; lia.
Qed.

Lemma binade_lower (n d : Z) :
  0 < n -> 0 < d -> 0 <= binade n d -> d * 2 ^ binade n d <= n.
Proof.
  intros Hn Hd. unfold binade.
  set (e0 := Z.log2 n - Z.log2 d).
  destruct (Z.ltb_spec (n * 2 ^ Z.max 0 (- e0)) (d * 2 ^ Z.max 0 e0)) as [Hlt|Hge];
    intros He.
  - pose proof (Z.log2_spec n Hn) as [Hn1 _].
    pose proof (Z.log2_spec d Hd) as [_ Hd2].
    pose proof (Z.log2_nonneg d) as Hld.
    assert (Hpow : 2 ^ Z.succ (Z.log2 d) * 2 ^ (e0 - 1) = 2 ^ Z.log2 n).
    { rewrite <- Z.pow_add_r by lia. f_equal. unfold e0. lia. }
    assert (0 < 2 ^ (e0 - 1)) by (apply Z.pow_pos_nonneg; lia).
    nia.
  - rewrite (Z.max_l 0 (- e0)) in Hge by lia.
    rewrite (Z.max_r 0 e0) in Hge by lia.
    rewrite Z.pow_0_r in Hge. lia.
Qed.

Lemma to_double_pos_ge (n d k : Z) :
  0 < n -> 0 < d -> 0 <= k < 2 ^ 53 -> k * d <= n ->
  (inject_Z k <= to_double_pos n d)%Q.
Proof.
  intros Hn Hd Hk Hle. unfold to_double_pos.
  set (e := binade n d).
  destruct (Z.leb_spec 0 (52 - e)) as [Hs|Hs].
  - rewrite (Z.max_r 0 (52 - e)) by lia. rewrite (Z.max_l 0 (- (52 - e))) by lia.
    rewrite Z.pow_0_r, Z.mul_1_r.
    assert (Hp : 0 < 2 ^ (52 - e)) by (apply Z.pow_pos_nonneg; lia).
    destruct (round_half_even_bounds (n * 2 ^ (52 - e)) d Hd) as [[Hlo _] _].
    unfold Qle; cbn [Qnum Qden inject_Z]. rewrite Z2Pos.id by assumption.
    assert (k * 2 ^ (52 - e) <= n * 2 ^ (52 - e) / d).
    { apply Z.div_le_lower_bound; [assumption|]. nia. }
    lia.
  - rewrite (Z.max_l 0 (52 - e)) by lia. rewrite (Z.max_r 0 (- (52 - e))) by lia.
    rewrite Z.pow_0_r, Z.mul_1_r.
    replace (- (52 - e)) with (e - 52) by lia.
    assert (Hp : 0 < 2 ^ (e - 52)) by (apply Z.pow_pos_nonneg; lia).
    assert (HD : 0 < d * 2 ^ (e - 52)) by nia.
    destruct (round_half_even_bounds n (d * 2 ^ (e - 52)) HD) as [[Hlo _] _].
    pose proof (binade_lower n d Hn Hd ltac:(fold e; lia)) as Hb. fold e in Hb.
    assert (He : 2 ^ e = 2 ^ 52 * 2 ^ (e - 52)).
    { rewrite <- Z.pow_add_r by lia. f_equal. lia. }
    assert (2 ^ 52 <= n / (d * 2 ^ (e - 52))).
    { apply Z.div_le_lower_bound; [assumption|]. nia. }
    unfold Qle; cbn [Qnum Qden inject_Z]. rewrite Z.mul_1_r.
    assert (2 <= 2 ^ (e - 52)).
    { change 2 with (2 ^ 1) at 1. apply Z.pow_le_mono_r; lia. }
    change (2 ^ 53) with (2 ^ 52 * 2) in Hk. nia.
Qed.

Lemma to_double_pos_le (n d k : Z) :
  0 < n -> 0 < d -> 0 <= k < 2 ^ 53 -> n <= k * d ->
  (to_double_pos n d <= inject_Z k)%Q.
Proof.
  intros Hn Hd Hk Hle. unfold to_double_pos.
  set (e := binade n d).
  destruct (Z.leb_spec 0 (52 - e)) as [Hs|Hs].
  - rewrite (Z.max_r 0 (52 - e)) by lia. rewrite (Z.max_l 0 (- (52 - e))) by lia.
    rewrite Z.pow_0_r, Z.mul_1_r.
    assert (Hp : 0 < 2 ^ (52 - e)) by (apply Z.pow_pos_nonneg; lia).
    destruct (round_half_even_bounds (n * 2 ^ (52 - e)) d Hd) as [[_ Hhi] Hex].
    unfold Qle; cbn [Qnum Qden inject_Z]. rewrite Z2Pos.id by assumption. rewrite Z.mul_1_r.
    set (N := n * 2 ^ (52 - e)) in *.
    assert (HN : N <= (k * 2 ^ (52 - e)) * d) by (unfold N; nia).
    pose proof (Z.div_mod N d ltac:(lia)) as Hdm.
    pose proof (Z.mod_pos_bound N d Hd) as Hm.
    destruct (Z.eq_dec (N mod d) 0) as [H0|H0].
    + rewrite (Hex H0). apply Z.div_le_upper_bound; [assumption|]. lia.
    + assert (N / d < k * 2 ^ (52 - e)); [|lia].
      apply Z.div_lt_upper_bound; [assumption|].
      assert (N <> d * (k * 2 ^ (52 - e))); [|lia].
      intros Heq. apply H0. rewrite Heq, Z.mul_comm. apply Z.mod_mul. lia.
  - exfalso.
    pose proof (binade_lower n d Hn Hd ltac:(fold e; lia)) as Hb. fold e in Hb.
    assert (2 ^ 53 <= 2 ^ e) by (apply Z.pow_le_mono_r; lia).
    nia.
Qed.

(** Rounding to double never crosses an integer below [2^53]. *)
Lemma to_double_ge (v : Q) (k : Z) :
  0 <= k < 2 ^ 53 -> (inject_Z k <= v)%Q -> (inject_Z k <= to_double v)%Q.
Proof.
  intros Hk Hle. unfold to_double. destruct v as [n d]. simpl.
  unfold Qle in Hle; simpl in Hle.
  destruct n as [|n|n]; simpl.
  - unfold Qle; simpl. lia.
  - apply to_double_pos_ge; lia.
  - lia.
Qed.

Lemma to_double_le (v : Q) (k : Z) :
  0 <= k < 2 ^ 53 -> (0 <= v)%Q -> (v <= inject_Z k)%Q ->
  (to_double v <= inject_Z k)%Q.
Proof.
  intros Hk H0 Hle. unfold to_double. destruct v as [n d]. simpl.
  unfold Qle in Hle, H0; simpl in Hle, H0.
  destruct n as [|n|n]; simpl.
  - unfold Qle; simpl. lia.
  - apply to_double_pos_le; lia.
  - lia.
Qed.

Lemma py_int_ge (q : Q) (k : Z) : 0 <= k -> (inject_Z k <= q)%Q -> k <= py_int q.
Proof.
  intros Hk Hle. unfold py_int. destruct q as [n d]. simpl.
  unfold Qle in Hle; simpl in Hle.
  apply Z.quot_le_lower_bound; lia.
Qed.

Lemma py_int_le (q : Q) (k : Z) : (0 <= q)%Q -> (q <= inject_Z k)%Q -> py_int q <= k.
Proof.
  intros H0 Hle. unfold py_int. destruct q as [n d]. simpl.
  unfold Qle in Hle, H0; simpl in Hle, H0.
  assert (n ÷ Z.pos d <= n).
  { rewrite Z.quot_div_nonneg by lia.
    apply Z.div_le_upper_bound; [lia|]. nia. }
  destruct (Z.le_gt_cases 0 k); [|lia].
  rewrite Z.quot_div_nonneg by lia.
  apply Z.div_le_upper_bound; lia.
Qed.

(** [int(i * c)] lies between the floor and the ceiling of the exact
    product, for a positive literal [c = a/b] and an [int] that is exact as
    a float. *)
Lemma int_times_ge (i k : Z) (c : Q) :
  0 <= i < 2 ^ 53 -> 0 <= k < 2 ^ 53 -> (0 <= c)%Q ->
  k * Zpos (Qden c) <= i * Qnum c -> k <= int_times i c.
Proof.
  intros Hi Hk Hc Hle. unfold int_times, fmul, float_of_int.
  apply py_int_ge; [lia|]. apply to_double_ge; [assumption|].
  assert (Hf : (inject_Z i <= to_double (inject_Z i))%Q).
  { apply to_double_ge; [assumption|]. apply Qle_refl. }
  apply Qle_trans with (inject_Z i * c)%Q.
  - destruct c as [a b]. unfold Qle, Qmult, inject_Z; simpl in *. lia.
  - apply Qmult_le_compat_r; assumption.
Qed.

Lemma int_times_le (i k : Z) (c : Q) :
  0 <= i < 2 ^ 53 -> 0 <= k < 2 ^ 53 -> (0 <= c)%Q ->
  i * Qnum c <= k * Zpos (Qden c) -> int_times i c <= k.
Proof.
  intros Hi Hk Hc Hle. unfold int_times, fmul, float_of_int.
  assert (Hf : (to_double (inject_Z i) <= inject_Z i)%Q).
  { apply to_double_le; [assumption| |apply Qle_refl].
    unfold Qle, inject_Z; simpl. lia. }
  assert (Hf0 : (0 <= to_double (inject_Z i))%Q).
  { apply (to_double_ge _ 0); [lia|]. unfold Qle, inject_Z; simpl. lia. }
  assert (Hp : (to_double (inject_Z i) * c <= inject_Z k)%Q).
  { apply Qle_trans with (inject_Z i * c)%Q.
    - apply Qmult_le_compat_r; assumption.
    - destruct c as [a b]. unfold Qle, Qmult, inject_Z; simpl in *. lia. }
  assert (Hp0 : (0 <= to_double (inject_Z i) * c)%Q)
    by (apply Qmult_le_0_compat; assumption).
  apply py_int_le.
  - apply (to_double_ge _ 0); [lia|assumption].
  - apply to_double_le; assumption.
Qed.

(** ** The random source *)

Lemma randint_spec (a b : Z) (t : rng) :
  a <= b ->
  exists k, randint a b t = Some (k, tl t) /\ a <= k <= b.
Proof.
  intros Hab. unfold randint. destruct (Z.leb_spec a b); [|lia].
  unfold bind, randbelow, bind, next_raw, ret.
  destruct t as [|d t]; simpl.
  - exists (a + 0 mod (b - a + 1)). split; [reflexivity|].
    pose proof (Z.mod_pos_bound 0 (b - a + 1)). lia.
  - exists (a + d mod (b - a + 1)). split; [reflexivity|].
    pose proof (Z.mod_pos_bound d (b - a + 1)). lia.
Qed.

Lemma random_spec (t : rng) :
  random t = Some ((hd 0 t mod 2 ^ 53) # 9007199254740992, tl t).
Proof. destruct t; reflexivity. Qed.

(** ** Space partitioner *)

Lemma split_range (w : Z) :
  160 <= w < 2 ^ 53 ->
  64 <= int_times w d0_4 /\ int_times w d0_4 <= int_times w d0_6 /\
  int_times w d0_6 <= w - 64.
Proof.
  intros Hw.
  assert (H4 : (0 <= d0_4)%Q) by (unfold Qle; simpl; lia).
  assert (H6 : (0 <= d0_6)%Q) by (unfold Qle; simpl; lia).
  pose proof (Z.div_mod w 2 ltac:(lia)) as Hdm.
  pose proof (Z.mod_pos_bound w 2 ltac:(lia)) as Hmb.
  set (q := w / 2) in *.
  assert (E53 : 2 ^ 53 = 9007199254740992) by reflexivity.
  assert (L4 : int_times w d0_4 <= q).
  { apply int_times_le; [lia|lia|assumption|].
    unfold d0_4; cbn [Qnum Qden]. lia. }
  assert (G6 : q <= int_times w d0_6).
  { apply int_times_ge; [lia|lia|assumption|].
    unfold d0_6; cbn [Qnum Qden]. lia. }
  split; [|split].
  - apply int_times_ge; [lia|lia|assumption|].
    unfold d0_4; cbn [Qnum Qden]. lia.
  - lia.
  - apply int_times_le; [lia|lia|assumption|].
    unfold d0_6; cbn [Qnum Qden]. lia.
Qed.

(** The traced partitioner returns the leaves of the partitioner. *)
Lemma traced_erase (depth : nat) : forall r t,
  _recursive_split r depth t =
  match _recursive_split_traced r depth t with
  | Some (l, t') => Some (map fst l, t')
  | None => None
  end.
Proof.
  induction depth as [|depth IH]; intros [[[x y] w] h] t; [reflexivity|].
  cbn [_recursive_split _recursive_split_traced].
  destruct ((w <? 160) || (h <? 160)); [reflexivity|].
  destruct (h <? w).
  - unfold bind.
    destruct (randint (int_times w d0_4) (int_times w d0_6) t) as [[s t1]|];
      [|reflexivity].
    rewrite IH.
    destruct (_recursive_split_traced (x, y, s, h) depth t1) as [[l1 t2]|];
      [|reflexivity].
    rewrite IH.
    destruct (_recursive_split_traced (x + s, y, w - s, h) depth t2)
      as [[l2 t3]|]; [|reflexivity].
    unfold ret. now rewrite map_app.
  - unfold bind.
    destruct (randint (int_times h d0_4) (int_times h d0_6) t) as [[s t1]|];
      [|reflexivity].
    rewrite IH.
    destruct (_recursive_split_traced (x, y, w, s) depth t1) as [[l1 t2]|];
      [|reflexivity].
    rewrite IH.
    destruct (_recursive_split_traced (x, y + s, w, h - s) depth t2)
      as [[l2 t3]|]; [|reflexivity].
    unfold ret. now rewrite map_app.
Qed.

(** Induction over the calls of the partitioner: a property of
    (rectangle, depth, traced leaves) that holds at every leaf call and is
    carried from the two halves of a split to the whole holds of every run. *)
Section SplitInduction.

Variable P : rect -> nat -> list (rect * nat) -> Prop.

Hypothesis P_leaf : forall x y w h d,
  d = O \/ w < 160 \/ h < 160 -> P (x, y, w, h) d [((x, y, w, h), d)].

Hypothesis P_split_w : forall x y w h d s l1 l2,
  160 <= w -> 160 <= h -> h < w -> 64 <= s <= w - 64 ->
  P (x, y, s, h) d l1 -> P (x + s, y, w - s, h) d l2 ->
  P (x, y, w, h) (S d) (l1 ++ l2).

Hypothesis P_split_h : forall x y w h d s l1 l2,
  160 <= w -> 160 <= h -> w <= h -> 64 <= s <= h - 64 ->
  P (x, y, w, s) d l1 -> P (x, y + s, w, h - s) d l2 ->
  P (x, y, w, h) (S d) (l1 ++ l2).

Lemma split_induction (depth : nat) : forall r t,
  rect_w r < 2 ^ 53 -> rect_h r < 2 ^ 53 ->
  exists l t', _recursive_split_traced r depth t = Some (l, t') /\ P r depth l.
Proof.
  induction depth as [|depth IH]; intros [[[x y] w] h] t Hw Hh;
    cbn [rect_w rect_h] in Hw, Hh.
  - eexists _, _. split; [reflexivity|]. apply P_leaf. now left.
  - cbn [_recursive_split_traced].
    destruct (Z.ltb_spec w 160) as [Hw1|Hw1]; cbn [orb].
    { eexists _, _. split; [reflexivity|]. apply P_leaf. lia. }
    destruct (Z.ltb_spec h 160) as [Hh1|Hh1].
    { eexists _, _. split; [reflexivity|]. apply P_leaf. lia. }
    destruct (Z.ltb_spec h w) as [Hhw|Hhw].
    + destruct (split_range w ltac:(lia)) as (Hlo & Hmid & Hhi).
      destruct (randint_spec _ _ t Hmid) as (s & Hs & Hsr).
      destruct (IH (x, y, s, h) (tl t)) as (l1 & t1 & E1 & P1);
        cbn [rect_w rect_h]; try lia.
      destruct (IH (x + s, y, w - s, h) t1) as (l2 & t2 & E2 & P2);
        cbn [rect_w rect_h]; try lia.
      exists (l1 ++ l2), t2. split.
      * unfold bind. rewrite Hs, E1, E2. reflexivity.
      * apply P_split_w with (s := s); try assumption; lia.
    + destruct (split_range h ltac:(lia)) as (Hlo & Hmid & Hhi).
      destruct (randint_spec _ _ t Hmid) as (s & Hs & Hsr).
      destruct (IH (x, y, w, s) (tl t)) as (l1 & t1 & E1 & P1);
        cbn [rect_w rect_h]; try lia.
      destruct (IH (x, y + s, w, h - s) t1) as (l2 & t2 & E2 & P2);
        cbn [rect_w rect_h]; try lia.
      exists (l1 ++ l2), t2. split.
      * unfold bind. rewrite Hs, E1, E2. reflexivity.
      * apply P_split_h with (s := s); try assumption; lia.
Qed.

End SplitInduction.

Lemma ForallOrdPairs_app {A} (R : A -> A -> Prop) (l1 l2 : list A) :
  ForallOrdPairs R l1 -> ForallOrdPairs R l2 ->
  (forall a b, In a l1 -> In b l2 -> R a b) ->
  ForallOrdPairs R (l1 ++ l2).
Proof.
  induction 1 as [|a l1 Ha H1 IH]; intros H2 Hx; [assumption|].
  simpl. constructor.
  - apply Forall_app. split; [assumption|].
    apply Forall_forall. intros b Hb. apply Hx; [now left|assumption].
  - apply IH; [assumption|]. intros a' b Ha' Hb. apply Hx; [now right|assumption].
Qed.

Lemma inside_split_w (p : Q * Q) (x y w h s : Z) :
  0 <= s <= w ->
  (inside p (x, y, w, h) <->
   inside p (x, y, s, h) \/ inside p (x + s, y, w - s, h)) /\
  ~ (inside p (x, y, s, h) /\ inside p (x + s, y, w - s, h)).
Proof.
  intros Hs. unfold inside.
  replace (x + s + (w - s)) with (x + w) by lia.
  assert (H1 : (inject_Z x <= inject_Z (x + s))%Q) by (rewrite <- Zle_Qle; lia).
  assert (H2 : (inject_Z (x + s) <= inject_Z (x + w))%Q)
    by (rewrite <- Zle_Qle; lia).
  split; [split|].
  - intros [[Ha Hb] Hy].
    destruct (Qlt_le_dec (fst p) (inject_Z (x + s))); [left|right]; tauto.
  - intros [[[Ha Hb] Hy]|[[Ha Hb] Hy]]; (split; [split|assumption]);
      try assumption.
    + eapply Qlt_le_trans; eassumption.
    + eapply Qle_trans; eassumption.
  - intros [[[_ Hb] _] [[Ha _] _]].
    apply (Qlt_irrefl (fst p)). eapply Qlt_le_trans; eassumption.
Qed.

Lemma inside_split_h (p : Q * Q) (x y w h s : Z) :
  0 <= s <= h ->
  (inside p (x, y, w, h) <->
   inside p (x, y, w, s) \/ inside p (x, y + s, w, h - s)) /\
  ~ (inside p (x, y, w, s) /\ inside p (x, y + s, w, h - s)).
Proof.
  intros Hs. unfold inside.
  replace (y + s + (h - s)) with (y + h) by lia.
  assert (H1 : (inject_Z y <= inject_Z (y + s))%Q) by (rewrite <- Zle_Qle; lia).
  assert (H2 : (inject_Z (y + s) <= inject_Z (y + h))%Q)
    by (rewrite <- Zle_Qle; lia).
  split; [split|].
  - intros [Hx [Ha Hb]].
    destruct (Qlt_le_dec (snd p) (inject_Z (y + s))); [left|right]; tauto.
  - intros [[Hx [Ha Hb]]|[Hx [Ha Hb]]]; (split; [assumption|split]);
      try assumption.
    + eapply Qlt_le_trans; eassumption.
    + eapply Qle_trans; eassumption.
  - intros [[_ [_ Hb]] [_ [Ha _]]].
    apply (Qlt_irrefl (snd p)). eapply Qlt_le_trans; eassumption.
Qed.

(** Two tilings of the two halves of a rectangle make a tiling of it. *)
Lemma tiles_join (r a b : rect) (l1 l2 : list rect) :
  (forall p, (inside p r <-> inside p a \/ inside p b) /\
             ~ (inside p a /\ inside p b)) ->
  tiles a l1 -> tiles b l2 -> tiles r (l1 ++ l2).
Proof.
  intros Hab [C1 D1] [C2 D2]. split.
  - intros p. destruct (Hab p) as [Hr _]. rewrite Hr, C1, C2. split.
    + intros [(l & Hl & Hp)|(l & Hl & Hp)]; exists l;
        (split; [apply in_or_app; tauto|assumption]).
    + intros (l & Hl & Hp). apply in_app_or in Hl.
      destruct Hl; [left|right]; exists l; tauto.
  - apply ForallOrdPairs_app; try assumption.
    intros la lb Ha Hb p [Hpa Hpb].
    destruct (Hab p) as [_ Hd]. apply Hd. split.
    + apply C1. now exists la.
    + apply C2. now exists lb.
Qed.

Lemma tiles_self (r : rect) : tiles r [r].
Proof.
  split.
  - intros p. split.
    + intros Hp. exists r. split; [now left|assumption].
    + intros (l & [<-|[]] & Hp). assumption.
  - constructor; constructor.
Qed.

(** C7.  For every bounding rectangle whose sides are exact as floats
    (below [2^53]), every depth and every tape, the partitioner returns,
    and the leaves it returns tile the rectangle: every point of the
    rectangle lies in some leaf, every point of a leaf lies in the
    rectangle, and no two leaves share a point. *)
Theorem partition_tiles (r : rect) (depth : nat) (t : rng) :
  rect_w r < 2 ^ 53 -> rect_h r < 2 ^ 53 ->
  exists leaves t',
    _recursive_split r depth t = Some (leaves, t') /\ tiles r leaves.
Proof.
  intros Hw Hh.
  destruct (split_induction (fun r _ l => tiles r (map fst l)))
    with (depth := depth) (r := r) (t := t) as (l & t' & E & T);
    try assumption.
  - intros. apply tiles_self.
  - intros x y w h d s l1 l2 Hw1 Hh1 Hhw Hs T1 T2. rewrite map_app.
    eapply tiles_join; [|eassumption|eassumption].
    intros p. apply inside_split_w. lia.
  - intros x y w h d s l1 l2 Hw1 Hh1 Hhw Hs T1 T2. rewrite map_app.
    eapply tiles_join; [|eassumption|eassumption].
    intros p. apply inside_split_h. lia.
  - exists (map fst l), t'. split; [|assumption].
    rewrite traced_erase, E. reflexivity.
Qed.

Lemma partition_tiles_witness :
  exists leaves t',
    _recursive_split (150, 150, 600, 600) 4 [60; 60; 60; 30; 30; 30; 12]
      = Some (leaves, t') /\ tiles (150, 150, 600, 600) leaves.
Proof.
  apply (partition_tiles (150, 150, 600, 600) 4 [60; 60; 60; 30; 30; 30; 12]);
    vm_compute; reflexivity.
Defined.

Lemma leaf_ok_inner (r : rect) (l : list (rect * nat)) (r' : rect) :
  64 <= rect_w r /\ 64 <= rect_h r ->
  Forall (leaf_ok r) l -> Forall (leaf_ok r') l.
Proof.
  intros Hr. apply Forall_impl. intros [lf d] [H1 H2]. split; [assumption|].
  right. destruct H2 as [->|H2]; assumption.
Qed.

Lemma split_leaves_ok (r : rect) (depth : nat) (t : rng) :
  rect_w r < 2 ^ 53 -> rect_h r < 2 ^ 53 ->
  exists l t',
    _recursive_split_traced r depth t = Some (l, t') /\
    _recursive_split r depth t = Some (map fst l, t') /\
    Forall (leaf_ok r) l.
Proof.
  intros Hw Hh.
  destruct (split_induction (fun r _ l => Forall (leaf_ok r) l))
    with (depth := depth) (r := r) (t := t) as (l & t' & E & T);
    try assumption.
  - intros x y w h d Hd. constructor; [|constructor].
    split; [exact Hd|now left].
  - intros x y w h d s l1 l2 Hw1 Hh1 Hhw Hs T1 T2. apply Forall_app. split.
    + eapply leaf_ok_inner; [|eassumption]. cbn. lia.
    + eapply leaf_ok_inner; [|eassumption]. cbn. lia.
  - intros x y w h d s l1 l2 Hw1 Hh1 Hhw Hs T1 T2. apply Forall_app. split.
    + eapply leaf_ok_inner; [|eassumption]. cbn. lia.
    + eapply leaf_ok_inner; [|eassumption]. cbn. lia.
  - exists l, t'. split; [assumption|]. split; [|assumption].
    rewrite traced_erase, E. reflexivity.
Qed.

(** C3, amended.  The partitioner returns, and every leaf it returns was
    returned at depth 0 or has a side below 160; a leaf other than the
    unsplit input has both sides at least 64.  The floor of 160 applies to
    the rectangle that is split, not to the pieces. *)
Theorem partition_leaf_sizes (r : rect) (depth : nat) (t : rng) :
  rect_w r < 2 ^ 53 -> rect_h r < 2 ^ 53 ->
  exists l t',
    _recursive_split_traced r depth t = Some (l, t') /\
    _recursive_split r depth t = Some (map fst l, t') /\
    Forall (leaf_ok r) l.
Proof. apply split_leaves_ok. Qed.

Lemma partition_leaf_sizes_witness :
  exists l t',
    _recursive_split_traced (150, 150, 600, 600) 4 [0] = Some (l, t') /\
    _recursive_split (150, 150, 600, 600) 4 [0] = Some (map fst l, t') /\
    Forall (leaf_ok (150, 150, 600, 600)) l.
Proof.
  apply (partition_leaf_sizes (150, 150, 600, 600) 4 [0]);
    vm_compute; reflexivity.
Defined.

(** C3 as stated fails on the default 900 x 900 plan at depth 4: the
    240 x 240 rectangle reached at depth 2 is split into 240 x 96 and
    240 x 144, both returned at depth 1. *)
Lemma partition_min_size_counterexample :
  exists l t',
    _recursive_split_traced (150, 150, 600, 600) 4 [0] = Some (l, t') /\
    In ((150, 150, 240, 96), 1%nat) l /\
    ~ Forall leaf_min_size l.
Proof.
  eexists _, _. split; [vm_compute; reflexivity|]. split.
  - simpl. tauto.
  - intros H. inversion H as [|a l' Ha _]; subst.
    destruct Ha as [[_ Hh]|Hd]; [cbn in Hh; lia|discriminate].
Qed.

(** ** Unit formatter *)

(** C9.  450 pixel-units print as [4.5m] in meter mode, as [14'9] followed
    by the inch mark in foot-inch mode (4500 mm, 177 whole inches, 14 feet
    9 inches) and as [4500] in raw-millimeter mode. *)
Theorem format_450 :
  _format_value m 450 = "4.5m"%string /\
  _format_value ft 450 = ("14'9" ++ dquote)%string /\
  py_int (fdiv (float_of_int 4500) d25_4) = 177 /\
  _format_value mm 450 = "4500"%string.
Proof. repeat split; vm_compute; reflexivity. Qed.

(** ** Generic facts about loops *)

Lemma for_each_inv {A S} (body : A -> S -> Rand (A * S))
  (Pa : A -> Prop) (R : A -> A -> Prop) (I : S -> Prop) :
  (forall a s t a' s' t',
      Pa a -> I s -> body a s t = Some ((a', s'), t') -> R a a' /\ I s') ->
  forall l s t l' s' t',
    Forall Pa l -> I s -> for_each body l s t = Some ((l', s'), t') ->
    Forall2 R l l' /\ I s'.
Proof.
  intros Hbody. induction l as [|a l IH]; intros s t l' s' t' Hl Hs E.
  - cbn in E. injection E as <- <- <-. split; [constructor|assumption].
  - cbn [for_each] in E. unfold bind in E.
    destruct (body a s t) as [[[a1 s1] t1]|] eqn:Eb; [|discriminate].
    cbn [fst snd] in E.
    destruct (for_each body l s1 t1) as [[[l2 s2] t2]|] eqn:El; [|discriminate].
    cbn in E. injection E as <- <- <-.
    inversion Hl as [|? ? Ha Hl']; subst.
    destruct (Hbody _ _ _ _ _ _ Ha Hs Eb) as [Hr Hs1].
    destruct (IH _ _ _ _ _ Hl' Hs1 El) as [Hf Hs2].
    split; [constructor; assumption|assumption].
Qed.

Lemma Forall2_map_eq {A B} (f : A -> B) (l l' : list A) :
  Forall2 (fun a a' => f a' = f a) l l' -> map f l' = map f l.
Proof. induction 1; simpl; congruence. Qed.

Lemma set_nth_map {A B} (f : A -> B) (i : nat) (a b : A) (l : list A) :
  nth_error l i = Some b -> f a = f b -> map f (set_nth i a l) = map f l.
Proof.
  revert i. induction l as [|c l IH]; intros [|i] Hn Hf; simpl in *;
    try discriminate.
  - injection Hn as ->. now rewrite Hf.
  - now rewrite IH.
Qed.

(** ** Wall graph builder *)

Lemma mark_shared_spec (c : Z * Z * Z * Z) (ws ws' : list Wall) :
  mark_shared c ws = Some ws' ->
  map unflagged ws' = map unflagged ws /\
  map has_opening ws' = map has_opening ws.
Proof.
  revert ws'. induction ws as [|w ws IH]; intros ws' E; [discriminate|].
  cbn [mark_shared] in E. destruct (near (w_coords w) c).
  - injection E as <-. split; reflexivity.
  - destruct (mark_shared c ws) as [ws1|]; [|discriminate].
    injection E as <-. destruct (IH _ eq_refl) as [H1 H2].
    simpl. now rewrite H1, H2.
Qed.

Lemma add_wall_annotations g x1 y1 x2 y2 rcx rcy :
  annotations (_add_wall g x1 y1 x2 y2 rcx rcy) = annotations g /\
  rooms (_add_wall g x1 y1 x2 y2 rcx rcy) = rooms g.
Proof.
  unfold _add_wall. destruct (mark_shared _ (walls g)); split; reflexivity.
Qed.

(** [_add_wall] either flags an existing wall and stores nothing, or
    appends one wall with the next identifier. *)
Lemma add_wall_cases g x1 y1 x2 y2 rcx rcy :
  let g' := _add_wall g x1 y1 x2 y2 rcx rcy in
  (map unflagged (walls g') = map unflagged (walls g) /\
   map has_opening (walls g') = map has_opening (walls g) /\
   wall_id_counter g' = wall_id_counter g) \/
  (walls g' =
     walls g ++ [mkWall (wall_id_counter g) (normalize x1 y1 x2 y2)
                        false false (rcx, rcy)] /\
   wall_id_counter g' = wall_id_counter g + 1).
Proof.
  unfold _add_wall.
  destruct (mark_shared _ (walls g)) as [ws|] eqn:E; cbn.
  - left. destruct (mark_shared_spec _ _ _ E). tauto.
  - right. tauto.
Qed.

Lemma map_unflagged_coords (ws ws' : list Wall) :
  map unflagged ws' = map unflagged ws -> map w_coords ws' = map w_coords ws.
Proof.
  intros H. apply (f_equal (map (fun p => snd (fst p)))) in H.
  now rewrite !map_map in H.
Qed.

Lemma map_unflagged_ids (ws ws' : list Wall) :
  map unflagged ws' = map unflagged ws -> map w_id ws' = map w_id ws.
Proof.
  intros H. apply (f_equal (map (fun p => fst (fst p)))) in H.
  now rewrite !map_map in H.
Qed.

Lemma Forall_coords (Pc : Z * Z * Z * Z -> Prop) (ws : list Wall) :
  Forall (fun w => Pc (w_coords w)) ws <-> Forall Pc (map w_coords ws).
Proof. symmetry. apply Forall_map. Qed.

Lemma add_wall_Forall (Pc : Z * Z * Z * Z -> Prop) g x1 y1 x2 y2 rcx rcy :
  Forall (fun w => Pc (w_coords w)) (walls g) ->
  Pc (normalize x1 y1 x2 y2) ->
  Forall (fun w => Pc (w_coords w)) (walls (_add_wall g x1 y1 x2 y2 rcx rcy)).
Proof.
  intros Hws Hc.
  destruct (add_wall_cases g x1 y1 x2 y2 rcx rcy) as [(Hu & _ & _)|(Hw & _)].
  - apply Forall_coords. rewrite (map_unflagged_coords _ _ Hu).
    now apply Forall_coords.
  - rewrite Hw. apply Forall_app. split; [assumption|].
    constructor; [exact Hc|constructor].
Qed.

Lemma add_room_walls_Forall (Pc : Z * Z * Z * Z -> Prop) g room :
  Forall (fun w => Pc (w_coords w)) (walls g) ->
  Forall Pc (room_edges (fst room)) ->
  Forall (fun w => Pc (w_coords w)) (walls (add_room_walls g room)).
Proof.
  destruct room as [[[[x y] w] h] lbl]. cbn [fst room_edges add_room_walls].
  intros Hws He.
  inversion He as [|? ? H1 He1]; subst.
  inversion He1 as [|? ? H2 He2]; subst.
  inversion He2 as [|? ? H3 He3]; subst.
  inversion He3 as [|? ? H4 _]; subst.
  repeat apply add_wall_Forall; assumption.
Qed.

Lemma build_walls_Forall (Pc : Z * Z * Z * Z -> Prop) rs : forall g,
  Forall (fun w => Pc (w_coords w)) (walls g) ->
  Forall (fun room => Forall Pc (room_edges (fst room))) rs ->
  Forall (fun w => Pc (w_coords w)) (walls (fold_left add_room_walls rs g)).
Proof.
  induction rs as [|room rs IH]; intros g Hws Hrs; [assumption|].
  inversion Hrs; subst. cbn [fold_left]. apply IH; [|assumption].
  apply add_room_walls_Forall; assumption.
Qed.

Lemma normalize_ok (x1 y1 x2 y2 : Z) :
  x1 = x2 \/ y1 = y2 ->
  let '(a, b, c, d) := normalize x1 y1 x2 y2 in
  (a = c \/ b = d) /\ a <= c /\ b <= d.
Proof.
  intros H. unfold normalize.
  destruct (Z.ltb_spec x2 x1); destruct (Z.ltb_spec y2 y1); cbn; lia.
Qed.

Lemma room_edges_ok (r : rect) :
  Forall (fun c => let '(x1, y1, x2, y2) := c in
                   (x1 = x2 \/ y1 = y2) /\ x1 <= x2 /\ y1 <= y2)
         (room_edges r).
Proof.
  destruct r as [[[x y] w] h]. cbn [room_edges].
  repeat constructor; apply normalize_ok; tauto.
Qed.

Lemma NoDup_snoc {A} (l : list A) (a : A) :
  NoDup l -> ~ In a l -> NoDup (l ++ [a]).
Proof.
  induction 1 as [|b l Hb Hl IH]; intros Ha; cbn.
  - constructor; [intros []|constructor].
  - constructor.
    + intros Hin. apply in_app_or in Hin. destruct Hin as [Hin|[->|[]]].
      * now apply Hb.
      * apply Ha. now left.
    + apply IH. intros Hin. apply Ha. now right.
Qed.

Lemma add_wall_ids g x1 y1 x2 y2 rcx rcy :
  ids_ok g -> ids_ok (_add_wall g x1 y1 x2 y2 rcx rcy).
Proof.
  intros [Hnd Hlt]. unfold ids_ok.
  destruct (add_wall_cases g x1 y1 x2 y2 rcx rcy)
    as [(Hu & _ & Hc)|(Hw & Hc)]; cbv zeta in *.
  - rewrite Hc. rewrite (map_unflagged_ids _ _ Hu). split; [assumption|].
    rewrite Forall_forall in *. intros w Hw.
    apply (in_map w_id) in Hw. rewrite (map_unflagged_ids _ _ Hu) in Hw.
    apply in_map_iff in Hw. destruct Hw as (w0 & <- & Hw0). now apply Hlt.
  - rewrite Hw, Hc. rewrite map_app. cbn [map w_id]. split.
    + apply NoDup_snoc; [assumption|].
      intros Hin. apply in_map_iff in Hin. destruct Hin as (w0 & E0 & Hw0).
      rewrite Forall_forall in Hlt. specialize (Hlt _ Hw0). lia.
    + apply Forall_app. split.
      * eapply Forall_impl; [|exact Hlt]. cbn. intros; lia.
      * constructor; [cbn; lia|constructor].
Qed.

Lemma randbelow_spec (n : Z) (t : rng) :
  randbelow n t = Some (hd 0 t mod n, tl t).
Proof. destruct t; reflexivity. Qed.

Lemma shuffle_from_total {A} (i : nat) : forall (x : list A) t,
  exists x' t', shuffle_from i x t = Some (x', t').
Proof.
  induction i as [|i IH]; intros x t.
  - eexists _, _. reflexivity.
  - cbn [shuffle_from]. unfold bind. rewrite randbelow_spec. apply IH.
Qed.

Lemma shuffle_total {A} (x : list A) t :
  exists x' t', shuffle x t = Some (x', t').
Proof. apply shuffle_from_total. Qed.

Lemma assign_labels_fst labels rs : forall i,
  map fst (assign_labels labels i rs) = rs.
Proof. induction rs as [|r rs IH]; intros i; cbn; [|rewrite IH]; reflexivity. Qed.

Lemma insert_desc_perm {A} (key : A -> Q) (a : A) (l : list A) :
  Permutation (insert_desc key a l) (a :: l).
Proof.
  induction l as [|b l IH]; cbn; [reflexivity|].
  destruct (Qltb (key a) (key b)); [|reflexivity].
  rewrite IH. apply perm_swap.
Qed.

Lemma sort_desc_perm {A} (key : A -> Q) (l : list A) :
  Permutation (sort_desc key l) l.
Proof.
  induction l as [|a l IH]; cbn; [reflexivity|].
  rewrite insert_desc_perm. now constructor.
Qed.

Lemma incl_skipn {A} (n : nat) (l : list A) : incl (skipn n l) l.
Proof.
  intros a Ha. rewrite <- (firstn_skipn n l). apply in_or_app. now right.
Qed.

(** The room selector returns a sub-list of (a rearrangement of) its input. *)
Lemma select_rooms_incl g raw t sel t' :
  select_rooms g raw t = Some (sel, t') -> incl sel raw.
Proof.
  unfold select_rooms. destruct (3 <? Z.of_nat (List.length raw)).
  - unfold bind.
    destruct (randint 1 _ t) as [[k t1]|]; [|discriminate].
    intros E. injection E as <- <-. intros a Ha.
    apply incl_skipn in Ha.
    eapply Permutation_in; [apply sort_desc_perm|exact Ha].
  - intros E. injection E as <- <-. apply incl_refl.
Qed.

Lemma generate_layout_spec g t g1 t1 :
  generate_layout g t = Some (g1, t1) ->
  exists raw ta sel tb labels,
    _recursive_split (150, 150, width g - 2 * 150, height g - 2 * 150)
      (complexity_depth g) t = Some (raw, ta) /\
    select_rooms g raw ta = Some (sel, tb) /\
    shuffle room_labels tb = Some (labels, t1) /\
    g1 = fold_left add_room_walls (assign_labels labels 0 sel)
           (set_rooms g (assign_labels labels 0 sel)).
Proof.
  unfold generate_layout, bind. cbv zeta. intros E.
  destruct (_recursive_split _ _ t) as [[raw ta]|] eqn:E1; [|discriminate].
  destruct (select_rooms g raw ta) as [[sel tb]|] eqn:E2; [|discriminate].
  destruct (shuffle room_labels tb) as [[labels tc]|] eqn:E3; [|discriminate].
  injection E as <- <-. exists raw, ta, sel, tb, labels.
  repeat split; assumption.
Qed.

Lemma add_room_walls_annotations g room :
  annotations (add_room_walls g room) = annotations g /\
  rooms (add_room_walls g room) = rooms g.
Proof.
  destruct room as [[[[x y] w] h] lbl]. cbn [add_room_walls].
  repeat match goal with
  | |- context [_add_wall ?g ?a ?b ?c ?d ?e ?f] =>
      let H := fresh in
      destruct (add_wall_annotations g a b c d e f) as [H ?];
      rewrite H; clear H
  end.
  split; [reflexivity|congruence].
Qed.

Lemma build_walls_annotations rs : forall g,
  annotations (fold_left add_room_walls rs g) = annotations g /\
  rooms (fold_left add_room_walls rs g) = rooms g.
Proof.
  induction rs as [|room rs IH]; intros g; [split; reflexivity|].
  cbn [fold_left]. destruct (IH (add_room_walls g room)) as [H1 H2].
  destruct (add_room_walls_annotations g room) as [H3 H4].
  split; congruence.
Qed.

Lemma add_room_walls_ids g room : ids_ok g -> ids_ok (add_room_walls g room).
Proof.
  destruct room as [[[[x y] w] h] lbl]. cbn [add_room_walls]. intros H.
  repeat apply add_wall_ids. assumption.
Qed.

Lemma build_walls_ids rs : forall g,
  ids_ok g -> ids_ok (fold_left add_room_walls rs g).
Proof.
  induction rs as [|room rs IH]; intros g H; [assumption|].
  cbn [fold_left]. apply IH. now apply add_room_walls_ids.
Qed.

(** The walls present before a call of [_add_wall] keep their place,
    identifier, endpoints and room centre. *)
Lemma add_wall_prefix g x1 y1 x2 y2 rcx rcy :
  exists extra,
    map unflagged (walls (_add_wall g x1 y1 x2 y2 rcx rcy))
    = map unflagged (walls g) ++ extra.
Proof.
  destruct (add_wall_cases g x1 y1 x2 y2 rcx rcy) as [(Hu & _)|(Hw & _)];
    cbv zeta in *.
  - exists []. now rewrite app_nil_r.
  - rewrite Hw, map_app. eexists. reflexivity.
Qed.

Lemma add_room_walls_prefix g room :
  exists extra,
    map unflagged (walls (add_room_walls g room))
    = map unflagged (walls g) ++ extra.
Proof.
  destruct room as [[[[x y] w] h] lbl]. cbn [add_room_walls].
  repeat match goal with
  | |- context [walls (_add_wall ?g ?a ?b ?c ?d ?e ?f)] =>
      let ex := fresh "ex" in let H := fresh in
      destruct (add_wall_prefix g a b c d e f) as [ex H];
      rewrite H; clear H
  end.
  rewrite <- !app_assoc. eexists. reflexivity.
Qed.

Lemma build_walls_prefix rs : forall g,
  exists extra,
    map unflagged (walls (fold_left add_room_walls rs g))
    = map unflagged (walls g) ++ extra.
Proof.
  induction rs as [|room rs IH]; intros g.
  - exists []. now rewrite app_nil_r.
  - cbn [fold_left]. destruct (IH (add_room_walls g room)) as [e1 H1].
    destruct (add_room_walls_prefix g room) as [e2 H2].
    rewrite H1, H2, <- app_assoc. eexists. reflexivity.
Qed.

(** ** Opening placer *)

(** What one iteration of [add_windows] does to the wall it visits and to
    the window list. *)
Lemma add_window_spec (w : Wall) (s : list Window * Z) t w' s' t' :
  add_window w s t = Some ((w', s'), t') ->
  (w' = w /\ s' = s) \/
  (is_shared w = false /\ has_opening w = false /\ w' = set_opening w /\
   exists win, s' = (fst s ++ [win], snd s + 1) /\
               win_wall_id win = w_id w /\ win_id win = snd s).
Proof.
  unfold add_window.
  destruct (is_shared w) eqn:Es; cbn [orb].
  { intros E. injection E as <- <- <-. now left. }
  destruct (has_opening w) eqn:Eo.
  { intros E. injection E as <- <- <-. now left. }
  unfold bind. rewrite random_spec.
  destruct (Qltb d0_4 _).
  2:{ intros E. injection E as <- <- <-. now left. }
  destruct (w_coords w) as [[[x1 y1] x2] y2].
  destruct (filter _ standard_sizes) as [|sz szs] eqn:Ef.
  { intros E. injection E as <- <- <-. now left. }
  unfold choice, bind. rewrite randbelow_spec. unfold ret.
  intros E. injection E as <- <- <-. right.
  repeat split. eexists. repeat split.
Qed.

Lemma add_windows_spec g t g' t' :
  add_windows g t = Some (g', t') ->
  map unflagged (walls g') = map unflagged (walls g) /\
  map is_shared (walls g') = map is_shared (walls g) /\
  (forall win, In win (windows g') ->
     In win (windows g) \/
     exists w, In w (walls g) /\ w_id w = win_wall_id win /\
               is_shared w = false) /\
  dimensions g' = dimensions g /\ text_bboxes g' = text_bboxes g /\
  rooms g' = rooms g /\ height g' = height g /\ width g' = width g /\
  base_offset g' = base_offset g /\ g_unit_mode g' = g_unit_mode g /\
  dim_id_counter g' = dim_id_counter g.
Proof.
  unfold add_windows, bind. intros E.
  destruct (for_each add_window (walls g) (windows g, window_id_counter g) t)
    as [[[ws' s'] t1]|] eqn:Ef; [|discriminate].
  injection E as <- <-. cbn.
  pose (I := fun s : list Window * Z =>
    forall win, In win (fst s) ->
      In win (windows g) \/
      exists w, In w (walls g) /\ w_id w = win_wall_id win /\
                is_shared w = false).
  pose (R := fun a a' : Wall =>
    unflagged a' = unflagged a /\ is_shared a' = is_shared a).
  destruct (for_each_inv add_window (fun a => In a (walls g)) R I)
    with (l := walls g) (s := (windows g, window_id_counter g)) (t := t)
         (l' := ws') (s' := s') (t' := t1) as [HR HI].
  - intros a s t0 a' s1 t0' Ha Hs Eb.
    destruct (add_window_spec _ _ _ _ _ _ Eb)
      as [[-> ->]|(Hsh & Hop & -> & win & -> & Hid & _)].
    + split; [split; reflexivity|assumption].
    + split; [split; reflexivity|].
      intros win' Hin. cbn [fst] in Hin. apply in_app_or in Hin.
      destruct Hin as [Hin|[<-|[]]]; [now apply Hs|].
      right. exists a. repeat split; [assumption|now symmetry|assumption].
  - apply Forall_forall. tauto.
  - intros win Hin. now left.
  - assumption.
  - repeat split; try reflexivity.
    + apply Forall2_map_eq. eapply Forall2_impl; [|exact HR]. now intros a b [].
    + apply Forall2_map_eq. eapply Forall2_impl; [|exact HR]. now intros a b [].
    + exact HI.
Qed.

Lemma find_index_spec {A} (f : A -> bool) (l : list A) (i : nat) :
  find_index f l = Some i ->
  exists a, nth_error l i = Some a /\ f a = true /\
            forall j b, (j < i)%nat -> nth_error l j = Some b -> f b = false.
Proof.
  revert i. induction l as [|a l IH]; intros i E; [discriminate|].
  cbn [find_index] in E. destruct (f a) eqn:Ef.
  - injection E as <-. exists a. repeat split; [assumption|]. intros; lia.
  - destruct (find_index f l) as [i'|]; [|discriminate]. injection E as <-.
    destruct (IH _ eq_refl) as (b & Hb & Hfb & Hlt). exists b.
    repeat split; try assumption.
    intros [|j] c Hj Hc; cbn in Hc.
    + now injection Hc as <-.
    + eapply Hlt; [|eassumption]. lia.
Qed.

Lemma find_index_none {A} (f : A -> bool) (l : list A) :
  find_index f l = None -> forall a, In a l -> f a = false.
Proof.
  induction l as [|a l IH]; intros E b Hb; [destruct Hb|].
  cbn [find_index] in E. destruct (f a) eqn:Ef; [discriminate|].
  destruct (find_index f l); [discriminate|].
  destruct Hb as [<-|Hb]; [assumption|now apply IH].
Qed.

(** A door only ever sets [has_opening] on one stored wall. *)
Lemma add_door_spec room ws t ws' t' :
  add_door room ws t = Some (ws', t') ->
  map unflagged ws' = map unflagged ws /\
  map is_shared ws' = map is_shared ws.
Proof.
  unfold add_door, bind. rewrite random_spec.
  destruct (Qltb d0_6 _).
  { intros E. injection E as <- <-. tauto. }
  destruct (shuffle (candidates room) (tl t)) as [[cands t1]|]; [|discriminate].
  destruct (find_target cands ws) as [[i widx]|].
  2:{ intros E. injection E as <- <-. tauto. }
  destruct (nth_error ws i) as [tw|] eqn:En.
  2:{ intros E. injection E as <- <-. tauto. }
  destruct (w_coords tw) as [[[wx1 wy1] wx2] wy2].
  destruct ((widx =? 0) || (widx =? 2));
    (match goal with
     | |- context [randint ?a ?b t1] => destruct (randint a b t1) as [[k t2]|]
     end; [|discriminate]);
    intros E; injection E as <- <-;
    (split; apply set_nth_map with (b := tw); try assumption; reflexivity).
Qed.

Lemma add_doors_loop_spec rs : forall ws t ws' t',
  add_doors_loop rs ws t = Some (ws', t') ->
  map unflagged ws' = map unflagged ws /\
  map is_shared ws' = map is_shared ws.
Proof.
  induction rs as [|room rs IH]; intros ws t ws' t' E.
  - injection E as <- <-. tauto.
  - cbn [add_doors_loop] in E. unfold bind in E.
    destruct (add_door room ws t) as [[ws1 t1]|] eqn:Ed; [|discriminate].
    destruct (add_door_spec _ _ _ _ _ Ed) as [H1 H2].
    destruct (IH _ _ _ _ E) as [H3 H4]. split; congruence.
Qed.

Lemma add_doors_spec g t g' t' :
  add_doors g t = Some (g', t') ->
  map unflagged (walls g') = map unflagged (walls g) /\
  map is_shared (walls g') = map is_shared (walls g) /\
  windows g' = windows g /\ dimensions g' = dimensions g /\
  text_bboxes g' = text_bboxes g /\ rooms g' = rooms g /\
  height g' = height g /\ width g' = width g /\
  base_offset g' = base_offset g /\ g_unit_mode g' = g_unit_mode g /\
  dim_id_counter g' = dim_id_counter g.
Proof.
  unfold add_doors, bind. intros E.
  destruct (add_doors_loop (rooms g) (walls g) t) as [[ws t1]|] eqn:El;
    [|discriminate].
  injection E as <- <-. destruct (add_doors_loop_spec _ _ _ _ _ El).
  cbn. tauto.
Qed.

(** ** Dimension annotator *)

Lemma draw_dimension_cases measure g x1 y1 x2 y2 text lk owner t g' t' :
  _draw_dimension_safe measure g x1 y1 x2 y2 text lk owner t = Some (g', t') ->
  g' = g \/
  exists d b,
    g' = push g d b /\ dim_line d = (x1, y1, x2, y2) /\ dim_val d = text /\
    dim_link d = lk /\ dim_id d = dim_id_counter g /\
    _line_crosses_walls g (x1, y1) (x2, y2) owner = false /\
    _check_collision g (sim_bbox x1 y1 x2 y2 text) = false.
Proof.
  unfold _draw_dimension_safe.
  destruct (_line_crosses_walls g (x1, y1) (x2, y2) owner) eqn:Ec.
  { intros E. injection E as <- <-. now left. }
  destruct (_check_collision g (sim_bbox x1 y1 x2 y2 text)) eqn:Eo.
  { intros E. injection E as <- <-. now left. }
  unfold bind, choose_pos_mode, bind. rewrite random_spec. unfold ret.
  destruct (if Qltb _ d0_4 then inline else _) as [| |];
    cbv beta iota;
    match goal with
    | |- context [measure ?a ?b ?c ?d] =>
        destruct (measure a b c d) as [[[bx0 by0] bx1] by1]
    end;
    intros E; injection E as <- <-; right;
    (eexists _, _; split; [reflexivity|]; cbn; tauto).
Qed.

Lemma links_to_push g d b w lk : links_to g w lk -> links_to (push g d b) w lk.
Proof. exact (fun H => H). Qed.

Lemma annot_steps_trans g1 g2 g3 :
  annot_steps g1 g2 -> annot_steps g2 g3 -> annot_steps g1 g3.
Proof.
  intros H12 H23. induction H23; [assumption|].
  eapply steps_snoc; [|eassumption]. now apply IHannot_steps.
Qed.

Lemma annot_steps_frame g g' :
  annot_steps g g' ->
  walls g' = walls g /\ windows g' = windows g /\ rooms g' = rooms g /\
  height g' = height g /\ width g' = width g.
Proof.
  induction 1 as [|g g1 g2 _ IH Hs]; [tauto|].
  destruct Hs. cbn. exact IH.
Qed.

Lemma draw_dimension_steps measure g w x1 y1 x2 y2 text lk t g' t' :
  In w (walls g) -> is_shared w = false -> links_to g w lk ->
  _draw_dimension_safe measure g x1 y1 x2 y2 text lk (w_id w) t
    = Some (g', t') ->
  annot_steps g g'.
Proof.
  intros Hin Hsh Hlk E.
  destruct (draw_dimension_cases _ _ _ _ _ _ _ _ _ _ _ _ E)
    as [->|(d & b & -> & Hl & Hv & Hk & _ & Hc & Ho)]; [constructor|].
  eapply steps_snoc; [constructor|].
  apply step_commit with (w := w); [assumption|].
  unfold committed_for, line_box. rewrite Hl, Hv, Hk. tauto.
Qed.

Lemma draw_segments_steps measure w dx dy segs : forall g t g' t',
  In w (walls g) -> is_shared w = false ->
  Forall (fun seg : segment => links_to g w (snd seg)) segs ->
  draw_segments measure g dx dy (w_id w) segs t = Some (g', t') ->
  annot_steps g g'.
Proof.
  induction segs as [|[[[[sx1 sy1] sx2] sy2] lk] segs IH];
    intros g t g' t' Hin Hsh Hl E.
  - injection E as <- <-. constructor.
  - inversion Hl as [|? ? Hlk Hl']; subst. cbn [snd] in Hlk.
    cbn [draw_segments] in E.
    destruct (Qltb (hypot (sx2 - sx1) (sy2 - sy1)) 5).
    + eapply IH; eassumption.
    + unfold bind in E.
      destruct (_draw_dimension_safe _ _ _ _ _ _ _ _ _ t) as [[g1 t1]|] eqn:Ed;
        [|discriminate].
      pose proof (draw_dimension_steps _ _ _ _ _ _ _ _ _ _ _ _ Hin Hsh Hlk Ed)
        as H1.
      destruct (annot_steps_frame _ _ H1) as (Hw & Hwin & _).
      eapply annot_steps_trans; [exact H1|].
      eapply IH; [| |  |exact E].
      * now rewrite Hw.
      * assumption.
      * eapply Forall_impl; [|exact Hl']. intros seg.
        unfold links_to. now rewrite Hwin.
Qed.

Lemma dimension_wall_steps measure strat g w t g' t' :
  In w (walls g) ->
  dimension_wall measure strat g w t = Some (g', t') ->
  annot_steps g g'.
Proof.
  intros Hin. unfold dimension_wall.
  destruct (is_shared w) eqn:Hsh.
  { intros E. injection E as <- <-. constructor. }
  unfold bind at 1. rewrite random_spec.
  destruct (Qltb d0_7 _).
  { intros E. injection E as <- <-. constructor. }
  match goal with
  | |- bind ?m ?k _ = _ -> _ => set (M := m); set (K := k)
  end.
  unfold bind at 1.
  destruct (M (tl t)) as [[wall_strat t1]|]; [|discriminate].
  subst K; cbv beta. clear M.
  destruct (w_coords w) as [[[wx1 wy1] wx2] wy2].
  unfold bind at 1.
  destruct (randint (-5) 5 t1) as [[j t2]|]; [|discriminate].
  destruct (room_center w) as [rcx rcy].
  destruct (if Z.abs (wy1 - wy2) <? 5 then _ else _) as [base_dx base_dy].
  destruct (find _ (windows g)) as [win|] eqn:Ef.
  - apply find_some in Ef. destruct Ef as [Hwin Hid].
    apply Z.eqb_eq in Hid.
    assert (Hlw : links_to g w (wall_link (w_id w))) by now left.
    assert (Hlv : links_to g w (window_link (win_id win))).
    { right. exists win. tauto. }
    destruct wall_strat.
    + destruct (win_coords win) as [[[win_x1 win_y1] win_x2] win_y2].
      destruct (Z.abs (wy1 - wy2) <? 5).
      * destruct (sorted4 wx1 wx2 win_x1 win_x2) as [[[p0 p1] p2] p3].
        apply draw_segments_steps; try assumption.
        repeat (apply Forall_cons; [cbn [snd]; assumption|]). apply Forall_nil.
      * destruct (sorted4 wy1 wy2 win_y1 win_y2) as [[[p0 p1] p2] p3].
        apply draw_segments_steps; try assumption.
        repeat (apply Forall_cons; [cbn [snd]; assumption|]). apply Forall_nil.
    + apply draw_dimension_steps; assumption.
    + apply draw_dimension_steps; assumption.
  - apply draw_dimension_steps; try assumption. now left.
Qed.

Lemma dimension_walls_steps measure strat ws : forall g t g' t',
  incl ws (walls g) ->
  dimension_walls measure strat g ws t = Some (g', t') ->
  annot_steps g g'.
Proof.
  induction ws as [|w ws IH]; intros g t g' t' Hin E.
  - injection E as <- <-. constructor.
  - cbn [dimension_walls] in E. unfold bind in E.
    destruct (dimension_wall measure strat g w t) as [[g1 t1]|] eqn:Ew;
      [|discriminate].
    assert (H1 : annot_steps g g1).
    { eapply dimension_wall_steps; [|exact Ew]. apply Hin. now left. }
    eapply annot_steps_trans; [exact H1|].
    eapply IH; [|exact E].
    destruct (annot_steps_frame _ _ H1) as (-> & _).
    intros a Ha. apply Hin. now right.
Qed.

(** A run of the annotator is a sequence of commits. *)
Lemma add_smart_dimensions_steps measure g t g' t' :
  add_smart_dimensions measure g t = Some (g', t') -> annot_steps g g'.
Proof.
  unfold add_smart_dimensions, bind.
  destruct (choice [detailed; simple; mixed] t) as [[strat t1]|];
    [|discriminate].
  apply dimension_walls_steps. apply incl_refl.
Qed.

Lemma generate_stages measure g t g' t' :
  generate measure g t = Some (g', t') ->
  exists g1 t1 g2 t2 g3 t3,
    generate_layout g t = Some (g1, t1) /\
    add_windows g1 t1 = Some (g2, t2) /\
    add_doors g2 t2 = Some (g3, t3) /\
    add_smart_dimensions measure g3 t3 = Some (g', t').
Proof.
  unfold generate, bind. intros E.
  destruct (generate_layout g t) as [[g1 t1]|]; [|discriminate].
  destruct (add_windows g1 t1) as [[g2 t2]|] eqn:E2; [|discriminate].
  destruct (add_doors g2 t2) as [[g3 t3]|] eqn:E3; [|discriminate].
  exists g1, t1, g2, t2, g3, t3. tauto.
Qed.

Lemma horizontal_wall_geometric (c : Z * Z * Z * Z) :
  tall_or_flat c ->
  (horizontal_wall c <-> let '(_, y1, _, y2) := c in y1 = y2).
Proof.
  destruct c as [[[x1 y1] x2] y2]. unfold tall_or_flat, horizontal_wall. lia.
Qed.

Lemma crosses_sound (x1 y1 x2 y2 owner : Z) (w : Wall) :
  w_id w <> owner ->
  crosses x1 y1 x2 y2 owner w = false ->
  ~ perp_crosses (x1, y1, x2, y2) (w_coords w).
Proof.
  unfold crosses, perp_crosses, horizontal_wall.
  destruct (w_coords w) as [[[wx1 wy1] wx2] wy2]. intros Hid.
  destruct (Z.eqb_spec (w_id w) owner) as [|_]; [contradiction|].
  destruct (Z.ltb_spec (Z.max wx1 wx2) (Z.min x1 x2));
    destruct (Z.ltb_spec (Z.max x1 x2) (Z.min wx1 wx2)); cbn [orb];
    try (intros _; lia).
  destruct (Z.ltb_spec (Z.max wy1 wy2) (Z.min y1 y2));
    destruct (Z.ltb_spec (Z.max y1 y2) (Z.min wy1 wy2)); cbn [orb];
    try (intros _; lia).
  destruct (Z.ltb_spec (Z.abs (y1 - y2)) 1);
    destruct (Z.ltb_spec (Z.abs (wy1 - wy2)) 5); cbn [andb negb];
    try (intros _; lia).
  - rewrite !andb_false_iff, !Z.ltb_ge. lia.
  - rewrite !andb_false_iff, !Z.ltb_ge. lia.
Qed.

Lemma line_crosses_none g x1 y1 x2 y2 owner :
  _line_crosses_walls g (x1, y1) (x2, y2) owner = false ->
  forall w, In w (walls g) -> crosses x1 y1 x2 y2 owner w = false.
Proof.
  unfold _line_crosses_walls. cbn [fst snd]. intros H w Hw.
  destruct (crosses x1 y1 x2 y2 owner w) eqn:E; [|reflexivity].
  assert (existsb (crosses x1 y1 x2 y2 owner) (walls g) = true)
    by (apply existsb_exists; now exists w).
  congruence.
Qed.

Lemma clear_of_walls_ext g g' d :
  walls g' = walls g -> windows g' = windows g ->
  clear_of_walls g d -> clear_of_walls g' d.
Proof.
  intros Hw Hwin (o & Ho & Hl & Hc). exists o.
  unfold links_to in *. rewrite Hw, Hwin. tauto.
Qed.

(** Every commit keeps the dimension lines clear of the other walls. *)
Lemma annot_steps_clear g g' :
  annot_steps g g' ->
  Forall (clear_of_walls g) (dimensions g) ->
  Forall (clear_of_walls g') (dimensions g').
Proof.
  intros Hs H0. induction Hs as [g|g g1 g2 Hs IH Hstep].
  - assumption.
  - specialize (IH H0).
    destruct (annot_steps_frame _ _ Hs) as (Hw & Hwin & _).
    destruct Hstep as [g1 w d b Hin (Hsh & Hlk & Hcr & _)].
    cbn [push dimensions]. apply Forall_app. split.
    + eapply Forall_impl; [|exact IH]. intros d'.
      now apply clear_of_walls_ext.
    + constructor; [|constructor].
      apply clear_of_walls_ext with (g := g1); try reflexivity.
      exists w. repeat split; try assumption.
      intros w' Hw' Hid.
      destruct (dim_line d) as [[[x1 y1] x2] y2].
      apply crosses_sound with (owner := w_id w); try assumption.
      eapply line_crosses_none; eassumption.
Qed.

(** Every commit is for a wall that is not shared. *)
Lemma annot_steps_unshared g g' :
  annot_steps g g' ->
  Forall (fun d => exists o, In o (walls g) /\ is_shared o = false /\
                             links_to g o (dim_link d)) (dimensions g) ->
  Forall (fun d => exists o, In o (walls g) /\ is_shared o = false /\
                             links_to g o (dim_link d)) (dimensions g').
Proof.
  intros Hs H0. induction Hs as [g|g g1 g2 Hs IH Hstep]; [assumption|].
  specialize (IH H0).
  destruct (annot_steps_frame _ _ Hs) as (Hw & Hwin & _).
  destruct Hstep as [g1 w d b Hin (Hsh & Hlk & _)].
  cbn [push dimensions]. apply Forall_app. split; [assumption|].
  constructor; [|constructor]. exists w.
  unfold links_to in *. rewrite <- Hw, <- Hwin. tauto.
Qed.

(** Every commit keeps the registry checked. *)
Lemma annot_steps_registry g g' :
  annot_steps g g' ->
  registry_ok (dimensions g) (text_bboxes g) ->
  registry_ok (dimensions g') (text_bboxes g').
Proof.
  intros Hs H0. induction Hs as [g|g g1 g2 Hs IH Hstep]; [assumption|].
  specialize (IH H0).
  destruct Hstep as [g1 w d b Hin (_ & _ & _ & Hcol)].
  cbn [push dimensions text_bboxes]. constructor; [assumption|].
  intros e He. unfold _check_collision in Hcol.
  destruct (overlaps (inflate (line_box d)) e) eqn:E; [|reflexivity].
  assert (existsb (overlaps (inflate (line_box d))) (text_bboxes g1) = true)
    by (apply existsb_exists; now exists e).
  congruence.
Qed.

Lemma registry_ok_length ds bs :
  registry_ok ds bs -> List.length ds = List.length bs.
Proof. induction 1; [reflexivity|]. rewrite !length_app. cbn. lia. Qed.

(** In a checked registry, a record's inflated estimate is clear of the
    rendered box of every record committed before it. *)
Lemma registry_ok_pairs ds bs :
  registry_ok ds bs ->
  forall i j dj bi, (i < j)%nat ->
    nth_error ds j = Some dj -> nth_error bs i = Some bi ->
    overlaps (inflate (line_box dj)) bi = false.
Proof.
  induction 1 as [|ds bs d b Hok IH Hd]; intros i j dj bi Hij Hj Hi.
  - destruct j; discriminate.
  - pose proof (registry_ok_length _ _ Hok) as Hlen.
    assert (Hjl : (j < List.length (ds ++ [d]))%nat)
      by (apply nth_error_Some; congruence).
    rewrite length_app in Hjl. cbn in Hjl.
    assert (Hi' : nth_error bs i = Some bi).
    { rewrite nth_error_app1 in Hi by lia. assumption. }
    destruct (Nat.eq_dec j (List.length ds)) as [->|Hne].
    + rewrite nth_error_app2 in Hj by lia. rewrite Nat.sub_diag in Hj.
      injection Hj as <-. apply Hd. exact (nth_error_In _ _ Hi').
    + rewrite nth_error_app1 in Hj by lia. apply (IH i j); assumption.
Qed.

Lemma pairs_agree {A B} (l : list (A * B)) (a : A) (b b' : B) :
  NoDup (map fst l) -> In (a, b) l -> In (a, b') l -> b = b'.
Proof.
  induction l as [|[a0 b0] l IH]; intros Hnd H1 H2; [destruct H1|].
  cbn in Hnd. inversion Hnd as [|? ? Hni Hnd']; subst.
  destruct H1 as [E1|H1], H2 as [E2|H2].
  - congruence.
  - injection E1 as -> ->. exfalso. apply Hni.
    apply (in_map fst) in H2. exact H2.
  - injection E2 as -> ->. exfalso. apply Hni.
    apply (in_map fst) in H1. exact H1.
  - now apply IH.
Qed.

(** With distinct identifiers, two stored walls with the same identifier
    carry the same [is_shared] flag. *)
Lemma same_id_same_flag (ws : list Wall) (w w' : Wall) :
  NoDup (map w_id ws) -> In w ws -> In w' ws -> w_id w = w_id w' ->
  is_shared w = is_shared w'.
Proof.
  intros Hnd Hw Hw' Hid.
  apply (pairs_agree (map (fun w => (w_id w, is_shared w)) ws) (w_id w)).
  - now rewrite map_map.
  - apply in_map_iff. now exists w.
  - apply in_map_iff. exists w'. split; [now rewrite Hid|assumption].
Qed.

(** Walls that agree on identifiers and [is_shared] flags, position by
    position: a wall of one list has a twin in the other. *)
Lemma twin_wall (ws ws' : list Wall) (w : Wall) :
  map unflagged ws' = map unflagged ws ->
  map is_shared ws' = map is_shared ws ->
  In w ws' ->
  exists w0, In w0 ws /\ unflagged w0 = unflagged w /\
             is_shared w0 = is_shared w.
Proof.
  revert ws'. induction ws as [|a ws IH]; intros [|a' ws'] Hu Hs Hin;
    try discriminate; [destruct Hin|].
  cbn [map] in Hu, Hs.
  pose proof (f_equal (hd (unflagged a)) Hu) as Hu1.
  pose proof (f_equal (@tl _) Hu) as Hu2.
  pose proof (f_equal (hd true) Hs) as Hs1.
  pose proof (f_equal (@tl _) Hs) as Hs2.
  cbn [hd tl] in Hu1, Hu2, Hs1, Hs2.
  destruct Hin as [<-|Hin].
  - exists a. repeat split; [now left|congruence|congruence].
  - destruct (IH ws' Hu2 Hs2 Hin) as (w0 & H0 & H1 & H2).
    exists w0. repeat split; [now right|assumption|assumption].
Qed.

(** ** The whole run *)

Lemma layout_annotations g t g1 t1 :
  generate_layout g t = Some (g1, t1) -> annotations g1 = annotations g.
Proof.
  intros E. destruct (generate_layout_spec _ _ _ _ E)
    as (raw & ta & sel & tb & labels & _ & _ & _ & ->).
  now destruct (build_walls_annotations (assign_labels labels 0 sel)
                  (set_rooms g (assign_labels labels 0 sel))).
Qed.

Lemma layout_ids g t g1 t1 :
  generate_layout g t = Some (g1, t1) -> ids_ok g -> ids_ok g1.
Proof.
  intros E H. destruct (generate_layout_spec _ _ _ _ E)
    as (raw & ta & sel & tb & labels & _ & _ & _ & ->).
  now apply build_walls_ids.
Qed.

Lemma layout_prefix g t g1 t1 :
  generate_layout g t = Some (g1, t1) ->
  exists extra, map unflagged (walls g1) = map unflagged (walls g) ++ extra.
Proof.
  intros E. destruct (generate_layout_spec _ _ _ _ E)
    as (raw & ta & sel & tb & labels & _ & _ & _ & ->).
  apply (build_walls_prefix _ (set_rooms g (assign_labels labels 0 sel))).
Qed.

(** A property of wall endpoints that holds of the stored walls and of the
    edges of every partition leaf holds of the walls after the layout. *)
Lemma layout_walls_Forall (Pc : Z * Z * Z * Z -> Prop) g t g1 t1 :
  generate_layout g t = Some (g1, t1) ->
  Forall (fun w => Pc (w_coords w)) (walls g) ->
  (forall raw ta,
     _recursive_split (150, 150, width g - 2 * 150, height g - 2 * 150)
       (complexity_depth g) t = Some (raw, ta) ->
     Forall (fun r => Forall Pc (room_edges r)) raw) ->
  Forall (fun w => Pc (w_coords w)) (walls g1).
Proof.
  intros E Hws Hraw. destruct (generate_layout_spec _ _ _ _ E)
    as (raw & ta & sel & tb & labels & E1 & E2 & _ & ->).
  apply build_walls_Forall; [exact Hws|].
  apply Forall_forall. intros room Hroom.
  specialize (Hraw _ _ E1). rewrite Forall_forall in Hraw. apply Hraw.
  apply (select_rooms_incl _ _ _ _ _ E2).
  rewrite <- (assign_labels_fst labels sel 0). now apply in_map.
Qed.

Lemma Forall_coords_transfer (Pc : Z * Z * Z * Z -> Prop) (ws ws' : list Wall) :
  map unflagged ws' = map unflagged ws ->
  Forall (fun w => Pc (w_coords w)) ws ->
  Forall (fun w => Pc (w_coords w)) ws'.
Proof.
  intros Hu H. apply Forall_coords. rewrite (map_unflagged_coords _ _ Hu).
  now apply Forall_coords.
Qed.

(** C10.  Started with walls that are axis-aligned with ordered endpoints
    (none, after [__init__]), a run of the generator stores only such walls,
    and every step leaves the identifier, endpoints and room centre of each
    stored wall as they are: [_add_wall] (deduplication included) only
    appends or sets [is_shared]; the window and door placers change
    [has_opening] only; the annotator changes no wall. *)
Theorem walls_axis_aligned_and_fixed measure g t g' t' :
  Forall wall_ok (walls g) ->
  generate measure g t = Some (g', t') ->
  (forall g0 x1 y1 x2 y2 rcx rcy, exists extra,
      map unflagged (walls (_add_wall g0 x1 y1 x2 y2 rcx rcy))
      = map unflagged (walls g0) ++ extra) /\
  exists g1 t1 g2 t2 g3 t3,
    generate_layout g t = Some (g1, t1) /\
    add_windows g1 t1 = Some (g2, t2) /\
    add_doors g2 t2 = Some (g3, t3) /\
    add_smart_dimensions measure g3 t3 = Some (g', t') /\
    Forall wall_ok (walls g1) /\
    (exists extra, map unflagged (walls g1) = map unflagged (walls g) ++ extra) /\
    (map unflagged (walls g2) = map unflagged (walls g1) /\
     map is_shared (walls g2) = map is_shared (walls g1)) /\
    (map unflagged (walls g3) = map unflagged (walls g2) /\
     map is_shared (walls g3) = map is_shared (walls g2)) /\
    walls g' = walls g3 /\
    Forall wall_ok (walls g').
Proof.
  intros Hok E. split; [intros; apply add_wall_prefix|].
  destruct (generate_stages _ _ _ _ _ E)
    as (g1 & t1 & g2 & t2 & g3 & t3 & E1 & E2 & E3 & E4).
  exists g1, t1, g2, t2, g3, t3.
  destruct (add_windows_spec _ _ _ _ E2) as (U2 & S2 & _).
  destruct (add_doors_spec _ _ _ _ E3) as (U3 & S3 & _).
  destruct (annot_steps_frame _ _ (add_smart_dimensions_steps _ _ _ _ _ E4))
    as (W4 & _).
  assert (H1 : Forall wall_ok (walls g1)).
  { apply (layout_walls_Forall
             (fun c => let '(x1, y1, x2, y2) := c in
                       (x1 = x2 \/ y1 = y2) /\ x1 <= x2 /\ y1 <= y2)
             _ _ _ _ E1); [exact Hok|].
    intros raw ta _. apply Forall_forall. intros r _. apply room_edges_ok. }
  repeat split; try assumption.
  - eapply layout_prefix; eassumption.
  - rewrite W4.
    apply (Forall_coords_transfer
             (fun c => let '(x1, y1, x2, y2) := c in
                       (x1 = x2 \/ y1 = y2) /\ x1 <= x2 /\ y1 <= y2)
             (walls g2)); [assumption|].
    apply (Forall_coords_transfer
             (fun c => let '(x1, y1, x2, y2) := c in
                       (x1 = x2 \/ y1 = y2) /\ x1 <= x2 /\ y1 <= y2)
             (walls g1)); assumption.
Qed.

Lemma annotations_eq g g' :
  annotations g' = annotations g ->
  windows g' = windows g /\ dimensions g' = dimensions g /\
  text_bboxes g' = text_bboxes g /\ height g' = height g /\
  width g' = width g.
Proof. unfold annotations. intros H. injection H. intros. tauto. Qed.

(** The state in which the annotator starts, in a run from [init]. *)
Lemma before_annotation W H b um depth t g1 t1 g2 t2 g3 t3 :
  generate_layout (init W H b um depth) t = Some (g1, t1) ->
  add_windows g1 t1 = Some (g2, t2) ->
  add_doors g2 t2 = Some (g3, t3) ->
  ids_ok g1 /\
  map unflagged (walls g3) = map unflagged (walls g1) /\
  map is_shared (walls g3) = map is_shared (walls g1) /\
  (forall win, In win (windows g3) ->
     exists w, In w (walls g1) /\ w_id w = win_wall_id win /\
               is_shared w = false) /\
  dimensions g3 = [] /\ text_bboxes g3 = [].
Proof.
  intros E1 E2 E3.
  destruct (annotations_eq _ _ (layout_annotations _ _ _ _ E1))
    as (Hw1 & Hd1 & Hb1 & _).
  destruct (add_windows_spec _ _ _ _ E2)
    as (U2 & S2 & Hwin & Hd2 & Hb2 & _).
  destruct (add_doors_spec _ _ _ _ E3) as (U3 & S3 & Hw3 & Hd3 & Hb3 & _).
  repeat split.
  - apply (layout_ids _ _ _ _ E1). repeat constructor.
  - apply (layout_ids _ _ _ _ E1). repeat constructor.
  - congruence.
  - congruence.
  - intros win Hin. rewrite Hw3 in Hin.
    destruct (Hwin _ Hin) as [Hin0|H0]; [|exact H0].
    rewrite Hw1 in Hin0. destruct Hin0.
  - rewrite Hd3, Hd2, Hd1. reflexivity.
  - rewrite Hb3, Hb2, Hb1. reflexivity.
Qed.

(** C1, amended.  In the output of a run, a wall flagged [is_shared] hosts
    no window and no dimension record refers to it, neither directly nor
    through a window on it.  (Doors are a different matter: the door placer
    does not look at [is_shared].) *)
Theorem shared_walls_stay_bare measure W H b um depth t g' t' :
  generate measure (init W H b um depth) t = Some (g', t') ->
  forall w, In w (walls g') -> is_shared w = true ->
    (forall win, In win (windows g') -> win_wall_id win <> w_id w) /\
    (forall d, In d (dimensions g') -> ~ links_to g' w (dim_link d)).
Proof.
  intros E w Hw Hsh.
  destruct (generate_stages _ _ _ _ _ E)
    as (g1 & t1 & g2 & t2 & g3 & t3 & E1 & E2 & E3 & E4).
  destruct (before_annotation _ _ _ _ _ _ _ _ _ _ _ _ E1 E2 E3)
    as ([Hnd _] & U3 & S3 & Hwin & Hd3 & _).
  pose proof (add_smart_dimensions_steps _ _ _ _ _ E4) as Hsteps.
  destruct (annot_steps_frame _ _ Hsteps) as (W4 & Win4 & _).
  rewrite W4 in Hw.
  destruct (twin_wall _ _ _ U3 S3 Hw) as (w1 & Hw1 & Hu1 & Hs1).
  assert (Hid1 : w_id w1 = w_id w) by (apply (f_equal (fun p => fst (fst p))) in Hu1; exact Hu1).
  assert (Hbare : forall win, In win (windows g3) -> win_wall_id win <> w_id w).
  { intros win Hin Hid. destruct (Hwin _ Hin) as (w0 & Hw0 & Hid0 & Hs0).
    assert (is_shared w0 = is_shared w1).
    { apply (same_id_same_flag (walls g1)); try assumption. congruence. }
    congruence. }
  split.
  - intros win Hin. rewrite Win4 in Hin. now apply Hbare.
  - intros d Hd Hlk.
    assert (H0 : Forall (fun d => exists o, In o (walls g3) /\
                   is_shared o = false /\ links_to g3 o (dim_link d))
                 (dimensions g3)) by (rewrite Hd3; constructor).
    pose proof (annot_steps_unshared _ _ Hsteps H0) as Hall.
    rewrite Forall_forall in Hall.
    destruct (Hall _ Hd) as (o & Ho & Hso & Hlo).
    unfold links_to in Hlk, Hlo. rewrite Win4 in Hlk.
    destruct Hlk as [Hlk|(win & Hin & Hwid & _)].
    2:{ exact (Hbare _ Hin Hwid). }
    destruct Hlo as [Hlo|(win & _ & _ & Hlo)]; [|congruence].
    assert (is_shared o = is_shared w).
    { apply (same_id_same_flag (walls g3)); try assumption.
      - rewrite (map_unflagged_ids _ _ U3). assumption.
      - congruence. }
    congruence.
Qed.

Lemma room_edges_tall (r : rect) :
  5 <= rect_h r -> Forall tall_or_flat (room_edges r).
Proof.
  destruct r as [[[x y] w] h]. cbn [rect_h room_edges]. intros Hh.
  unfold normalize.
  repeat constructor;
    repeat match goal with
    | |- context [?a <? ?b] => destruct (Z.ltb_spec a b)
    end; cbn; lia.
Qed.

(** C8.  In the output of a run, every committed dimension record has an
    owning wall among the walls (the wall it is linked to, or the host of
    the window it is linked to), and its dimension line crosses, by the
    perpendicular-intersection rule, no wall with another identifier.  The
    rule takes a wall for horizontal as the program does ([horizontal_wall]);
    when the plan's bounding rectangle is at least 5 units high (and its
    sides are exact as floats) every wall is horizontal or at least 5 units
    tall, so that this is the geometric notion. *)
Theorem dimension_lines_cross_no_wall measure W H b um depth t g' t' :
  generate measure (init W H b um depth) t = Some (g', t') ->
  Forall (clear_of_walls g') (dimensions g') /\
  (W - 300 < 2 ^ 53 -> 5 <= H - 300 < 2 ^ 53 ->
   Forall (fun w => tall_or_flat (w_coords w)) (walls g')).
Proof.
  intros E.
  destruct (generate_stages _ _ _ _ _ E)
    as (g1 & t1 & g2 & t2 & g3 & t3 & E1 & E2 & E3 & E4).
  destruct (before_annotation _ _ _ _ _ _ _ _ _ _ _ _ E1 E2 E3)
    as (_ & U3 & _ & _ & Hd3 & _).
  pose proof (add_smart_dimensions_steps _ _ _ _ _ E4) as Hsteps.
  split.
  - apply annot_steps_clear with (g := g3); [assumption|].
    rewrite Hd3. constructor.
  - intros HW HH.
    assert (H1 : Forall (fun w => tall_or_flat (w_coords w)) (walls g1)).
    { apply (layout_walls_Forall tall_or_flat _ _ _ _ E1); [constructor|].
      cbn [width height complexity_depth init]. intros raw ta Eraw.
      destruct (split_leaves_ok (150, 150, W - 2 * 150, H - 2 * 150) depth t)
        as (l & tl' & _ & Es & Hl); cbn [rect_w rect_h]; try lia.
      rewrite Es in Eraw. injection Eraw as <- <-.
      apply Forall_map. eapply Forall_impl; [|exact Hl].
      intros [lf d] [_ Hsz]. cbn [fst]. apply room_edges_tall.
      destruct Hsz as [->|[_ Hh]]; cbn [rect_h]; lia. }
    destruct (annot_steps_frame _ _ Hsteps) as (-> & _).
    apply (Forall_coords_transfer tall_or_flat (walls g1)); assumption.
Qed.

(** C6, amended.  In the output of a run, the records and the registered
    boxes correspond one to one, and for any two committed records the
    later one's estimated label box (8 units per character by 10 units,
    centred on the middle of its dimension line), inflated by 2 units on
    each side, does not overlap the rendered box registered for the earlier
    one; a candidate whose inflated estimate overlaps a registered box is
    dropped without a record.  Nothing is promised about two rendered
    boxes. *)
Theorem labels_checked_against_registry measure W H b um depth t g' t' :
  generate measure (init W H b um depth) t = Some (g', t') ->
  List.length (dimensions g') = List.length (text_bboxes g') /\
  (forall i j dj bi, (i < j)%nat ->
     nth_error (dimensions g') j = Some dj ->
     nth_error (text_bboxes g') i = Some bi ->
     overlaps (inflate (line_box dj)) bi = false) /\
  (forall g x1 y1 x2 y2 text lk owner t0,
     _check_collision g (sim_bbox x1 y1 x2 y2 text) = true ->
     _draw_dimension_safe measure g x1 y1 x2 y2 text lk owner t0
     = Some (g, t0)).
Proof.
  intros E.
  destruct (generate_stages _ _ _ _ _ E)
    as (g1 & t1 & g2 & t2 & g3 & t3 & E1 & E2 & E3 & E4).
  destruct (before_annotation _ _ _ _ _ _ _ _ _ _ _ _ E1 E2 E3)
    as (_ & _ & _ & _ & Hd3 & Hb3).
  assert (Hok : registry_ok (dimensions g') (text_bboxes g')).
  { apply annot_steps_registry with (g := g3).
    - eapply add_smart_dimensions_steps; eassumption.
    - rewrite Hd3, Hb3. constructor. }
  split; [now apply registry_ok_length|].
  split; [now apply registry_ok_pairs|].
  intros g x1 y1 x2 y2 text lk owner t0 Hc. unfold _draw_dimension_safe.
  rewrite Hc. now destruct (_line_crosses_walls g (x1, y1) (x2, y2) owner).
Qed.

(** ** Room selector *)

Lemma Qltb_true (a b : Q) : Qltb a b = true <-> (a < b)%Q.
Proof.
  unfold Qltb. rewrite negb_true_iff. split.
  - intros H. apply Qnot_le_lt. intros Hle.
    apply Qle_bool_iff in Hle. congruence.
  - intros H. destruct (Qle_bool b a) eqn:E; [|reflexivity].
    apply Qle_bool_iff in E. exfalso. exact (Qlt_not_le _ _ H E).
Qed.

Lemma Qltb_false (a b : Q) : Qltb a b = false <-> (b <= a)%Q.
Proof.
  unfold Qltb. rewrite negb_false_iff. apply Qle_bool_iff.
Qed.



Lemma int_times_04_small :
  forallb (fun i => int_times (Z.of_nat i) d0_4 =? 4 * Z.of_nat i / 10)
          (seq 0 4097) = true.
Proof. vm_compute. reflexivity. Qed.




(** ** Door placer *)

Lemma set_nth_perm {A} (a a' : A) : forall (l : list A) (i : nat),
  nth_error l i = Some a -> Permutation (a' :: l) (a :: set_nth i a' l).
Proof.
  induction l as [|b l IH]; intros [|i] H; cbn in H; try discriminate.
  - injection H as ->. cbn. apply perm_swap.
  - cbn. rewrite perm_swap. rewrite (IH _ H). apply perm_swap.
Qed.

Lemma nth_error_set_nth {A} (b : A) : forall (l : list A) (i j : nat) (c : A),
  nth_error l i <> None -> nth_error l j = Some c ->
  nth_error (set_nth i b l) j = Some (if Nat.eqb j i then b else c).
Proof.
  induction l as [|a l IH]; intros [|i] [|j] c Hi Hj; cbn in *;
    try discriminate; try congruence.
  now apply IH.
Qed.

Lemma swap_perm {A} (i j : nat) (l : list A) : Permutation (swap i j l) l.
Proof.
  unfold swap.
  destruct (nth_error l i) as [a|] eqn:Ei; [|reflexivity].
  destruct (nth_error l j) as [b|] eqn:Ej; [|reflexivity].
  apply Permutation_cons_inv with (a := b).
  rewrite (set_nth_perm a b l i Ei).
  assert (Hj : nth_error (set_nth i b l) j = Some b).
  { rewrite (nth_error_set_nth b l i j b); [|congruence|assumption].
    now destruct (Nat.eqb j i). }
  rewrite (set_nth_perm b a _ j Hj). reflexivity.
Qed.

Lemma shuffle_from_perm {A} (i : nat) : forall (x x' : list A) t t',
  shuffle_from i x t = Some (x', t') -> Permutation x' x.
Proof.
  induction i as [|i IH]; intros x x' t t' E.
  - injection E as <- <-. reflexivity.
  - cbn [shuffle_from] in E. unfold bind in E. rewrite randbelow_spec in E.
    rewrite (IH _ _ _ _ E). apply swap_perm.
Qed.

Lemma shuffle_perm {A} (x x' : list A) t t' :
  shuffle x t = Some (x', t') -> Permutation x' x.
Proof. apply shuffle_from_perm. Qed.

(** The candidate search finds the first candidate, in the order given,
    whose midpoint lies on a stored wall without opening, and for it the
    first such wall. *)
Lemma find_target_some (cands : list candidate) (ws : list Wall) i widx :
  find_target cands ws = Some (i, widx) ->
  exists before c after w,
    cands = before ++ c :: after /\ snd c = widx /\
    Forall (no_host ws) before /\
    nth_error ws i = Some w /\
    door_host (fst (midpoint c)) (snd (midpoint c)) w = true /\
    forall j b, (j < i)%nat -> nth_error ws j = Some b ->
                door_host (fst (midpoint c)) (snd (midpoint c)) b = false.
Proof.
  induction cands as [|[[wx wy] k] cands IH]; intros E; [discriminate|].
  cbn [find_target] in E.
  destruct (find_index _ ws) as [i0|] eqn:Ef.
  - injection E as <- <-.
    destruct (find_index_spec _ _ _ Ef) as (w & Hw & Hh & Hfirst).
    exists [], (wx, wy, k), cands, w. cbn [midpoint fst snd].
    repeat split; try assumption. constructor.
  - destruct (IH E) as (before & c & after & w & -> & Hk & Hb & Hw & Hh & Hf).
    exists ((wx, wy, k) :: before), c, after, w.
    repeat split; try assumption.
    constructor; [|assumption].
    intros w0 Hw0. cbn [midpoint fst snd].
    eapply find_index_none; eassumption.
Qed.

Lemma find_target_none (cands : list candidate) (ws : list Wall) :
  find_target cands ws = None -> Forall (no_host ws) cands.
Proof.
  induction cands as [|[[wx wy] k] cands IH]; intros E; [constructor|].
  cbn [find_target] in E.
  destruct (find_index _ ws) as [i0|] eqn:Ef; [discriminate|].
  constructor; [|now apply IH].
  intros w0 Hw0. cbn [midpoint fst snd].
  eapply find_index_none; eassumption.
Qed.

(** The guard of the search, spelled out. *)
Lemma door_host_iff (cx cy : Q) (w : Wall) :
  door_host cx cy w = true <->
  (let '(ex1, ey1, ex2, ey2) := w_coords w in
   (inject_Z (Z.min ex1 ex2) <= cx <= inject_Z (Z.max ex1 ex2))%Q /\
   (inject_Z (Z.min ey1 ey2) <= cy <= inject_Z (Z.max ey1 ey2))%Q) /\
  has_opening w = false.
Proof.
  unfold door_host. destruct (w_coords w) as [[[ex1 ey1] ex2] ey2].
  rewrite !andb_true_iff, !Qle_bool_iff, negb_true_iff. tauto.
Qed.

Lemma door_proceeds_iff (k : Z) :
  door_proceeds k = true <-> k <= 5404319552844595.
Proof.
  unfold door_proceeds. rewrite negb_true_iff, Qltb_false.
  unfold Qle, d0_6; cbn [Qnum Qden]. lia.
Qed.

Lemma count_upto_threshold (f : Z -> bool) (c : Z) (n : nat) :
  0 <= c ->
  (forall k, 0 <= k -> (f k = true <-> k < c)) ->
  count_upto f n = Z.min (Z.of_nat n) c.
Proof.
  intros Hc Hf. induction n as [|n IH]; [cbn; lia|].
  cbn [count_upto]. rewrite IH.
  destruct (f (Z.of_nat n)) eqn:E.
  - apply Hf in E; lia.
  - assert (~ Z.of_nat n < c).
    { intros H. apply Hf in H; [congruence|lia]. }
    lia.
Qed.

Lemma door_success_count :
  count_upto door_proceeds (Z.to_nat (2 ^ 53)) = 5404319552844596.
Proof.
  rewrite (count_upto_threshold door_proceeds 5404319552844596).
  - rewrite Z2Nat.id by (apply Z.pow_nonneg; lia).
    change (2 ^ 53) with 9007199254740992. lia.
  - lia.
  - intros k _. rewrite door_proceeds_iff. lia.
Qed.

(** ** The door placer's pass over the rooms *)

Lemma add_doors_loop_visits (rs : list (rect * string)) : forall ws t ws' t',
  add_doors_loop rs ws t = Some (ws', t') <-> door_visits rs ws t ws' t'.
Proof.
  induction rs as [|room rs IH]; intros ws t ws' t'.
  - cbn [add_doors_loop]. unfold ret. split.
    + intros E. injection E as <- <-. constructor.
    + intros H. inversion H; subst. reflexivity.
  - cbn [add_doors_loop]. unfold bind. split.
    + intros E. destruct (add_door room ws t) as [[ws1 t1]|] eqn:Ed;
        [|discriminate].
      econstructor; [exact Ed|]. now apply IH.
    + intros H. inversion H as [|? ? ? ? ws1 t1 ? ? Ed Hv]; subst.
      rewrite Ed. now apply IH.
Qed.

Lemma add_doors_loop_raises (rs : list (rect * string)) : forall ws t,
  add_doors_loop rs ws t = None <->
  exists before room after ws1 t1,
    rs = before ++ room :: after /\
    door_visits before ws t ws1 t1 /\ add_door room ws1 t1 = None.
Proof.
  induction rs as [|room rs IH]; intros ws t.
  - cbn [add_doors_loop]. unfold ret. split; [discriminate|].
    intros (before & r & after & ws1 & t1 & E & _).
    destruct before; discriminate.
  - cbn [add_doors_loop]. unfold bind. split.
    + destruct (add_door room ws t) as [[ws1 t1]|] eqn:Ed.
      * intros E. apply IH in E.
        destruct E as (before & r & after & ws2 & t2 & -> & Hv & Hn).
        exists (room :: before), r, after, ws2, t2.
        repeat split; [|assumption]. econstructor; eassumption.
      * intros _. exists [], room, rs, ws, t.
        repeat split; [constructor|assumption].
    + intros (before & r & after & ws2 & t2 & E & Hv & Hn).
      destruct before as [|r0 before]; cbn [app] in E.
      * injection E as <- <-. inversion Hv; subst. now rewrite Hn.
      * injection E as <- ->.
        inversion Hv as [|? ? ? ? ws1 t1 ? ? Ed Hv']; subst.
        rewrite Ed. apply IH.
        exists before, r, after, ws2, t2. repeat split; assumption.
Qed.

Lemma add_doors_visits :
  (forall g t g' t',
     add_doors g t = Some (g', t') <->
     exists ws, door_visits (rooms g) (walls g) t ws t' /\
                g' = set_walls g ws) /\
  (forall g t,
     add_doors g t = None <->
     exists before room after ws1 t1,
       rooms g = before ++ room :: after /\
       door_visits before (walls g) t ws1 t1 /\
       add_door room ws1 t1 = None).
Proof.
  split.
  - intros g t g' t'. unfold add_doors, bind. split.
    + destruct (add_doors_loop (rooms g) (walls g) t) as [[ws t1]|] eqn:El;
        [|discriminate].
      intros E. injection E as <- <-. exists ws. split; [|reflexivity].
      now apply add_doors_loop_visits.
    + intros (ws & Hv & ->). apply add_doors_loop_visits in Hv.
      rewrite Hv. reflexivity.
  - intros g t. rewrite <- add_doors_loop_raises. unfold add_doors, bind.
    destruct (add_doors_loop (rooms g) (walls g) t) as [[ws t1]|];
      split; (discriminate || reflexivity).
Qed.

(** C5, amended.  For every room the door placer draws [random.random()],
    one of [2^53] equally likely values [k / 2^53], and goes on with the
    room on 5404319552844596 of them: a success probability of 60 percent
    (it skips the room, with the walls untouched and nothing more drawn,
    with probability 40 percent).  On success it shuffles the room's four
    candidates and takes the first candidate, in shuffled order, whose
    midpoint lies on a stored wall without opening, and for it the first
    such wall of the wall list; when the run goes on, that wall gets
    [has_opening] and no other wall changes; with no such candidate the
    walls stay as they are.  The placer does this for every room of the
    plan, in the order of the room list, each room with the walls and the
    random state that the room before it left; it returns the walls left
    by the last room, and it raises exactly when it raises on a room. *)
Theorem door_trial_and_selection :
  count_upto door_proceeds (Z.to_nat (2 ^ 53)) = 5404319552844596 /\
  6 * 2 ^ 53 <= 10 * 5404319552844596 <= 6 * 2 ^ 53 + 10 /\
  (forall room ws t,
     door_proceeds (hd 0 t mod 2 ^ 53) = false ->
     add_door room ws t = Some (ws, tl t)) /\
  (forall room ws t,
     door_proceeds (hd 0 t mod 2 ^ 53) = true ->
     exists cands t1,
       shuffle (candidates room) (tl t) = Some (cands, t1) /\
       Permutation cands (candidates room) /\
       ((Forall (no_host ws) cands /\ add_door room ws t = Some (ws, t1)) \/
        (exists before c after i w,
           cands = before ++ c :: after /\
           Forall (no_host ws) before /\
           nth_error ws i = Some w /\
           door_host (fst (midpoint c)) (snd (midpoint c)) w = true /\
           (forall j b, (j < i)%nat -> nth_error ws j = Some b ->
              door_host (fst (midpoint c)) (snd (midpoint c)) b = false) /\
           forall ws' t', add_door room ws t = Some (ws', t') ->
                          ws' = set_nth i (set_opening w) ws))) /\
  (forall g t g' t',
     add_doors g t = Some (g', t') <->
     exists ws, door_visits (rooms g) (walls g) t ws t' /\
                g' = set_walls g ws) /\
  (forall g t,
     add_doors g t = None <->
     exists before room after ws1 t1,
       rooms g = before ++ room :: after /\
       door_visits before (walls g) t ws1 t1 /\
       add_door room ws1 t1 = None).
Proof.
  split; [exact door_success_count|].
  split; [change (2 ^ 53) with 9007199254740992; lia|].
  split; [|split; [|exact add_doors_visits]].
  - intros room ws t Hp. unfold add_door, bind. rewrite random_spec.
    unfold door_proceeds in Hp. rewrite negb_false_iff in Hp.
    now rewrite Hp.
  - intros room ws t Hp.
    destruct (shuffle_total (candidates room) (tl t)) as (cands & t1 & Es).
    exists cands, t1. split; [exact Es|].
    split; [exact (shuffle_perm _ _ _ _ Es)|].
    unfold add_door, bind. rewrite random_spec.
    unfold door_proceeds in Hp. rewrite negb_true_iff in Hp.
    rewrite Hp, Es.
    destruct (find_target cands ws) as [[i widx]|] eqn:Ef.
    + right.
      destruct (find_target_some _ _ _ _ Ef)
        as (before & c & after & w & Hc & _ & Hb & Hw & Hh & Hfirst).
      exists before, c, after, i, w. repeat split; try assumption.
      intros ws' t'. rewrite Hw.
      destruct (w_coords w) as [[[wx1 wy1] wx2] wy2].
      destruct ((widx =? 0) || (widx =? 2));
        match goal with
        | |- context [randint ?a ?b t1] =>
            destruct (randint a b t1) as [[k t2]|]
        end; try discriminate;
        intros E; injection E as <- <-; reflexivity.
    + left. split; [now apply find_target_none|reflexivity].
Qed.

(** C5 as stated fails: the door placer goes on with a room on far more
    than 40 percent of the equally likely values of [random.random()]; for
    one, it goes on when the draw is 0.5. *)
Lemma door_trial_not_40_percent :
  ~ (39 * 2 ^ 53 <= 100 * count_upto door_proceeds (Z.to_nat (2 ^ 53))
     <= 41 * 2 ^ 53) /\
  door_proceeds (2 ^ 52) = true.
Proof.
  split.
  - rewrite door_success_count. change (2 ^ 53) with 9007199254740992. lia.
  - vm_compute. reflexivity.
Qed.

(** ** Runs that complete *)

Lemma add_window_total (w : Wall) (s : list Window * Z) (t : rng) :
  exists r t', add_window w s t = Some (r, t').
Proof.
  unfold add_window.
  destruct (is_shared w || has_opening w); [eexists _, _; reflexivity|].
  unfold bind. rewrite random_spec.
  destruct (Qltb d0_4 _); [|eexists _, _; reflexivity].
  destruct (w_coords w) as [[[x1 y1] x2] y2].
  destruct (filter _ standard_sizes) as [|sz szs];
    [eexists _, _; reflexivity|].
  unfold choice, bind. rewrite randbelow_spec. eexists _, _. reflexivity.
Qed.

Lemma for_each_total {A S} (body : A -> S -> Rand (A * S)) :
  (forall a s t, exists r t', body a s t = Some (r, t')) ->
  forall l s t, exists r t', for_each body l s t = Some (r, t').
Proof.
  intros Hb. induction l as [|a l IH]; intros s t.
  - eexists _, _. reflexivity.
  - cbn [for_each]. unfold bind.
    destruct (Hb a s t) as (r & t1 & ->).
    destruct (IH (snd r) t1) as (r' & t2 & ->).
    eexists _, _. reflexivity.
Qed.

Lemma add_windows_total (g : generator) (t : rng) :
  exists g' t', add_windows g t = Some (g', t').
Proof.
  unfold add_windows, bind.
  destruct (for_each_total add_window add_window_total (walls g)
              (windows g, window_id_counter g) t) as (r & t1 & ->).
  eexists _, _. reflexivity.
Qed.

Lemma draw_dimension_total measure g x1 y1 x2 y2 text lk owner t :
  exists g' t',
    _draw_dimension_safe measure g x1 y1 x2 y2 text lk owner t = Some (g', t').
Proof.
  unfold _draw_dimension_safe.
  destruct (_line_crosses_walls g (x1, y1) (x2, y2) owner);
    [eexists _, _; reflexivity|].
  destruct (_check_collision g (sim_bbox x1 y1 x2 y2 text));
    [eexists _, _; reflexivity|].
  unfold bind, choose_pos_mode, bind. rewrite random_spec. unfold ret.
  destruct (if Qltb _ d0_4 then inline else _) as [| |];
    cbv beta iota;
    match goal with
    | |- context [measure ?a ?b ?c ?d] =>
        destruct (measure a b c d) as [[[bx0 by0] bx1] by1]
    end; eexists _, _; reflexivity.
Qed.

Lemma draw_segments_total measure dx dy owner segs : forall g t,
  exists g' t', draw_segments measure g dx dy owner segs t = Some (g', t').
Proof.
  induction segs as [|[[[[sx1 sy1] sx2] sy2] lk] segs IH]; intros g t.
  - eexists _, _. reflexivity.
  - cbn [draw_segments].
    destruct (Qltb (hypot (sx2 - sx1) (sy2 - sy1)) 5); [apply IH|].
    unfold bind.
    destruct (draw_dimension_total measure g (sx1 + dx) (sy1 + dy)
                (sx2 + dx) (sy2 + dy)
                (_format_value (g_unit_mode g) (hypot (sx2 - sx1) (sy2 - sy1)))
                lk owner t) as (g1 & t1 & ->).
    apply IH.
Qed.

Lemma dimension_wall_total measure strat g w t :
  exists g' t', dimension_wall measure strat g w t = Some (g', t').
Proof.
  unfold dimension_wall.
  destruct (is_shared w); [eexists _, _; reflexivity|].
  unfold bind at 1. rewrite random_spec.
  destruct (Qltb d0_7 _); [eexists _, _; reflexivity|].
  match goal with
  | |- exists _ _, bind ?m ?k _ = _ => set (M := m); set (K := k)
  end.
  assert (HM : exists ws t1, M (tl t) = Some (ws, t1)).
  { subst M. destruct strat; try (eexists _, _; reflexivity).
    unfold bind. rewrite random_spec. eexists _, _. reflexivity. }
  destruct HM as (wall_strat & t1 & HM).
  unfold bind at 1. rewrite HM. subst K; cbv beta. clear M HM.
  destruct (w_coords w) as [[[wx1 wy1] wx2] wy2].
  unfold bind at 1.
  destruct (randint_spec (-5) 5 t1 ltac:(lia)) as (j & -> & _).
  destruct (room_center w) as [rcx rcy].
  destruct (if Z.abs (wy1 - wy2) <? 5 then _ else _) as [base_dx base_dy].
  destruct (find _ (windows g)) as [win|].
  - destruct wall_strat.
    + destruct (win_coords win) as [[[win_x1 win_y1] win_x2] win_y2].
      destruct (Z.abs (wy1 - wy2) <? 5).
      * destruct (sorted4 wx1 wx2 win_x1 win_x2) as [[[p0 p1] p2] p3].
        apply draw_segments_total.
      * destruct (sorted4 wy1 wy2 win_y1 win_y2) as [[[p0 p1] p2] p3].
        apply draw_segments_total.
    + apply draw_dimension_total.
    + apply draw_dimension_total.
  - apply draw_dimension_total.
Qed.

Lemma dimension_walls_total measure strat ws : forall g t,
  exists g' t', dimension_walls measure strat g ws t = Some (g', t').
Proof.
  induction ws as [|w ws IH]; intros g t.
  - eexists _, _. reflexivity.
  - cbn [dimension_walls]. unfold bind.
    destruct (dimension_wall_total measure strat g w t) as (g1 & t1 & ->).
    apply IH.
Qed.

(** The annotator never raises. *)
Lemma add_smart_dimensions_total measure g t :
  exists g' t', add_smart_dimensions measure g t = Some (g', t').
Proof.
  unfold add_smart_dimensions, bind, choice, bind.
  rewrite randbelow_spec. unfold ret. apply dimension_walls_total.
Qed.

Lemma door_host_on_wall (cx cy : Q) (w : Wall) :
  door_host cx cy w = true -> on_wall cx cy (w_coords w) = true.
Proof.
  unfold door_host, on_wall. destruct (w_coords w) as [[[ex1 ey1] ex2] ey2].
  intros H. apply andb_true_iff in H. tauto.
Qed.

Lemma door_safe_fits (ws : list Wall) (room : rect * string)
  (c : candidate) (w : Wall) :
  door_safe (map w_coords ws) room = true ->
  In c (candidates room) -> In w ws ->
  door_host (fst (midpoint c)) (snd (midpoint c)) w = true ->
  door_fits (snd c) (w_coords w) = true.
Proof.
  unfold door_safe. intros Hs Hc Hw Hh.
  rewrite forallb_forall in Hs. specialize (Hs c Hc).
  rewrite forallb_forall in Hs.
  specialize (Hs (w_coords w) (in_map w_coords _ _ Hw)).
  rewrite (door_host_on_wall _ _ _ Hh) in Hs. exact Hs.
Qed.

(** When the door fits every wall it can be put on, the door placer does
    not raise on the room. *)
Lemma add_door_total (room : rect * string) (ws : list Wall) (t : rng) :
  door_safe (map w_coords ws) room = true ->
  exists ws' t', add_door room ws t = Some (ws', t').
Proof.
  intros Hs. unfold add_door, bind. rewrite random_spec.
  destruct (Qltb d0_6 _); [eexists _, _; reflexivity|].
  destruct (shuffle_total (candidates room) (tl t)) as (cands & t1 & Es).
  rewrite Es.
  destruct (find_target cands ws) as [[i widx]|] eqn:Ef;
    [|eexists _, _; reflexivity].
  destruct (find_target_some _ _ _ _ Ef)
    as (before & c & after & w & Hc & Hk & _ & Hw & Hh & _).
  rewrite Hw.
  assert (Hfit : door_fits widx (w_coords w) = true).
  { rewrite <- Hk. apply (door_safe_fits ws room); try assumption.
    - eapply Permutation_in; [exact (shuffle_perm _ _ _ _ Es)|].
      rewrite Hc. apply in_or_app. right. now left.
    - eapply nth_error_In. eassumption. }
  unfold door_fits in Hfit.
  destruct (w_coords w) as [[[wx1 wy1] wx2] wy2].
  destruct ((widx =? 0) || (widx =? 2)); apply Z.leb_le in Hfit;
    match goal with
    | |- context [randint ?a ?b t1] =>
        destruct (randint_spec a b t1 Hfit) as (k & -> & _)
    end; eexists _, _; reflexivity.
Qed.

Lemma add_doors_loop_total (rs : list (rect * string)) : forall ws t,
  forallb (door_safe (map w_coords ws)) rs = true ->
  exists ws' t', add_doors_loop rs ws t = Some (ws', t').
Proof.
  induction rs as [|room rs IH]; intros ws t Hs.
  - eexists _, _. reflexivity.
  - cbn [forallb] in Hs. apply andb_true_iff in Hs. destruct Hs as [H1 H2].
    cbn [add_doors_loop]. unfold bind.
    destruct (add_door_total room ws t H1) as (ws1 & t1 & E1). rewrite E1.
    apply IH.
    destruct (add_door_spec _ _ _ _ _ E1) as [Hu _].
    now rewrite (map_unflagged_coords _ _ Hu).
Qed.

Lemma add_doors_total (g : generator) (t : rng) :
  forallb (door_safe (map w_coords (walls g))) (rooms g) = true ->
  exists g' t', add_doors g t = Some (g', t').
Proof.
  intros Hs. unfold add_doors, bind.
  destruct (add_doors_loop_total _ _ t Hs) as (ws & t1 & ->).
  eexists _, _. reflexivity.
Qed.

(** ** The 900 x 900 plan of depth 1 *)

Lemma studio_walls_check (b : Z) (um : unit_mode) (l0 l1 : string) :
  forallb
    (fun i =>
       let s := 240 + Z.of_nat i in
       let g := fold_left add_room_walls (studio_rooms s l0 l1)
                  (set_rooms (init 900 900 b um 1) (studio_rooms s l0 l1)) in
       Nat.eqb (List.length (walls g)) 7
       && Nat.eqb (List.length (filter is_shared (walls g))) 1
       && forallb (door_safe (map w_coords (walls g))) (studio_rooms s l0 l1))
    (seq 0 121) = true.
Proof. vm_compute. reflexivity. Qed.

Lemma studio_split (t : rng) :
  exists s, 240 <= s <= 360 /\
    _recursive_split (150, 150, 600, 600) 1 t
    = Some ([(150, 150, 600, s); (150, 150 + s, 600, 600 - s)], tl t).
Proof.
  cbn [_recursive_split]. cbn [Z.ltb Z.compare Pos.compare Pos.compare_cont orb].
  assert (E4 : int_times 600 d0_4 = 240) by (vm_compute; reflexivity).
  assert (E6 : int_times 600 d0_6 = 360) by (vm_compute; reflexivity).
  rewrite E4, E6.
  destruct (randint_spec 240 360 t ltac:(lia)) as (s & Es & Hs).
  exists s. split; [assumption|].
  unfold bind. rewrite Es. reflexivity.
Qed.

Lemma studio_layout (b : Z) (um : unit_mode) (t : rng) :
  exists g1 t1,
    generate_layout (init 900 900 b um 1) t = Some (g1, t1) /\
    studio_counts g1 /\
    forallb (door_safe (map w_coords (walls g1))) (rooms g1) = true.
Proof.
  destruct (studio_split t) as (s & Hs & Es).
  destruct (shuffle_total room_labels (tl t)) as (labels & t1 & El).
  set (l0 := nth (0 mod List.length labels) labels EmptyString).
  set (l1 := nth (1 mod List.length labels) labels EmptyString).
  exists (fold_left add_room_walls (studio_rooms s l0 l1)
            (set_rooms (init 900 900 b um 1) (studio_rooms s l0 l1))), t1.
  split.
  - unfold generate_layout, bind.
    cbn [width height complexity_depth init]. cbv zeta.
    change (900 - 2 * 150) with 600. rewrite Es.
    cbn [select_rooms List.length Z.of_nat Pos.of_succ_nat Pos.succ Z.ltb
         Z.compare Pos.compare Pos.compare_cont ret].
    rewrite El. reflexivity.
  - pose proof (studio_walls_check b um l0 l1) as Hall.
    rewrite forallb_forall in Hall.
    specialize (Hall (Z.to_nat (s - 240)) ltac:(apply in_seq; lia)).
    cbv zeta in Hall. rewrite Z2Nat.id in Hall by lia.
    replace (240 + (s - 240)) with s in Hall by lia.
    apply andb_true_iff in Hall. destruct Hall as [Hall Hsafe].
    apply andb_true_iff in Hall. destruct Hall as [H7 H1].
    apply Nat.eqb_eq in H7, H1.
    destruct (build_walls_annotations (studio_rooms s l0 l1)
                (set_rooms (init 900 900 b um 1) (studio_rooms s l0 l1)))
      as [_ Hr].
    unfold studio_counts. rewrite Hr. cbn [rooms set_rooms].
    repeat split; assumption.
Qed.

Lemma filter_shared_map (ws ws' : list Wall) :
  map is_shared ws' = map is_shared ws ->
  List.length (filter is_shared ws') = List.length (filter is_shared ws) /\
  List.length ws' = List.length ws.
Proof.
  revert ws'. induction ws as [|a ws IH]; intros [|a' ws'] H;
    try discriminate; [split; reflexivity|].
  cbn [map] in H. injection H as Ha Hr. destruct (IH _ Hr) as [H1 H2].
  cbn [filter List.length]. rewrite Ha, H2.
  destruct (is_shared a); cbn [List.length]; rewrite H1; split; reflexivity.
Qed.

(** C2, amended.  For every tape (and every renderer, base offset and
    unit mode), generating a 900 x 900 plan of depth 1 completes, and the
    plan has exactly 2 rooms and exactly 7 walls, exactly one of them
    flagged [is_shared] in the final wall list (the wall between the two
    rooms). *)
Theorem studio_plan measure (b : Z) (um : unit_mode) (t : rng) :
  exists g' t',
    generate measure (init 900 900 b um 1) t = Some (g', t') /\
    studio_counts g'.
Proof.
  destruct (studio_layout b um t) as (g1 & t1 & E1 & (Hr & Hw & Hs) & Hsafe).
  destruct (add_windows_total g1 t1) as (g2 & t2 & E2).
  destruct (add_windows_spec _ _ _ _ E2)
    as (U2 & S2 & _ & _ & _ & R2 & _).
  assert (Hsafe2 : forallb (door_safe (map w_coords (walls g2))) (rooms g2)
                   = true).
  { now rewrite R2, (map_unflagged_coords _ _ U2). }
  destruct (add_doors_total g2 t2 Hsafe2) as (g3 & t3 & E3).
  destruct (add_doors_spec _ _ _ _ E3)
    as (_ & S3 & _ & _ & _ & R3 & _).
  destruct (add_smart_dimensions_total measure g3 t3) as (g' & t' & E4).
  destruct (annot_steps_frame _ _ (add_smart_dimensions_steps _ _ _ _ _ E4))
    as (W4 & _ & R4 & _).
  exists g', t'. split.
  - unfold generate, bind. rewrite E1, E2, E3. exact E4.
  - destruct (filter_shared_map (walls g1) (walls g3)) as [F1 F2];
      [congruence|].
    unfold studio_counts, shared_walls in *. rewrite W4, R4, R3, R2.
    repeat split; congruence.
Qed.

(** C2 as stated fails: with the first draw 7 the plan has two rooms and
    the wall between them, from (150, 397) to (750, 397), is flagged
    [is_shared]. *)
Lemma studio_plan_has_shared_wall :
  exists g' t',
    generate fixed_width_extent (init 900 900 25 mm 1) [7] = Some (g', t') /\
    In (150, 397, 750, 397) (map w_coords (shared_walls g')) /\
    ~ ((1 <= List.length (rooms g') <= 2)%nat /\
       (4 <= List.length (walls g'))%nat /\
       List.length (shared_walls g') = 0%nat).
Proof.
  eexists _, _. split; [vm_compute; reflexivity|]. split.
  - cbn. tauto.
  - cbn. intros (_ & _ & H). discriminate H.
Qed.

(** ** Concrete runs *)

Lemma walls_axis_aligned_and_fixed_witness :
  exists g' t',
    generate fixed_width_extent (init 900 900 25 mm 1) door_tape
      = Some (g', t') /\
    Forall wall_ok (walls g').
Proof.
  destruct (generate fixed_width_extent (init 900 900 25 mm 1) door_tape)
    as [[g' t']|] eqn:E.
  - exists g', t'. split; [reflexivity|].
    destruct (walls_axis_aligned_and_fixed fixed_width_extent
                (init 900 900 25 mm 1) door_tape g' t'
                (Forall_nil wall_ok) E)
      as (_ & g1 & t1 & g2 & t2 & g3 & t3 & _ & _ & _ & _ & _ & _ & _ & _ & _ & H).
    exact H.
  - vm_compute in E. discriminate E.
Defined.

Lemma shared_walls_stay_bare_witness :
  exists g' t',
    generate fixed_width_extent (init 900 900 25 mm 1) door_tape
      = Some (g', t') /\
    forall w, In w (walls g') -> is_shared w = true ->
      (forall win, In win (windows g') -> win_wall_id win <> w_id w) /\
      (forall d, In d (dimensions g') -> ~ links_to g' w (dim_link d)).
Proof.
  eexists _, _. split; [vm_compute; reflexivity|].
  eapply (shared_walls_stay_bare fixed_width_extent 900 900 25 mm 1 door_tape).
  vm_compute. reflexivity.
Defined.

Lemma dimension_lines_cross_no_wall_witness :
  exists g' t',
    generate fixed_width_extent (init 400 400 25 mm_suffix 1) label_tape
      = Some (g', t') /\
    List.length (dimensions g') = 4%nat /\
    Forall (clear_of_walls g') (dimensions g').
Proof.
  eexists _, _. split; [vm_compute; reflexivity|].
  split; [vm_compute; reflexivity|].
  eapply (dimension_lines_cross_no_wall fixed_width_extent 400 400 25
            mm_suffix 1 label_tape).
  vm_compute. reflexivity.
Defined.

Lemma labels_checked_against_registry_witness :
  exists g' t',
    generate fixed_width_extent (init 400 400 25 mm_suffix 1) label_tape
      = Some (g', t') /\
    List.length (dimensions g') = 4%nat /\
    List.length (dimensions g') = List.length (text_bboxes g').
Proof.
  eexists _, _. split; [vm_compute; reflexivity|].
  split; [vm_compute; reflexivity|].
  eapply (labels_checked_against_registry fixed_width_extent 400 400 25
           mm_suffix 1 label_tape).
  vm_compute. reflexivity.
Defined.

(** C1 as stated fails for doors: in this run the first room's door goes
    on the wall between the two rooms, wall 102, which is flagged
    [is_shared]: the door placer finds it as target (position 2 of the
    wall list, for candidate 0) and sets its [has_opening]. *)
Lemma door_on_shared_wall :
  exists g1 t1 g2 t2 g3 t3 cands t2' w2 w3,
    generate_layout (init 900 900 25 mm 1) door_tape = Some (g1, t1) /\
    add_windows g1 t1 = Some (g2, t2) /\
    add_doors g2 t2 = Some (g3, t3) /\
    shuffle (candidates ((150, 150, 600, 247), "KITCHEN"%string)) (tl t2)
      = Some (cands, t2') /\
    find_target cands (walls g2) = Some (2%nat, 0) /\
    nth_error (walls g2) 2 = Some w2 /\
    w_id w2 = 102 /\ is_shared w2 = true /\ has_opening w2 = false /\
    nth_error (walls g3) 2 = Some w3 /\
    w_id w3 = 102 /\ is_shared w3 = true /\ has_opening w3 = true.
Proof.
  eexists _, _, _, _, _, _, _, _, _, _.
  repeat (split; [vm_compute; reflexivity|]).
  vm_compute; reflexivity.
Qed.

(** C6 as stated fails: in this run, with a renderer that gives every
    label exactly the size the annotator estimates, the first and the
    third committed record have rendered boxes (132, 125, 180, 135) and
    (129, 132, 139, 180), which overlap, inflated or not.  The third label
    was checked at its estimated place and then drawn 9 units aside. *)
Lemma rendered_labels_overlap :
  exists g' t' d1 d3 b1 b3,
    generate fixed_width_extent (init 400 400 25 mm_suffix 1) label_tape
      = Some (g', t') /\
    nth_error (dimensions g') 0 = Some d1 /\
    nth_error (dimensions g') 2 = Some d3 /\
    nth_error (text_bboxes g') 0 = Some b1 /\
    nth_error (text_bboxes g') 2 = Some b3 /\
    dim_position d3 = below /\
    dim_bbox d1 = (132, 265, 180, 275) /\
    dim_bbox d3 = (129, 220, 139, 268) /\
    overlaps b3 b1 = true /\
    overlaps (inflate b3) b1 = true /\
    overlaps (inflate b3) (inflate b1) = true.
Proof.
  eexists _, _, _, _, _, _.
  repeat (split; [vm_compute; reflexivity|]).
  vm_compute; reflexivity.
Qed.

(** A run need not complete.  On [raise_tape] the midpoint (300, 310) of
    the bottom edge of the room (150, 310, 300, 140) lies on the wall from
    (300, 310) to (450, 310), which already has a window, and on the end of
    the vertical wall from (300, 150) to (300, 310), which the door placer
    therefore selects; the door position is then drawn with
    [randint(305, 260)], which raises [ValueError]. *)
Lemma door_placer_can_raise :
  exists g1 t1 g2 t2,
    generate_layout (init 900 900 25 mm 4) raise_tape = Some (g1, t1) /\
    add_windows g1 t1 = Some (g2, t2) /\
    add_doors g2 t2 = None /\
    generate fixed_width_extent (init 900 900 25 mm 4) raise_tape = None.
Proof.
  eexists _, _, _, _.
  repeat (split; [vm_compute; reflexivity|]).
  vm_compute; reflexivity.
Qed.

(* ================================================================= *)
(** * Further properties *)

(** ** Space partitioner: area, number and place of the leaves *)

Lemma total_area_app (l1 l2 : list rect) :
  total_area (l1 ++ l2) = total_area l1 + total_area l2.
Proof.
  induction l1 as [|r l1 IH]; cbn; [reflexivity|].
  unfold total_area in IH. rewrite IH. unfold total_area. lia.
Qed.

(** X1.  The areas of the leaves add up to the area of the rectangle that
    was partitioned. *)
Theorem partition_area (r : rect) (depth : nat) (t : rng) :
  rect_w r < 2 ^ 53 -> rect_h r < 2 ^ 53 ->
  exists leaves t',
    _recursive_split r depth t = Some (leaves, t') /\
    total_area leaves = area r.
Proof.
  intros Hw Hh.
  destruct (split_induction (fun r _ l => total_area (map fst l) = area r))
    with (depth := depth) (r := r) (t := t) as (l & t' & E & T);
    try assumption.
  - intros. cbn. lia.
  - intros x y w h d s l1 l2 _ _ _ _ T1 T2.
    rewrite map_app, total_area_app, T1, T2. unfold area; cbn. lia.
  - intros x y w h d s l1 l2 _ _ _ _ T1 T2.
    rewrite map_app, total_area_app, T1, T2. unfold area; cbn. lia.
  - exists (map fst l), t'. split; [|assumption].
    rewrite traced_erase, E. reflexivity.
Qed.

Lemma partition_area_witness :
  exists leaves t',
    _recursive_split (150, 150, 600, 600) 4 [60; 60; 60; 30; 30; 30; 12]
      = Some (leaves, t') /\
    total_area leaves = 360000.
Proof.
  apply (partition_area (150, 150, 600, 600) 4 [60; 60; 60; 30; 30; 30; 12]);
    vm_compute; reflexivity.
Defined.

(** X2.  The partitioner returns at least one leaf and at most [2^depth]
    leaves. *)
Theorem partition_leaf_count (r : rect) (depth : nat) (t : rng) :
  rect_w r < 2 ^ 53 -> rect_h r < 2 ^ 53 ->
  exists leaves t',
    _recursive_split r depth t = Some (leaves, t') /\
    (1 <= List.length leaves <= 2 ^ depth)%nat.
Proof.
  intros Hw Hh.
  destruct (split_induction
              (fun _ d l => (1 <= List.length l <= 2 ^ d)%nat))
    with (depth := depth) (r := r) (t := t) as (l & t' & E & T);
    try assumption.
  - intros x y w h d _. cbn [List.length].
    pose proof (Nat.pow_nonzero 2 d ltac:(lia)). lia.
  - intros x y w h d s l1 l2 _ _ _ _ T1 T2.
    rewrite length_app. cbn [Nat.pow]. lia.
  - intros x y w h d s l1 l2 _ _ _ _ T1 T2.
    rewrite length_app. cbn [Nat.pow]. lia.
  - exists (map fst l), t'. split.
    + rewrite traced_erase, E. reflexivity.
    + now rewrite length_map.
Qed.

Lemma partition_leaf_count_witness :
  exists leaves t',
    _recursive_split (150, 150, 600, 600) 4 [60; 60; 60; 30; 30; 30; 12]
      = Some (leaves, t') /\
    (1 <= List.length leaves <= 16)%nat.
Proof.
  apply (partition_leaf_count (150, 150, 600, 600) 4
           [60; 60; 60; 30; 30; 30; 12]);
    vm_compute; reflexivity.
Defined.

Lemma within_trans (a b c : rect) : within a b -> within b c -> within a c.
Proof.
  destruct a as [[[x y] w] h], b as [[[x1 y1] w1] h1],
           c as [[[x2 y2] w2] h2]. unfold within. lia.
Qed.

(** X3.  Every leaf lies within the rectangle that was partitioned, and
    when that rectangle has positive sides so has every leaf. *)
Theorem partition_leaves_inside (r : rect) (depth : nat) (t : rng) :
  rect_w r < 2 ^ 53 -> rect_h r < 2 ^ 53 ->
  exists leaves t',
    _recursive_split r depth t = Some (leaves, t') /\
    Forall (fun lf => within lf r /\
                      (0 < rect_w r -> 0 < rect_h r ->
                       0 < rect_w lf /\ 0 < rect_h lf)) leaves.
Proof.
  intros Hw Hh.
  destruct (split_induction
              (fun r _ l =>
                 Forall (fun lf => within lf r /\
                                   (0 < rect_w r -> 0 < rect_h r ->
                                    0 < rect_w lf /\ 0 < rect_h lf))
                        (map fst l)))
    with (depth := depth) (r := r) (t := t) as (l & t' & E & T);
    try assumption.
  - intros x y w h d _. cbn [map fst]. constructor; [|constructor].
    split; [unfold within; lia|tauto].
  - intros x y w h d s l1 l2 Hw1 Hh1 _ Hs T1 T2.
    rewrite map_app. apply Forall_app. split.
    + eapply Forall_impl; [|exact T1]. intros lf [Hin Hpos]. split.
      * eapply within_trans; [exact Hin|]. unfold within; lia.
      * intros _ _. apply Hpos; cbn [rect_w rect_h]; lia.
    + eapply Forall_impl; [|exact T2]. intros lf [Hin Hpos]. split.
      * eapply within_trans; [exact Hin|]. unfold within; lia.
      * intros _ _. apply Hpos; cbn [rect_w rect_h]; lia.
  - intros x y w h d s l1 l2 Hw1 Hh1 _ Hs T1 T2.
    rewrite map_app. apply Forall_app. split.
    + eapply Forall_impl; [|exact T1]. intros lf [Hin Hpos]. split.
      * eapply within_trans; [exact Hin|]. unfold within; lia.
      * intros _ _. apply Hpos; cbn [rect_w rect_h]; lia.
    + eapply Forall_impl; [|exact T2]. intros lf [Hin Hpos]. split.
      * eapply within_trans; [exact Hin|]. unfold within; lia.
      * intros _ _. apply Hpos; cbn [rect_w rect_h]; lia.
  - exists (map fst l), t'. split; [|assumption].
    rewrite traced_erase, E. reflexivity.
Qed.

Lemma partition_leaves_inside_witness :
  exists leaves t',
    _recursive_split (150, 150, 600, 600) 4 [60; 60; 60; 30; 30; 30; 12]
      = Some (leaves, t') /\
    Forall (fun lf => within lf (150, 150, 600, 600) /\
                      (0 < 600 -> 0 < 600 ->
                       0 < rect_w lf /\ 0 < rect_h lf)) leaves.
Proof.
  apply (partition_leaves_inside (150, 150, 600, 600) 4
           [60; 60; 60; 30; 30; 30; 12]);
    vm_compute; reflexivity.
Defined.

(** ** Room selector: how many rooms survive *)

(** X4.  From a list of at most 4096 rooms the selector keeps at least one
    room and at least 60 percent of the rooms; what it keeps and what it
    removes together are the rooms it was given, and with 3 rooms or fewer
    it removes none. *)
Theorem selector_keeps_most (g : generator) (raw : list rect) (t : rng) :
  (0 < List.length raw <= 4096)%nat ->
  exists sel removed t',
    select_rooms g raw t = Some (sel, t') /\
    Permutation (removed ++ sel) raw /\
    (1 <= List.length sel)%nat /\
    (6 * List.length raw <= 10 * List.length sel)%nat /\
    (List.length raw <= 3 -> removed = [])%nat.
Proof.
  intros Hn. unfold select_rooms.
  destruct (Z.ltb_spec 3 (Z.of_nat (List.length raw))) as [H3|H3].
  - set (n := Z.of_nat (List.length raw)) in *.
    assert (E4 : int_times n d0_4 = 4 * n / 10).
    { pose proof int_times_04_small as Hall.
      rewrite forallb_forall in Hall. apply Z.eqb_eq.
      apply (Hall (List.length raw)). apply in_seq. lia. }
    rewrite E4. set (m := Z.max 1 (4 * n / 10)).
    assert (Hq : 1 <= 4 * n / 10) by (apply Z.div_le_lower_bound; lia).
    assert (Hm : m = 4 * n / 10) by (unfold m; lia).
    assert (Hq2 : 10 * (4 * n / 10) <= 4 * n)
      by (apply Z.mul_div_le; lia).
    destruct (randint_spec 1 m t ltac:(lia)) as (k & Ek & Hk).
    exists (skipn (Z.to_nat k) (sort_desc (sort_key g) raw)),
           (firstn (Z.to_nat k) (sort_desc (sort_key g) raw)), (tl t).
    pose proof (Permutation_length (sort_desc_perm (sort_key g) raw)) as Hlen.
    split; [unfold bind; rewrite Ek; reflexivity|].
    split; [rewrite firstn_skipn; apply sort_desc_perm|].
    rewrite length_skipn, Hlen. unfold n in *. repeat split; lia.
  - exists raw, [], t. repeat split; try reflexivity; lia.
Qed.

Lemma selector_keeps_most_witness :
  exists sel removed t',
    select_rooms (init 900 900 25 mm 2)
      [(150, 150, 300, 240); (450, 150, 300, 240);
       (150, 390, 300, 360); (450, 390, 300, 360)] [0]
    = Some (sel, t') /\
    Permutation (removed ++ sel)
      [(150, 150, 300, 240); (450, 150, 300, 240);
       (150, 390, 300, 360); (450, 390, 300, 360)] /\
    (1 <= List.length sel)%nat /\
    (6 * 4 <= 10 * List.length sel)%nat /\
    (4 <= 3 -> removed = [])%nat.
Proof.
  apply (selector_keeps_most (init 900 900 25 mm 2)
           [(150, 150, 300, 240); (450, 150, 300, 240);
            (150, 390, 300, 360); (450, 390, 300, 360)] [0]).
  cbn. lia.
Defined.

(** ** Room labels *)

Lemma room_labels_NoDup : NoDup room_labels.
Proof.
  unfold room_labels.
  repeat (constructor; [cbn; intuition discriminate|]). constructor.
Qed.

Lemma assign_labels_snd (labels : list string) (rs : list rect) : forall i,
  map snd (assign_labels labels i rs)
  = map (fun k => nth (k mod List.length labels) labels EmptyString)
        (seq i (List.length rs)).
Proof.
  induction rs as [|r rs IH]; intros i; cbn; [|rewrite IH]; reflexivity.
Qed.

Lemma firstn_seq (n : nat) : forall a m,
  firstn n (seq a m) = seq a (Nat.min n m).
Proof.
  induction n as [|n IH]; intros a [|m]; cbn; try reflexivity.
  now rewrite IH.
Qed.

(** X5.  After the layout every room carries a label of the label pool,
    and the first eight rooms carry eight different labels. *)
Theorem room_labels_from_pool (g : generator) (t : rng) g1 t1 :
  generate_layout g t = Some (g1, t1) ->
  Forall (fun room => In (snd room) room_labels) (rooms g1) /\
  NoDup (map snd (firstn 8 (rooms g1))).
Proof.
  intros E. destruct (generate_layout_spec _ _ _ _ E)
    as (raw & ta & sel & tb & labels & _ & _ & El & ->).
  destruct (build_walls_annotations (assign_labels labels 0 sel)
              (set_rooms g (assign_labels labels 0 sel))) as [_ ->].
  cbn [rooms set_rooms].
  pose proof (shuffle_perm _ _ _ _ El) as Hp.
  pose proof (Permutation_length Hp) as Hlen. cbn in Hlen.
  assert (Hnd : NoDup labels).
  { eapply Permutation_NoDup; [symmetry; exact Hp|apply room_labels_NoDup]. }
  split.
  - apply Forall_forall. intros room Hroom.
    apply (in_map snd) in Hroom. rewrite assign_labels_snd in Hroom.
    apply in_map_iff in Hroom. destruct Hroom as (k & <- & _).
    eapply Permutation_in; [exact Hp|].
    apply nth_In. rewrite Hlen. apply Nat.mod_upper_bound. lia.
  - rewrite <- firstn_map, assign_labels_snd, firstn_map, firstn_seq.
    apply NoDup_map_NoDup_ForallPairs; [|apply seq_NoDup].
    intros i j Hi Hj Hij. apply in_seq in Hi, Hj.
    rewrite Hlen in Hij.
    rewrite (Nat.mod_small i 8), (Nat.mod_small j 8) in Hij by lia.
    apply (proj1 (NoDup_nth labels EmptyString) Hnd); lia || assumption.
Qed.

Lemma room_labels_from_pool_witness :
  exists g1 t1,
    generate_layout (init 900 900 25 mm 4) raise_tape = Some (g1, t1) /\
    List.length (rooms g1) = 8%nat /\
    NoDup (map snd (firstn 8 (rooms g1))).
Proof.
  destruct (generate_layout (init 900 900 25 mm 4) raise_tape)
    as [[g1 t1]|] eqn:E.
  - exists g1, t1. split; [reflexivity|]. split.
    + vm_compute in E. injection E as <- _. reflexivity.
    + exact (proj2 (room_labels_from_pool _ _ _ _ E)).
  - vm_compute in E. discriminate E.
Defined.

(** ** Wall graph builder: what is stored *)

Lemma near_refl (c : Z * Z * Z * Z) : near c c = true.
Proof.
  destruct c as [[[a b] c] d]. unfold near.
  rewrite !Z.sub_diag. reflexivity.
Qed.

Lemma mark_shared_none (c : Z * Z * Z * Z) (ws : list Wall) :
  mark_shared c ws = None -> forall w, In w ws -> near (w_coords w) c = false.
Proof.
  induction ws as [|a ws IH]; intros E w Hw; [destruct Hw|].
  cbn [mark_shared] in E. destruct (near (w_coords a) c) eqn:En;
    [discriminate|].
  destruct (mark_shared c ws); [discriminate|].
  destruct Hw as [<-|Hw]; [assumption|now apply IH].
Qed.

Lemma mark_shared_some (c : Z * Z * Z * Z) (ws ws' : list Wall) :
  mark_shared c ws = Some ws' ->
  exists w, In w ws' /\ near (w_coords w) c = true /\ is_shared w = true.
Proof.
  revert ws'. induction ws as [|a ws IH]; intros ws' E; [discriminate|].
  cbn [mark_shared] in E. destruct (near (w_coords a) c) eqn:En.
  - injection E as <-. exists (set_shared a). repeat split; [now left|assumption].
  - destruct (mark_shared c ws) as [ws1|]; [|discriminate].
    injection E as <-. destruct (IH _ eq_refl) as (w & Hw & Hn & Hs).
    exists w. repeat split; [now right|assumption|assumption].
Qed.

(** [_add_wall] as insert-or-flag: a segment within the tolerance of a
    stored wall flags a wall and stores nothing; any other segment is
    appended, unflagged, with the next identifier. *)
Lemma add_wall_lookup g x1 y1 x2 y2 rcx rcy :
  let c := normalize x1 y1 x2 y2 in
  let g' := _add_wall g x1 y1 x2 y2 rcx rcy in
  (represented (walls g) c ->
   map unflagged (walls g') = map unflagged (walls g) /\
   wall_id_counter g' = wall_id_counter g /\
   exists w, In w (walls g') /\ near (w_coords w) c = true /\
             is_shared w = true) /\
  (~ represented (walls g) c ->
   walls g' = walls g ++ [mkWall (wall_id_counter g) c false false (rcx, rcy)] /\
   wall_id_counter g' = wall_id_counter g + 1).
Proof.
  cbv zeta. unfold _add_wall.
  destruct (mark_shared _ (walls g)) as [ws|] eqn:E; cbn; split.
  - intros _. destruct (mark_shared_spec _ _ _ E) as [Hu _].
    split; [assumption|]. split; [reflexivity|].
    exact (mark_shared_some _ _ _ E).
  - intros Hn. exfalso. apply Hn.
    destruct (mark_shared_some _ _ _ E) as (w & Hw & Hnear & _).
    destruct (mark_shared_spec _ _ _ E) as [Hu _].
    exists (w_coords w). split; [|assumption].
    rewrite <- (map_unflagged_coords _ _ Hu). now apply in_map.
  - intros (c & Hc & Hnear). exfalso.
    apply in_map_iff in Hc. destruct Hc as (w & <- & Hw).
    rewrite (mark_shared_none _ _ E w Hw) in Hnear. discriminate.
  - intros _. split; reflexivity.
Qed.

Lemma normalize_sym (x1 y1 x2 y2 : Z) :
  x1 = x2 \/ y1 = y2 -> normalize x2 y2 x1 y1 = normalize x1 y1 x2 y2.
Proof.
  intros H. unfold normalize.
  destruct (Z.ltb_spec x2 x1); destruct (Z.ltb_spec y2 y1);
    destruct (Z.ltb_spec x1 x2); destruct (Z.ltb_spec y1 y2); cbn;
    try reflexivity; try lia; f_equal; try lia;
    repeat (f_equal; try lia).
Qed.

Lemma add_wall_represented g x1 y1 x2 y2 rcx rcy :
  represented (walls (_add_wall g x1 y1 x2 y2 rcx rcy))
              (normalize x1 y1 x2 y2).
Proof.
  destruct (add_wall_lookup g x1 y1 x2 y2 rcx rcy) as [Hyes Hno].
  cbv zeta in *. unfold _add_wall in *.
  destruct (mark_shared _ (walls g)) as [ws|] eqn:E; cbn.
  - destruct (mark_shared_some _ _ _ E) as (w & Hw & Hnear & _).
    exists (w_coords w). split; [now apply in_map|assumption].
  - exists (normalize x1 y1 x2 y2). split; [|apply near_refl].
    rewrite map_app. apply in_or_app. right. now left.
Qed.

Lemma represented_kept g x1 y1 x2 y2 rcx rcy e :
  represented (walls g) e ->
  represented (walls (_add_wall g x1 y1 x2 y2 rcx rcy)) e.
Proof.
  intros (c & Hc & Hnear). exists c. split; [|assumption].
  destruct (add_wall_prefix g x1 y1 x2 y2 rcx rcy) as [extra Hp].
  apply (f_equal (map (fun p => snd (fst p)))) in Hp.
  rewrite map_app, !map_map in Hp. cbn [unflagged fst snd] in Hp.
  change (map (fun x : Wall => w_coords x)) with (map w_coords) in Hp.
  rewrite Hp. apply in_or_app. now left.
Qed.

(** X6.  Storing an axis-aligned segment that has just been stored, given
    in the other direction (as the neighbouring room gives it), stores
    nothing new: the wall list keeps its walls and identifiers, the counter
    stays, and a wall within the tolerance of the segment is flagged
    [is_shared]. *)
Theorem add_wall_twice g x1 y1 x2 y2 rcx rcy rcx' rcy' :
  x1 = x2 \/ y1 = y2 ->
  let g1 := _add_wall g x1 y1 x2 y2 rcx rcy in
  let g2 := _add_wall g1 x2 y2 x1 y1 rcx' rcy' in
  map unflagged (walls g2) = map unflagged (walls g1) /\
  wall_id_counter g2 = wall_id_counter g1 /\
  exists w, In w (walls g2) /\
            near (w_coords w) (normalize x1 y1 x2 y2) = true /\
            is_shared w = true.
Proof.
  intros Hax. cbv zeta.
  destruct (add_wall_lookup (_add_wall g x1 y1 x2 y2 rcx rcy)
              x2 y2 x1 y1 rcx' rcy') as [Hyes _].
  cbv zeta in Hyes. rewrite (normalize_sym _ _ _ _ Hax) in Hyes.
  apply Hyes. apply add_wall_represented.
Qed.

Lemma add_wall_twice_witness :
  let g1 := _add_wall (init 900 900 25 mm 1) 750 397 150 397 450 (547 # 2) in
  let g2 := _add_wall g1 150 397 750 397 450 (1147 # 2) in
  map unflagged (walls g2) = map unflagged (walls g1) /\
  wall_id_counter g2 = wall_id_counter g1 /\
  exists w, In w (walls g2) /\
            near (w_coords w) (normalize 750 397 150 397) = true /\
            is_shared w = true.
Proof.
  apply (add_wall_twice (init 900 900 25 mm 1) 750 397 150 397).
  right. reflexivity.
Defined.

Lemma add_wall_edges rs g x1 y1 x2 y2 rcx rcy :
  Forall (edge_of rs) (map unflagged (walls g)) ->
  edge_of rs (wall_id_counter g, normalize x1 y1 x2 y2, (rcx, rcy)) ->
  Forall (edge_of rs) (map unflagged (walls (_add_wall g x1 y1 x2 y2 rcx rcy))).
Proof.
  intros Hws He.
  destruct (add_wall_cases g x1 y1 x2 y2 rcx rcy) as [(Hu & _ & _)|(Hw & _)];
    cbv zeta in *.
  - now rewrite Hu.
  - rewrite Hw, map_app. apply Forall_app. split; [assumption|].
    constructor; [exact He|constructor].
Qed.

Lemma add_wall_length g x1 y1 x2 y2 rcx rcy :
  (List.length (walls g)
   <= List.length (walls (_add_wall g x1 y1 x2 y2 rcx rcy))
   <= List.length (walls g) + 1)%nat.
Proof.
  destruct (add_wall_cases g x1 y1 x2 y2 rcx rcy) as [(Hu & _ & _)|(Hw & _)];
    cbv zeta in *.
  - apply (f_equal (@List.length _)) in Hu. rewrite !length_map in Hu. lia.
  - rewrite Hw, length_app. cbn. lia.
Qed.

Lemma add_room_walls_facts rs g room :
  In room rs ->
  Forall (edge_of rs) (map unflagged (walls g)) ->
  let g' := add_room_walls g room in
  Forall (edge_of rs) (map unflagged (walls g')) /\
  (List.length (walls g') <= List.length (walls g) + 4)%nat /\
  (forall e, represented (walls g) e -> represented (walls g') e) /\
  (forall e, In e (room_edges (fst room)) -> represented (walls g') e).
Proof.
  destruct room as [[[[x y] w] h] lbl]. intros Hin Hws.
  cbn [add_room_walls fst room_edges]. cbv zeta.
  set (cx := (inject_Z x + inject_Z w / 2)%Q).
  set (cy := (inject_Z y + inject_Z h / 2)%Q).
  assert (He : forall n c, In c (room_edges (x, y, w, h)) ->
                           edge_of rs (n, c, (cx, cy))).
  { intros n c Hc. exists (x, y, w, h, lbl). repeat split; assumption. }
  set (g1 := _add_wall g x y (x + w) y cx cy).
  set (g2 := _add_wall g1 (x + w) y (x + w) (y + h) cx cy).
  set (g3 := _add_wall g2 (x + w) (y + h) x (y + h) cx cy).
  set (g4 := _add_wall g3 x (y + h) x y cx cy).
  assert (H1 : Forall (edge_of rs) (map unflagged (walls g1))).
  { apply add_wall_edges; [assumption|]. apply He. cbn. tauto. }
  assert (H2 : Forall (edge_of rs) (map unflagged (walls g2))).
  { apply add_wall_edges; [assumption|]. apply He. cbn. tauto. }
  assert (H3 : Forall (edge_of rs) (map unflagged (walls g3))).
  { apply add_wall_edges; [assumption|]. apply He. cbn. tauto. }
  assert (H4 : Forall (edge_of rs) (map unflagged (walls g4))).
  { apply add_wall_edges; [assumption|]. apply He. cbn. tauto. }
  split; [exact H4|]. split; [|split].
  - pose proof (add_wall_length g x y (x + w) y cx cy).
    pose proof (add_wall_length g1 (x + w) y (x + w) (y + h) cx cy).
    pose proof (add_wall_length g2 (x + w) (y + h) x (y + h) cx cy).
    pose proof (add_wall_length g3 x (y + h) x y cx cy).
    fold g1 in H. fold g2 in H0. fold g3 in H5. fold g4 in H6. lia.
  - intros e Hr. unfold g4, g3, g2, g1.
    do 4 apply represented_kept. exact Hr.
  - intros e [<-|[<-|[<-|[<-|[]]]]].
    + unfold g4, g3, g2. do 3 apply represented_kept.
      apply add_wall_represented.
    + unfold g4, g3. do 2 apply represented_kept.
      apply add_wall_represented.
    + unfold g4. apply represented_kept. apply add_wall_represented.
    + apply add_wall_represented.
Qed.

Lemma build_walls_facts rs : forall rs' g,
  incl rs' rs ->
  Forall (edge_of rs) (map unflagged (walls g)) ->
  let g' := fold_left add_room_walls rs' g in
  Forall (edge_of rs) (map unflagged (walls g')) /\
  (List.length (walls g')
   <= List.length (walls g) + 4 * List.length rs')%nat /\
  (forall e, represented (walls g) e -> represented (walls g') e) /\
  (forall room e, In room rs' -> In e (room_edges (fst room)) ->
                  represented (walls g') e).
Proof.
  induction rs' as [|room rs' IH]; intros g Hincl Hws; cbv zeta.
  - cbn. split; [assumption|]. split; [lia|]. split; [tauto|].
    intros room e [].
  - cbn [fold_left].
    destruct (add_room_walls_facts rs g room (Hincl room (or_introl eq_refl)) Hws)
      as (H1 & H2 & H3 & H4).
    destruct (IH (add_room_walls g room)
                (fun a Ha => Hincl a (or_intror Ha)) H1)
      as (I1 & I2 & I3 & I4).
    cbv zeta in *. repeat split.
    + exact I1.
    + cbn [List.length]. lia.
    + intros e Hr. apply I3, H3, Hr.
    + intros r e [<-|Hr] He.
      * apply I3, H4, He.
      * eapply I4; eassumption.
Qed.

(** X7.  In the output of a run, every wall is a boundary segment of one
    of the rooms and carries the centre of that room; every boundary
    segment of every room has a stored wall within the tolerance of 5; and
    there are at most four walls per room. *)
Theorem walls_are_room_edges measure W H b um depth t g' t' :
  generate measure (init W H b um depth) t = Some (g', t') ->
  Forall (edge_of (rooms g')) (map unflagged (walls g')) /\
  (forall room e, In room (rooms g') -> In e (room_edges (fst room)) ->
                  represented (walls g') e) /\
  (List.length (walls g') <= 4 * List.length (rooms g'))%nat.
Proof.
  intros E.
  destruct (generate_stages _ _ _ _ _ E)
    as (g1 & t1 & g2 & t2 & g3 & t3 & E1 & E2 & E3 & E4).
  destruct (generate_layout_spec _ _ _ _ E1)
    as (raw & ta & sel & tb & labels & _ & _ & _ & Eg1).
  set (rs := assign_labels labels 0 sel) in *.
  destruct (build_walls_facts rs rs (set_rooms (init W H b um depth) rs)
              (incl_refl _) (Forall_nil _)) as (F1 & F2 & _ & F4).
  cbv zeta in *. rewrite <- Eg1 in F1, F2, F4.
  assert (R1 : rooms g1 = rs).
  { rewrite Eg1.
    now destruct (build_walls_annotations rs
                    (set_rooms (init W H b um depth) rs)) as [_ ->]. }
  destruct (add_windows_spec _ _ _ _ E2)
    as (U2 & _ & _ & _ & _ & R2 & _).
  destruct (add_doors_spec _ _ _ _ E3)
    as (U3 & _ & _ & _ & _ & R3 & _).
  destruct (annot_steps_frame _ _ (add_smart_dimensions_steps _ _ _ _ _ E4))
    as (W4 & _ & R4 & _).
  assert (Hu : map unflagged (walls g') = map unflagged (walls g1))
    by (rewrite W4; congruence).
  assert (Hr : rooms g' = rs) by congruence.
  rewrite Hr, Hu. repeat split.
  - exact F1.
  - intros room e Hroom He. destruct (F4 room e Hroom He) as (c & Hc & Hn).
    exists c. split; [|assumption].
    rewrite (map_unflagged_coords _ _ Hu). exact Hc.
  - apply (f_equal (@List.length _)) in Hu. rewrite !length_map in Hu.
    rewrite Hu. cbn [walls set_rooms init List.length] in F2. lia.
Qed.

Lemma walls_are_room_edges_witness :
  exists g' t',
    generate fixed_width_extent (init 900 900 25 mm 1) door_tape
      = Some (g', t') /\
    List.length (walls g') = 7%nat /\
    (List.length (walls g') <= 4 * List.length (rooms g'))%nat.
Proof.
  destruct (generate fixed_width_extent (init 900 900 25 mm 1) door_tape)
    as [[g' t']|] eqn:E.
  - exists g', t'. split; [reflexivity|]. split.
    + vm_compute in E. injection E as <- _. reflexivity.
    + exact (proj2 (proj2 (walls_are_room_edges _ _ _ _ _ _ _ _ _ E))).
  - vm_compute in E. discriminate E.
Defined.

(** ** Window placer: where windows go *)

Lemma half_of_double (a : Z) : (2 * a) / 4 = a / 2.
Proof.
  symmetry. apply Z.div_unique with (r := 2 * (a mod 2)).
  - left. pose proof (Z.mod_pos_bound a 2). lia.
  - pose proof (Z.div_mod a 2). lia.
Qed.

Lemma py_int_half_sub (n L : Z) :
  0 <= n - L -> py_int (inject_Z n / 2 - inject_Z L / 2)%Q = (n - L) / 2.
Proof.
  intros H. unfold py_int. cbn.
  rewrite Z.quot_div_nonneg by lia. rewrite <- half_of_double. f_equal. lia.
Qed.

Lemma py_int_half_add (n L : Z) :
  0 <= n + L -> py_int (inject_Z n / 2 + inject_Z L / 2)%Q = (n + L) / 2.
Proof.
  intros H. unfold py_int. cbn.
  rewrite Z.quot_div_nonneg by lia. rewrite <- half_of_double. f_equal. lia.
Qed.

Lemma py_int_half (n : Z) : 0 <= n -> py_int (inject_Z n / 2)%Q = n / 2.
Proof.
  intros H. unfold py_int. cbn.
  rewrite Z.quot_div_nonneg by lia. f_equal. lia.
Qed.

Lemma standard_size_bounds (L : Z) : In L standard_sizes -> 30 <= L <= 90.
Proof. cbn. intuition lia. Qed.

(** One iteration of [add_windows] on a wall of the plan: nothing changes,
    or the wall gets [has_opening] and one window that fits it. *)
Lemma add_window_fits (w : Wall) (s : list Window * Z) t w' s' t' :
  plan_wall (w_coords w) ->
  add_window w s t = Some ((w', s'), t') ->
  (w' = w /\ s' = s) \/
  (is_shared w = false /\ has_opening w = false /\ w' = set_opening w /\
   exists win, s' = (fst s ++ [win], snd s + 1) /\
               win_wall_id win = w_id w /\ win_id win = snd s /\
               window_fits (w_coords w) win).
Proof.
  unfold add_window, plan_wall.
  destruct (is_shared w) eqn:Es; cbn [orb].
  { intros _ E. injection E as <- <- <-. now left. }
  destruct (has_opening w) eqn:Eo.
  { intros _ E. injection E as <- <- <-. now left. }
  unfold bind. rewrite random_spec.
  destruct (Qltb d0_4 _).
  2:{ intros _ E. injection E as <- <- <-. now left. }
  destruct (w_coords w) as [[[x1 y1] x2] y2].
  intros ((Hax & Hx & Hy) & Hx0 & Hy0).
  set (wall_len := if Z.abs (y1 - y2) <? 5 then Z.abs (x2 - x1)
                   else Z.abs (y2 - y1)).
  destruct (filter _ standard_sizes) as [|sz szs] eqn:Ef.
  { intros E. injection E as <- <- <-. now left. }
  unfold choice, bind. rewrite randbelow_spec. unfold ret.
  set (L := nth _ (sz :: szs) sz).
  assert (HL : In L (sz :: szs)).
  { apply nth_In.
    pose proof (Z.mod_pos_bound (hd 0 (tl t))
                  (Z.of_nat (List.length (sz :: szs)))
                  ltac:(cbn [List.length]; lia)). lia. }
  rewrite <- Ef in HL. apply filter_In in HL. destruct HL as [HLs HLt].
  apply Z.ltb_lt in HLt. fold wall_len in HLt.
  pose proof (standard_size_bounds L HLs) as HLb.
  intros E. injection E as <- <- <-. right.
  repeat split. eexists. repeat split.
  unfold window_fits. cbn [win_coords win_length]. fold L.
  unfold wall_len in HLt.
  destruct (Z.ltb_spec (Z.abs (y1 - y2)) 5) as [Hh|Hh].
  - assert (y1 = y2) by lia. subst y2.
    rewrite py_int_half_sub, py_int_half_add, py_int_half by lia.
    split; [assumption|]. left.
    pose proof (Z.div_mod (x1 + x2 - L) 2 ltac:(lia)).
    pose proof (Z.mod_pos_bound (x1 + x2 - L) 2 ltac:(lia)).
    pose proof (Z.div_mod (x1 + x2 + L) 2 ltac:(lia)).
    pose proof (Z.mod_pos_bound (x1 + x2 + L) 2 ltac:(lia)).
    pose proof (Z.div_mod (y1 + y1) 2 ltac:(lia)).
    pose proof (Z.mod_pos_bound (y1 + y1) 2 ltac:(lia)).
    assert ((x1 + x2 + L) mod 2 = (x1 + x2 - L) mod 2).
    { replace (x1 + x2 + L) with (x1 + x2 - L + L * 2) by lia.
      apply Z.mod_add. lia. }
    repeat split; lia.
  - assert (x1 = x2) by lia. subst x2.
    rewrite py_int_half_sub, py_int_half_add, py_int_half by lia.
    split; [assumption|]. right.
    pose proof (Z.div_mod (y1 + y2 - L) 2 ltac:(lia)).
    pose proof (Z.mod_pos_bound (y1 + y2 - L) 2 ltac:(lia)).
    pose proof (Z.div_mod (y1 + y2 + L) 2 ltac:(lia)).
    pose proof (Z.mod_pos_bound (y1 + y2 + L) 2 ltac:(lia)).
    pose proof (Z.div_mod (x1 + x1) 2 ltac:(lia)).
    pose proof (Z.mod_pos_bound (x1 + x1) 2 ltac:(lia)).
    assert ((y1 + y2 + L) mod 2 = (y1 + y2 - L) mod 2).
    { replace (y1 + y2 + L) with (y1 + y2 - L + L * 2) by lia.
      apply Z.mod_add. lia. }
    repeat split; lia.
Qed.

Lemma ids_from_cons (start : Z) (n : nat) :
  ids_from start (S n) = start :: ids_from (start + 1) n.
Proof.
  unfold ids_from. cbn [seq map]. f_equal; [lia|].
  rewrite <- seq_shift, map_map. apply map_ext. intros i. lia.
Qed.

Lemma ids_from_snoc (start : Z) (n : nat) :
  ids_from start (S n) = ids_from start n ++ [start + Z.of_nat n].
Proof.
  unfold ids_from. rewrite seq_S, map_app. reflexivity.
Qed.

Lemma opening_count_cons (w : Wall) (ws : list Wall) :
  opening_count (w :: ws)
  = ((if has_opening w then 1 else 0) + opening_count ws)%nat.
Proof. unfold opening_count. cbn [filter]. now destruct (has_opening w). Qed.

(** The loop of [add_windows] over walls with distinct identifiers: the
    windows it adds, in order. *)
Lemma add_windows_loop : forall (l : list Wall) s t l' s' t',
  NoDup (map w_id l) ->
  for_each add_window l s t = Some ((l', s'), t') ->
  exists new,
    s' = (fst s ++ new, snd s + Z.of_nat (List.length new)) /\
    map win_id new = ids_from (snd s) (List.length new) /\
    NoDup (map win_wall_id new) /\
    Forall (fun win =>
              exists w, In w l /\ In (set_opening w) l' /\
                        w_id w = win_wall_id win /\
                        is_shared w = false /\ has_opening w = false /\
                        (plan_wall (w_coords w) ->
                         window_fits (w_coords w) win)) new /\
    opening_count l' = (opening_count l + List.length new)%nat.
Proof.
  induction l as [|w l IH]; intros s t l' s' t' Hn E.
  - cbn in E. injection E as <- <- <-. exists []. cbn.
    rewrite app_nil_r, Z.add_0_r. destruct s. repeat split; constructor.
  - cbn [for_each] in E. unfold bind in E.
    destruct (add_window w s t) as [[[w1 s1] t1]|] eqn:Eb; [|discriminate].
    cbn [fst snd] in E.
    destruct (for_each add_window l s1 t1) as [[[l2 s2] t2]|] eqn:El;
      [|discriminate].
    cbn in E. injection E as <- <- <-.
    cbn [map] in Hn. inversion Hn as [|? ? Hnotin Hn']; subst.
    destruct (IH _ _ _ _ _ Hn' El)
      as (new & -> & Hids & Hnd & Hall & Hcount).
    assert (Hall' : Forall (fun win =>
              exists w0, In w0 (w :: l) /\ In (set_opening w0) (w1 :: l2) /\
                        w_id w0 = win_wall_id win /\
                        is_shared w0 = false /\ has_opening w0 = false /\
                        (plan_wall (w_coords w0) ->
                         window_fits (w_coords w0) win)) new).
    { eapply Forall_impl; [|exact Hall].
      intros win (w0 & H1 & H2 & H3). exists w0.
      split; [now right|]. split; [now right|]. exact H3. }
    destruct (add_window_spec _ _ _ _ _ _ Eb)
      as [[-> ->]|(Hs & Ho & -> & win & -> & Hwid & Hid)].
    + exists new. repeat split; try assumption.
      rewrite !opening_count_cons, Hcount. lia.
    + exists (win :: new). cbn [fst snd] in *. repeat split.
      * rewrite <- app_assoc. cbn [app List.length]. f_equal. lia.
      * cbn [map List.length]. rewrite ids_from_cons, Hid, Hids. reflexivity.
      * cbn [map]. constructor; [|assumption].
        intros Hin. apply Hnotin. rewrite <- Hwid.
        apply in_map_iff in Hin. destruct Hin as (win' & Hw' & Hin').
        rewrite Forall_forall in Hall.
        destruct (Hall _ Hin') as (w0 & Hw0 & _ & Hid0 & _).
        rewrite <- Hw', <- Hid0. now apply in_map.
      * constructor; [|assumption].
        exists w. split; [now left|]. split; [now left|].
        repeat split; auto. intros Hp.
        destruct (add_window_fits _ _ _ _ _ _ Hp Eb)
          as [[_ Hsame]|(_ & _ & _ & win2 & Hs2 & _ & _ & Hfit)].
        -- apply (f_equal (fun p => List.length (fst p))) in Hsame.
           cbn [fst] in Hsame. rewrite length_app in Hsame.
           cbn [List.length] in Hsame. lia.
        -- injection Hs2 as Hs2. apply app_inj_tail in Hs2.
           destruct Hs2 as [_ ->]. exact Hfit.
      * rewrite !opening_count_cons, Hcount, Ho. cbn [has_opening set_opening].
        cbn [List.length]. lia.
Qed.

(** ** Door placer: what it changes *)

Lemma door_host_closed (cx cy : Q) (w : Wall) :
  door_host cx cy w = true -> has_opening w = false.
Proof.
  unfold door_host. destruct (w_coords w) as [[[ex1 ey1] ex2] ey2].
  intros H. apply andb_true_iff in H. destruct H as [_ H].
  now apply negb_true_iff in H.
Qed.

(** One iteration of [add_doors] returns the walls as they were, or with
    [has_opening] set on one wall that had no opening. *)
Lemma add_door_step room ws t ws' t' :
  add_door room ws t = Some (ws', t') ->
  ws' = ws \/
  exists i tw, nth_error ws i = Some tw /\ has_opening tw = false /\
               ws' = set_nth i (set_opening tw) ws.
Proof.
  unfold add_door, bind. rewrite random_spec.
  destruct (Qltb d0_6 _).
  { intros E. injection E as <- <-. now left. }
  destruct (shuffle (candidates room) (tl t)) as [[cands t1]|]; [|discriminate].
  destruct (find_target cands ws) as [[i widx]|] eqn:Ef.
  2:{ intros E. injection E as <- <-. now left. }
  destruct (find_target_some _ _ _ _ Ef)
    as (before & c & after & w & _ & _ & _ & Hw & Hh & _).
  rewrite Hw. apply door_host_closed in Hh.
  destruct (w_coords w) as [[[wx1 wy1] wx2] wy2].
  destruct ((widx =? 0) || (widx =? 2));
    (match goal with
     | |- context [randint ?a ?b t1] => destruct (randint a b t1) as [[k t2]|]
     end; [|discriminate]);
    intros E; injection E as <- <-; right; exists i, w; tauto.
Qed.

Lemma set_nth_opening_count (tw : Wall) : forall (ws : list Wall) (i : nat),
  nth_error ws i = Some tw -> has_opening tw = false ->
  opening_count (set_nth i (set_opening tw) ws) = S (opening_count ws).
Proof.
  induction ws as [|w ws IH]; intros [|i] Hn Ho; cbn in Hn; try discriminate.
  - injection Hn as ->. cbn [set_nth]. rewrite !opening_count_cons, Ho.
    reflexivity.
  - cbn [set_nth]. rewrite !opening_count_cons, (IH i Hn Ho). lia.
Qed.

Lemma set_nth_keeps_open (tw w : Wall) : forall (ws : list Wall) (i : nat),
  nth_error ws i = Some tw -> has_opening tw = false ->
  In w ws -> has_opening w = true ->
  In w (set_nth i (set_opening tw) ws).
Proof.
  induction ws as [|a ws IH]; intros [|i] Hn Ho Hin Hw; cbn in Hn;
    try discriminate.
  - injection Hn as ->. destruct Hin as [->|Hin]; [congruence|now right].
  - cbn [set_nth]. destruct Hin as [->|Hin]; [now left|right; now apply IH].
Qed.

Lemma add_doors_loop_openings (rs : list (rect * string)) :
  forall ws t ws' t',
    add_doors_loop rs ws t = Some (ws', t') ->
    (opening_count ws <= opening_count ws'
     <= opening_count ws + List.length rs)%nat /\
    forall w, In w ws -> has_opening w = true -> In w ws'.
Proof.
  induction rs as [|room rs IH]; intros ws t ws' t' E.
  - injection E as <- <-. cbn. split; [lia|tauto].
  - cbn [add_doors_loop] in E. unfold bind in E.
    destruct (add_door room ws t) as [[ws1 t1]|] eqn:Ed; [|discriminate].
    destruct (IH _ _ _ _ E) as [Hc Hk]. cbn [List.length].
    destruct (add_door_step _ _ _ _ _ Ed) as [->|(i & tw & Hn & Ho & ->)].
    + split; [lia|assumption].
    + rewrite (set_nth_opening_count tw ws i Hn Ho) in Hc.
      split; [lia|]. intros w Hin Hw. apply Hk; [|assumption].
      now apply set_nth_keeps_open.
Qed.

(** ** Invariants of the wall graph builder *)

Section BuilderInvariant.

Variable I : generator -> Prop.

Hypothesis I_add_wall : forall g x1 y1 x2 y2 rcx rcy,
  I g -> I (_add_wall g x1 y1 x2 y2 rcx rcy).

Lemma add_room_walls_inv (g : generator) (room : rect * string) :
  I g -> I (add_room_walls g room).
Proof.
  destruct room as [[[[x y] w] h] lbl]. cbn [add_room_walls]. intros Hg.
  now repeat apply I_add_wall.
Qed.

Lemma build_walls_inv (rs : list (rect * string)) : forall g,
  I g -> I (fold_left add_room_walls rs g).
Proof.
  induction rs as [|room rs IH]; intros g Hg; [assumption|].
  cbn [fold_left]. apply IH. now apply add_room_walls_inv.
Qed.

Lemma layout_inv (g : generator) (t : rng) g1 t1 :
  (forall rs, I (set_rooms g rs)) ->
  generate_layout g t = Some (g1, t1) -> I g1.
Proof.
  intros Hg E. destruct (generate_layout_spec _ _ _ _ E)
    as (raw & ta & sel & tb & labels & _ & _ & _ & ->).
  apply build_walls_inv, Hg.
Qed.

End BuilderInvariant.

Lemma opening_count_map (ws ws' : list Wall) :
  map has_opening ws' = map has_opening ws ->
  opening_count ws' = opening_count ws.
Proof.
  revert ws'. induction ws as [|w ws IH]; intros [|w' ws'] H;
    try discriminate; [reflexivity|].
  cbn [map] in H. injection H as H1 H2.
  rewrite !opening_count_cons, H1, (IH _ H2). reflexivity.
Qed.

Lemma opening_count_app (ws ws' : list Wall) :
  opening_count (ws ++ ws') = (opening_count ws + opening_count ws')%nat.
Proof. unfold opening_count. now rewrite filter_app, length_app. Qed.

Lemma add_wall_openings g x1 y1 x2 y2 rcx rcy :
  opening_count (walls g) = 0%nat ->
  opening_count (walls (_add_wall g x1 y1 x2 y2 rcx rcy)) = 0%nat.
Proof.
  intros H.
  destruct (add_wall_cases g x1 y1 x2 y2 rcx rcy) as [(_ & Ho & _)|(-> & _)].
  - now rewrite (opening_count_map _ _ Ho).
  - rewrite opening_count_app, H. reflexivity.
Qed.

Lemma add_wall_consecutive g x1 y1 x2 y2 rcx rcy :
  wall_ids_consecutive g ->
  wall_ids_consecutive (_add_wall g x1 y1 x2 y2 rcx rcy).
Proof.
  unfold wall_ids_consecutive. intros [Hm Hc].
  destruct (add_wall_cases g x1 y1 x2 y2 rcx rcy)
    as [(Hu & _ & Hk)|(Hw & Hk)]; cbv zeta in *.
  - pose proof (f_equal (@List.length _) Hu) as Hl. rewrite !length_map in Hl.
    rewrite (map_unflagged_ids _ _ Hu), Hl, Hk. tauto.
  - rewrite Hw, Hk, map_app, length_app, Hm. cbn [map List.length w_id].
    rewrite Nat.add_1_r, ids_from_snoc, Hc. split; [reflexivity|lia].
Qed.

(** ** The layout stage never raises on a plan of ordinary size *)

Lemma select_rooms_total (g : generator) (raw : list rect) (t : rng) :
  exists sel t', select_rooms g raw t = Some (sel, t').
Proof.
  unfold select_rooms.
  destruct (3 <? Z.of_nat (List.length raw)); [|eexists _, _; reflexivity].
  unfold bind.
  destruct (randint_spec 1
              (Z.max 1 (int_times (Z.of_nat (List.length raw)) d0_4)) t
              ltac:(lia)) as (k & -> & _).
  eexists _, _. reflexivity.
Qed.

Lemma generate_layout_total (g : generator) (t : rng) :
  width g - 300 < 2 ^ 53 -> height g - 300 < 2 ^ 53 ->
  exists g1 t1, generate_layout g t = Some (g1, t1).
Proof.
  intros Hw Hh. unfold generate_layout, bind. cbv zeta.
  destruct (split_leaves_ok (150, 150, width g - 2 * 150, height g - 2 * 150)
              (complexity_depth g) t) as (l & ta & _ & -> & _);
    cbn [rect_w rect_h]; try lia.
  destruct (select_rooms_total g (map fst l) ta) as (sel & tb & ->).
  destruct (shuffle_total room_labels tb) as (labels & tc & ->).
  eexists _, _. reflexivity.
Qed.

(** The edges of the leaves of a rectangle in the quadrant of non-negative
    coordinates are walls of the plan. *)
Lemma split_leaves_plan (r : rect) (depth : nat) (t : rng) leaves t' :
  within r (0, 0, 2 ^ 53 - 1, 2 ^ 53 - 1) ->
  0 <= rect_w r -> 0 <= rect_h r ->
  _recursive_split r depth t = Some (leaves, t') ->
  Forall (fun lf => Forall plan_wall (room_edges lf)) leaves.
Proof.
  intros Hin Hw Hh E.
  destruct (split_induction
              (fun r _ l =>
                 within r (0, 0, 2 ^ 53 - 1, 2 ^ 53 - 1) ->
                 0 <= rect_w r -> 0 <= rect_h r ->
                 Forall (fun lf => Forall plan_wall (room_edges lf))
                        (map fst l)))
    with (depth := depth) (r := r) (t := t) as (l & t1 & E1 & T).
  - intros x y w h d _ Hi Hw0 Hh0. cbn [map fst rect_w rect_h] in *.
    constructor; [|constructor]. unfold within in Hi.
    cbn [room_edges]. unfold normalize.
    repeat (apply Forall_cons; [
      match goal with
      | |- plan_wall (if ?c then _ else _) => destruct c eqn:?
      end; unfold plan_wall; lia|]).
    apply Forall_nil.
  - intros x y w h d s l1 l2 Hw1 Hh1 _ Hs T1 T2 Hi Hw0 Hh0.
    unfold within in Hi. cbn [rect_w rect_h] in *.
    rewrite map_app. apply Forall_app. split.
    + apply T1; unfold within; cbn [rect_w rect_h]; lia.
    + apply T2; unfold within; cbn [rect_w rect_h]; lia.
  - intros x y w h d s l1 l2 Hw1 Hh1 _ Hs T1 T2 Hi Hw0 Hh0.
    unfold within in Hi. cbn [rect_w rect_h] in *.
    rewrite map_app. apply Forall_app. split.
    + apply T1; unfold within; cbn [rect_w rect_h]; lia.
    + apply T2; unfold within; cbn [rect_w rect_h]; lia.
  - destruct r as [[[x y] w] h]. unfold within in Hin.
    cbn [rect_w rect_h] in *. lia.
  - destruct r as [[[x y] w] h]. unfold within in Hin.
    cbn [rect_w rect_h] in *. lia.
  - rewrite traced_erase, E1 in E. injection E as <- <-.
    now apply T.
Qed.

(** ** The state after the window stage, in a run *)

Lemma run_windows W H b um depth t g1 t1 g2 t2 :
  generate_layout (init W H b um depth) t = Some (g1, t1) ->
  add_windows g1 t1 = Some (g2, t2) ->
  map win_id (windows g2) = ids_from 2000 (List.length (windows g2)) /\
  window_id_counter g2 = 2000 + Z.of_nat (List.length (windows g2)) /\
  NoDup (map win_wall_id (windows g2)) /\
  Forall (fun win =>
            exists w, In w (walls g2) /\ w_id w = win_wall_id win /\
                      has_opening w = true /\ is_shared w = false /\
                      (plan_wall (w_coords w) ->
                       window_fits (w_coords w) win)) (windows g2) /\
  opening_count (walls g2) = List.length (windows g2).
Proof.
  intros E1 E2.
  pose proof (layout_annotations _ _ _ _ E1) as Ha.
  unfold annotations in Ha. cbn [init width height base_offset g_unit_mode
    complexity_depth windows dimensions text_bboxes window_id_counter
    dim_id_counter] in Ha.
  injection Ha as _ _ _ _ _ Hwin _ _ Hctr _.
  assert (Hids : ids_ok g1).
  { apply (layout_ids _ _ _ _ E1). split; constructor. }
  assert (Hop : opening_count (walls g1) = 0%nat).
  { apply (layout_inv (fun g => opening_count (walls g) = 0%nat)) with
      (g := init W H b um depth) (t := t) (t1 := t1);
      [intros; now apply add_wall_openings|reflexivity|assumption]. }
  unfold add_windows, bind in E2.
  destruct (for_each add_window (walls g1) (windows g1, window_id_counter g1)
              t1) as [[[ws' s'] t1']|] eqn:Ef; [|discriminate].
  injection E2 as <- <-. cbn [windows walls window_id_counter].
  destruct (add_windows_loop _ _ _ _ _ _ (proj1 Hids) Ef)
    as (new & -> & Hi & Hnd & Hall & Hc).
  cbn [fst snd]. rewrite Hwin, Hctr in *. cbn [app].
  repeat split; try assumption.
  - eapply Forall_impl; [|exact Hall].
    intros win (w & _ & Hin & Hid & Hs & _ & Hfit).
    exists (set_opening w). repeat split; assumption.
  - rewrite Hc, Hop. reflexivity.
Qed.

Lemma annot_steps_counters g g' :
  annot_steps g g' ->
  wall_id_counter g' = wall_id_counter g /\
  window_id_counter g' = window_id_counter g.
Proof.
  induction 1 as [|g g1 g2 _ [IH1 IH2] Hs]; [tauto|].
  destruct Hs as [g1 w d b _ _]. cbn. tauto.
Qed.

Lemma run_plan_walls W H b um depth t g1 t1 :
  300 <= W < 2 ^ 53 -> 300 <= H < 2 ^ 53 ->
  generate_layout (init W H b um depth) t = Some (g1, t1) ->
  Forall (fun w => plan_wall (w_coords w)) (walls g1).
Proof.
  intros HW HH E1.
  apply (layout_walls_Forall plan_wall _ _ _ _ E1); [constructor|].
  cbn [width height init]. intros raw ta Er.
  apply (split_leaves_plan _ _ _ _ _) with (4 := Er);
    [unfold within; lia|cbn [rect_w]; lia|cbn [rect_h]; lia].
Qed.

(** X8.  In the output of a run on a plan of at least 300 x 300, every
    window lies on the wall it names: that wall is in the plan, is flagged
    [has_opening] and is not shared; the window has a standard length,
    spans exactly that length along the wall, stays at least 10 units away
    from both wall ends, and is centred on the wall up to one unit. *)
Theorem windows_fit_walls measure W H b um depth t g' t' :
  300 <= W < 2 ^ 53 -> 300 <= H < 2 ^ 53 ->
  generate measure (init W H b um depth) t = Some (g', t') ->
  Forall (fun win =>
            exists w, In w (walls g') /\ w_id w = win_wall_id win /\
                      has_opening w = true /\ is_shared w = false /\
                      window_fits (w_coords w) win) (windows g').
Proof.
  intros HW HH E.
  destruct (generate_stages _ _ _ _ _ E)
    as (g1 & t1 & g2 & t2 & g3 & t3 & E1 & E2 & E3 & E4).
  destruct (run_windows _ _ _ _ _ _ _ _ _ _ E1 E2) as (_ & _ & _ & Hall & _).
  pose proof (run_plan_walls _ _ _ _ _ _ _ _ HW HH E1) as Hp1.
  destruct (add_windows_spec _ _ _ _ E2) as (U2 & _).
  pose proof (Forall_coords_transfer plan_wall _ _ U2 Hp1) as Hp2.
  destruct (add_doors_spec _ _ _ _ E3) as (_ & _ & W3 & _).
  destruct (annot_steps_frame _ _ (add_smart_dimensions_steps _ _ _ _ _ E4))
    as (W4 & V4 & _).
  unfold add_doors, bind in E3.
  destruct (add_doors_loop (rooms g2) (walls g2) t2) as [[ws t2']|] eqn:El;
    [|discriminate].
  injection E3 as <- <-.
  destruct (add_doors_loop_openings _ _ _ _ _ El) as [_ Hkeep].
  rewrite V4, W4, W3. cbn [walls set_walls].
  eapply Forall_impl; [|exact Hall].
  intros win (w & Hin & Hid & Ho & Hs & Hfit). exists w.
  rewrite Forall_forall in Hp2.
  repeat split; auto.
Qed.

Lemma windows_fit_walls_witness :
  exists g' t',
    generate fixed_width_extent (init 400 400 25 mm_suffix 1) label_tape
      = Some (g', t') /\
    List.length (windows g') = 2%nat /\
    Forall (fun win =>
              exists w, In w (walls g') /\ w_id w = win_wall_id win /\
                        has_opening w = true /\ is_shared w = false /\
                        window_fits (w_coords w) win) (windows g').
Proof.
  eexists _, _. split; [vm_compute; reflexivity|].
  split; [vm_compute; reflexivity|].
  eapply (windows_fit_walls fixed_width_extent 400 400 25 mm_suffix 1
            label_tape); [lia|lia|].
  vm_compute. reflexivity.
Defined.

(** X9.  In the output of a run, no two windows name the same wall, and
    the windows carry the identifiers 2000, 2001, ... in the order in which
    they were placed; the window counter is the next free identifier. *)
Theorem one_window_per_wall measure W H b um depth t g' t' :
  generate measure (init W H b um depth) t = Some (g', t') ->
  NoDup (map win_wall_id (windows g')) /\
  map win_id (windows g') = ids_from 2000 (List.length (windows g')) /\
  window_id_counter g' = 2000 + Z.of_nat (List.length (windows g')).
Proof.
  intros E.
  destruct (generate_stages _ _ _ _ _ E)
    as (g1 & t1 & g2 & t2 & g3 & t3 & E1 & E2 & E3 & E4).
  destruct (run_windows _ _ _ _ _ _ _ _ _ _ E1 E2)
    as (Hids & Hctr & Hnd & _ & _).
  destruct (add_doors_spec _ _ _ _ E3) as (_ & _ & W3 & _).
  pose proof (add_smart_dimensions_steps _ _ _ _ _ E4) as Hsteps.
  destruct (annot_steps_frame _ _ Hsteps) as (_ & V4 & _).
  destruct (annot_steps_counters _ _ Hsteps) as (_ & C4).
  unfold add_doors, bind in E3.
  destruct (add_doors_loop (rooms g2) (walls g2) t2) as [[ws t2']|];
    [|discriminate].
  injection E3 as <- <-. cbn [windows set_walls window_id_counter] in *.
  rewrite V4, C4. tauto.
Qed.

Lemma one_window_per_wall_witness :
  exists g' t',
    generate fixed_width_extent (init 400 400 25 mm_suffix 1) label_tape
      = Some (g', t') /\
    map win_id (windows g') = [2000; 2001] /\
    NoDup (map win_wall_id (windows g')).
Proof.
  eexists _, _. split; [vm_compute; reflexivity|].
  split; [vm_compute; reflexivity|].
  eapply (one_window_per_wall fixed_width_extent 400 400 25 mm_suffix 1
            label_tape).
  vm_compute. reflexivity.
Defined.

(** X10.  In the output of a run, the walls flagged [has_opening] are the
    window hosts and at most one further wall per room (its door): their
    number is at least the number of windows and at most the number of
    windows plus the number of rooms. *)
Theorem openings_accounted measure W H b um depth t g' t' :
  generate measure (init W H b um depth) t = Some (g', t') ->
  (List.length (windows g') <= opening_count (walls g')
   <= List.length (windows g') + List.length (rooms g'))%nat.
Proof.
  intros E.
  destruct (generate_stages _ _ _ _ _ E)
    as (g1 & t1 & g2 & t2 & g3 & t3 & E1 & E2 & E3 & E4).
  destruct (run_windows _ _ _ _ _ _ _ _ _ _ E1 E2) as (_ & _ & _ & _ & Hc).
  destruct (add_doors_spec _ _ _ _ E3) as (_ & _ & W3 & _ & _ & R3 & _).
  destruct (annot_steps_frame _ _ (add_smart_dimensions_steps _ _ _ _ _ E4))
    as (W4 & V4 & R4 & _).
  unfold add_doors, bind in E3.
  destruct (add_doors_loop (rooms g2) (walls g2) t2) as [[ws t2']|] eqn:El;
    [|discriminate].
  injection E3 as <- <-.
  destruct (add_doors_loop_openings _ _ _ _ _ El) as [Hb _].
  cbn [walls windows rooms set_walls] in *.
  rewrite W4, V4, R4. cbn [walls windows rooms set_walls]. lia.
Qed.

Lemma openings_accounted_witness :
  exists g' t',
    generate fixed_width_extent (init 900 900 25 mm 1) door_tape
      = Some (g', t') /\
    List.length (windows g') = 0%nat /\ opening_count (walls g') = 2%nat /\
    (List.length (windows g') <= opening_count (walls g')
     <= List.length (windows g') + List.length (rooms g'))%nat.
Proof.
  eexists _, _. split; [vm_compute; reflexivity|].
  split; [vm_compute; reflexivity|]. split; [vm_compute; reflexivity|].
  eapply (openings_accounted fixed_width_extent 900 900 25 mm 1 door_tape).
  vm_compute. reflexivity.
Defined.

Lemma forallb_false {A} (f : A -> bool) (l : list A) :
  forallb f l = false -> exists a, In a l /\ f a = false.
Proof.
  induction l as [|a l IH]; [discriminate|]. cbn [forallb].
  destruct (f a) eqn:Ef.
  - intros H. destruct (IH H) as (x & Hx & Hf). exists x. split; [now right|assumption].
  - intros _. exists a. split; [now left|assumption].
Qed.

(** X11.  On a plan whose sides are below 2^53 a run can fail in one place
    only: the layout and the window placer return, and the door placer
    raises.  Then some room has an edge whose midpoint lies on a wall where
    a door of 35 units with its two margins of 5 does not fit. *)
Theorem run_fails_only_in_doors measure (g : generator) (t : rng) :
  width g < 2 ^ 53 -> height g < 2 ^ 53 ->
  generate measure g t = None ->
  exists g1 t1 g2 t2,
    generate_layout g t = Some (g1, t1) /\
    add_windows g1 t1 = Some (g2, t2) /\
    add_doors g2 t2 = None /\
    exists room c wc,
      In room (rooms g2) /\ In c (candidates room) /\
      In wc (map w_coords (walls g2)) /\
      on_wall (fst (midpoint c)) (snd (midpoint c)) wc = true /\
      door_fits (snd c) wc = false.
Proof.
  intros HW HH E.
  destruct (generate_layout_total g t ltac:(lia) ltac:(lia))
    as (g1 & t1 & E1).
  destruct (add_windows_total g1 t1) as (g2 & t2 & E2).
  exists g1, t1, g2, t2. split; [assumption|]. split; [assumption|].
  unfold generate, bind in E. rewrite E1, E2 in E.
  destruct (add_doors g2 t2) as [[g3 t3]|] eqn:E3.
  { destruct (add_smart_dimensions_total measure g3 t3) as (g4 & t4 & E4).
    rewrite E4 in E. discriminate. }
  split; [reflexivity|].
  destruct (forallb (door_safe (map w_coords (walls g2))) (rooms g2)) eqn:Es.
  { destruct (add_doors_total g2 t2 Es) as (g3 & t3 & E3'). congruence. }
  destruct (forallb_false _ _ Es) as (room & Hroom & Hs).
  unfold door_safe in Hs.
  destruct (forallb_false _ _ Hs) as (c & Hc & Hs1).
  destruct (forallb_false _ _ Hs1) as (wc & Hwc & Hs2).
  exists room, c, wc. repeat split; try assumption.
  - destruct (on_wall _ _ wc); [reflexivity|discriminate].
  - destruct (on_wall _ _ wc); [|discriminate].
    destruct (door_fits _ wc); [discriminate|reflexivity].
Qed.

Lemma run_fails_only_in_doors_witness :
  exists g1 t1 g2 t2,
    generate_layout (init 900 900 25 mm 4) raise_tape = Some (g1, t1) /\
    add_windows g1 t1 = Some (g2, t2) /\
    add_doors g2 t2 = None /\
    exists room c wc,
      In room (rooms g2) /\ In c (candidates room) /\
      In wc (map w_coords (walls g2)) /\
      on_wall (fst (midpoint c)) (snd (midpoint c)) wc = true /\
      door_fits (snd c) wc = false.
Proof.
  apply (run_fails_only_in_doors fixed_width_extent (init 900 900 25 mm 4)
           raise_tape); [cbn; lia|cbn; lia|].
  vm_compute. reflexivity.
Defined.

(** X12.  In the output of a run the walls carry the identifiers 100, 101,
    ... in the order in which they were first drawn, and the wall counter
    is the next free identifier: a segment that is drawn again as the edge
    of a neighbouring room consumes no identifier. *)
Theorem wall_identifiers_consecutive measure W H b um depth t g' t' :
  generate measure (init W H b um depth) t = Some (g', t') ->
  map w_id (walls g') = ids_from 100 (List.length (walls g')) /\
  wall_id_counter g' = 100 + Z.of_nat (List.length (walls g')).
Proof.
  intros E.
  destruct (generate_stages _ _ _ _ _ E)
    as (g1 & t1 & g2 & t2 & g3 & t3 & E1 & E2 & E3 & E4).
  assert (H1 : wall_ids_consecutive g1).
  { apply (layout_inv wall_ids_consecutive) with
      (g := init W H b um depth) (t := t) (t1 := t1);
      [intros; now apply add_wall_consecutive|split; reflexivity|assumption]. }
  destruct H1 as [Hm Hc].
  destruct (add_windows_spec _ _ _ _ E2) as (U2 & _).
  destruct (add_doors_spec _ _ _ _ E3) as (U3 & _).
  pose proof (add_smart_dimensions_steps _ _ _ _ _ E4) as Hsteps.
  destruct (annot_steps_frame _ _ Hsteps) as (W4 & _).
  destruct (annot_steps_counters _ _ Hsteps) as (C4 & _).
  assert (Hu : map unflagged (walls g') = map unflagged (walls g1))
    by (rewrite W4; congruence).
  pose proof (f_equal (@List.length _) Hu) as Hl. rewrite !length_map in Hl.
  rewrite (map_unflagged_ids _ _ Hu), Hl, C4. split; [assumption|].
  unfold add_doors, bind in E3.
  destruct (add_doors_loop (rooms g2) (walls g2) t2) as [[ws t2']|];
    [|discriminate].
  injection E3 as <- <-. cbn [wall_id_counter set_walls].
  unfold add_windows, bind in E2.
  destruct (for_each add_window (walls g1) (windows g1, window_id_counter g1)
              t1) as [[[ws' s'] t1']|]; [|discriminate].
  injection E2 as <- <-. cbn [wall_id_counter]. assumption.
Qed.

Lemma wall_identifiers_consecutive_witness :
  exists g' t',
    generate fixed_width_extent (init 900 900 25 mm 1) door_tape
      = Some (g', t') /\
    map w_id (walls g') = [100; 101; 102; 103; 104; 105; 106] /\
    wall_id_counter g' = 107.
Proof.
  eexists _, _. split; [vm_compute; reflexivity|].
  split; [vm_compute; reflexivity|].
  eapply (wall_identifiers_consecutive fixed_width_extent 900 900 25 mm 1
            door_tape).
  vm_compute. reflexivity.
Defined.


Lemma draw_dimension_frame measure g x1 y1 x2 y2 text lk owner t g' t' :
  _draw_dimension_safe measure g x1 y1 x2 y2 text lk owner t = Some (g', t') ->
  walls g' = walls g /\ windows g' = windows g /\
  base_offset g' = base_offset g /\ g_unit_mode g' = g_unit_mode g.
Proof.
  intros E. destruct (draw_dimension_cases _ _ _ _ _ _ _ _ _ _ _ _ E)
    as [->|(d & b & -> & _)]; cbn; tauto.
Qed.

(** A relation between the states of the annotator that holds across every
    call of [_draw_dimension_safe] it makes holds across the annotator. *)
Section AnnotatorCalls.

Variable measure : string -> bool -> Q -> Q -> box.
Variable R : generator -> generator -> Prop.

Hypothesis R_refl : forall g, R g g.
Hypothesis R_trans : forall g1 g2 g3, R g1 g2 -> R g2 g3 -> R g1 g3.
Hypothesis R_draw : forall g w off sx1 sy1 sx2 sy2 lk t g' t',
  In w (walls g) -> is_shared w = false ->
  base_offset g - 5 <= off <= base_offset g + 5 ->
  drawn_for g w (sx1, sy1, sx2, sy2, lk) ->
  _draw_dimension_safe measure g
    (sx1 + fst (wall_offset w off)) (sy1 + snd (wall_offset w off))
    (sx2 + fst (wall_offset w off)) (sy2 + snd (wall_offset w off))
    (_format_value (g_unit_mode g) (hypot (sx2 - sx1) (sy2 - sy1)))
    lk (w_id w) t = Some (g', t') ->
  R g g'.

Lemma draw_segments_calls (w : Wall) (win : Window) (off : Z)
  (segs : list segment) : forall g t g' t',
  In w (walls g) -> is_shared w = false ->
  base_offset g - 5 <= off <= base_offset g + 5 ->
  find (fun win => win_wall_id win =? w_id w) (windows g) = Some win ->
  incl segs (chain_segments w win) ->
  draw_segments measure g (fst (wall_offset w off)) (snd (wall_offset w off))
    (w_id w) segs t = Some (g', t') ->
  R g g'.
Proof.
  induction segs as [|[[[[sx1 sy1] sx2] sy2] lk] segs IH];
    intros g t g' t' Hin Hsh Hoff Hfind Hincl E.
  - injection E as <- <-. apply R_refl.
  - cbn [draw_segments] in E.
    assert (Hincl' : incl segs (chain_segments w win))
      by (intros s Hs; apply Hincl; now right).
    destruct (Qltb (hypot (sx2 - sx1) (sy2 - sy1)) 5) eqn:Elen.
    + eapply IH; eassumption.
    + unfold bind in E.
      destruct (_draw_dimension_safe _ _ _ _ _ _ _ _ _ t) as [[g1 t1]|] eqn:Ed;
        [|discriminate].
      destruct (draw_dimension_frame _ _ _ _ _ _ _ _ _ _ _ _ Ed)
        as (Hw & Hwin & Hb & Hu).
      apply R_trans with (g2 := g1).
      * eapply (R_draw g w off); try eassumption.
        right. exists win. repeat split; try assumption.
        apply Hincl. now left.
      * eapply IH; try eassumption.
        -- now rewrite Hw.
        -- now rewrite Hb.
        -- now rewrite Hwin.
Qed.

Lemma dimension_wall_calls strat g w t g' t' :
  In w (walls g) ->
  dimension_wall measure strat g w t = Some (g', t') ->
  R g g'.
Proof.
  intros Hin. unfold dimension_wall.
  destruct (is_shared w) eqn:Hsh.
  { intros E. injection E as <- <-. apply R_refl. }
  unfold bind at 1. rewrite random_spec.
  destruct (Qltb d0_7 _).
  { intros E. injection E as <- <-. apply R_refl. }
  match goal with
  | |- bind ?m ?k _ = _ -> _ => set (M := m); set (K := k)
  end.
  unfold bind at 1.
  destruct (M (tl t)) as [[wall_strat t1]|]; [|discriminate].
  subst K; cbv beta. clear M.
  pose proof (fun off => eq_refl (wall_offset w off)) as Hoff.
  unfold wall_offset at 2 in Hoff.
  destruct (w_coords w) as [[[wx1 wy1] wx2] wy2] eqn:Ec.
  unfold bind at 1.
  destruct (randint (-5) 5 t1) as [[j t2]|] eqn:Ej; [|discriminate].
  assert (Hj : -5 <= j <= 5).
  { destruct (randint_spec (-5) 5 t1 ltac:(lia)) as (k & Hk & Hr).
    rewrite Hk in Ej. injection Ej as <- _. exact Hr. }
  destruct (room_center w) as [rcx rcy].
  specialize (Hoff (base_offset g + j)). rewrite <- Hoff. clear Hoff.
  destruct (wall_offset w (base_offset g + j)) as [base_dx base_dy] eqn:Eoff.
  assert (Hb : base_offset g - 5 <= base_offset g + j <= base_offset g + 5)
    by lia.
  assert (Hwhole : forall t0,
    _draw_dimension_safe measure g (wx1 + base_dx) (wy1 + base_dy)
      (wx2 + base_dx) (wy2 + base_dy)
      (_format_value (g_unit_mode g) (hypot (wx2 - wx1) (wy2 - wy1)))
      (wall_link (w_id w)) (w_id w) t0 = Some (g', t') -> R g g').
  { intros t0 E.
    apply (R_draw g w (base_offset g + j) wx1 wy1 wx2 wy2
             (wall_link (w_id w)) t0 g' t'); try assumption.
    - left. rewrite Ec. split; reflexivity.
    - rewrite Eoff. exact E. }
  destruct (find _ (windows g)) as [win|] eqn:Ef; [|apply Hwhole].
  destruct wall_strat; [|apply Hwhole|apply Hwhole].
  pose proof (eq_refl (chain_segments w win)) as Hch.
  unfold chain_segments at 2 in Hch. rewrite Ec in Hch.
  destruct (win_coords win) as [[[win_x1 win_y1] win_x2] win_y2].
  intros E.
  apply (draw_segments_calls w win (base_offset g + j)
           (chain_segments w win) g t2 g' t'); try assumption.
  - apply incl_refl.
  - rewrite Eoff. cbn [fst snd]. rewrite Hch.
    destruct (Z.abs (wy1 - wy2) <? 5).
    + destruct (sorted4 wx1 wx2 win_x1 win_x2) as [[[p0 p1] p2] p3]. exact E.
    + destruct (sorted4 wy1 wy2 win_y1 win_y2) as [[[p0 p1] p2] p3]. exact E.
Qed.

Lemma dimension_walls_calls strat ws : forall g t g' t',
  incl ws (walls g) ->
  dimension_walls measure strat g ws t = Some (g', t') ->
  R g g'.
Proof.
  induction ws as [|w ws IH]; intros g t g' t' Hin E.
  - injection E as <- <-. apply R_refl.
  - cbn [dimension_walls] in E. unfold bind in E.
    destruct (dimension_wall measure strat g w t) as [[g1 t1]|] eqn:Ew;
      [|discriminate].
    apply R_trans with (g2 := g1).
    + eapply dimension_wall_calls; [|exact Ew]. apply Hin. now left.
    + eapply IH; [|exact E].
      destruct (annot_steps_frame _ _
                  (dimension_wall_steps _ _ _ _ _ _ _ (Hin w (or_introl eq_refl)) Ew))
        as (-> & _).
      intros a Ha. apply Hin. now right.
Qed.

Lemma add_smart_dimensions_calls g t g' t' :
  add_smart_dimensions measure g t = Some (g', t') -> R g g'.
Proof.
  unfold add_smart_dimensions, bind.
  destruct (choice [detailed; simple; mixed] t) as [[strat t1]|];
    [|discriminate].
  apply dimension_walls_calls. apply incl_refl.
Qed.

End AnnotatorCalls.







Lemma surveyed_refl g : surveyed g g.
Proof.
  repeat split. exists []. rewrite app_nil_r. split; [reflexivity|].
  constructor.
Qed.

Lemma surveyed_trans g1 g2 g3 : surveyed g1 g2 -> surveyed g2 g3 -> surveyed g1 g3.
Proof.
  intros (Hw & Hv & Hb & Hu & ds & Hd & Hs)
         (Hw' & Hv' & Hb' & Hu' & ds' & Hd' & Hs').
  rewrite Hw, Hv, Hb, Hu in *.
  repeat split; try congruence.
  exists (ds ++ ds'). split; [rewrite Hd', Hd; now rewrite app_assoc|].
  intros Hr. apply Forall_app. split; auto.
Qed.

Lemma sorted4_inside (x1 x2 a c : Z) :
  x1 < a -> a < c -> c < x2 -> sorted4 x1 x2 a c = (x1, a, c, x2).
Proof.
  intros H1 H2 H3. unfold sorted4. cbn [fold_right insert_asc].
  repeat match goal with
  | |- context [?p <? ?q] =>
      destruct (Z.ltb_spec p q); try lia; cbn [insert_asc]
  end.
  reflexivity.
Qed.

Lemma Qltb_half (q : Q) (y : Z) :
  Qltb q (inject_Z (y + y) / 2) = Qltb q (inject_Z y).
Proof.
  unfold Qltb. f_equal.
  destruct (Qle_bool (inject_Z (y + y) / 2) q) eqn:E1,
           (Qle_bool (inject_Z y) q) eqn:E2; try reflexivity.
  - apply Qle_bool_iff in E1.
    assert (H : Qle_bool (inject_Z y) q = true).
    { apply Qle_bool_iff. eapply Qle_trans; [|exact E1].
      unfold Qle, Qdiv, Qmult, Qinv, inject_Z; cbn. lia. }
    congruence.
  - apply Qle_bool_iff in E2.
    assert (H : Qle_bool (inject_Z (y + y) / 2) q = true).
    { apply Qle_bool_iff. eapply Qle_trans; [|exact E2].
      unfold Qle, Qdiv, Qmult, Qinv, inject_Z; cbn. lia. }
    congruence.
Qed.

Lemma hypot_span (sx1 sy1 sx2 sy2 : Z) :
  sx1 = sx2 \/ sy1 = sy2 ->
  hypot (sx2 - sx1) (sy2 - sy1) = inject_Z (span (sx1, sy1, sx2, sy2)).
Proof.
  intros H. unfold hypot, span.
  destruct (Z.eqb_spec (sy2 - sy1) 0) as [E|E].
  - f_equal. lia.
  - destruct (Z.eqb_spec (sx2 - sx1) 0) as [E'|E']; [f_equal; lia|lia].
Qed.

Lemma wall_offset_out (w : Wall) (off sx1 sy1 sx2 sy2 : Z) :
  plan_wall (w_coords w) -> tall_or_flat (w_coords w) ->
  (sx1 + fst (wall_offset w off), sy1 + snd (wall_offset w off),
   sx2 + fst (wall_offset w off), sy2 + snd (wall_offset w off))
  = pushed_out w off (sx1, sy1, sx2, sy2).
Proof.
  unfold plan_wall, tall_or_flat, wall_offset, pushed_out.
  destruct (w_coords w) as [[[x1 y1] x2] y2].
  destruct (room_center w) as [rcx rcy].
  intros ((Hax & Hx & Hy) & _) Htf.
  destruct (Z.eqb_spec y1 y2) as [<-|Hne].
  - destruct (Z.ltb_spec (Z.abs (y1 - y1)) 5); [|lia].
    rewrite Qltb_half. cbn [fst snd].
    destruct (Qltb rcy (inject_Z y1)); repeat f_equal; lia.
  - destruct (Z.ltb_spec (Z.abs (y1 - y2)) 5); [lia|].
    assert (x1 = x2) by lia. subst x2.
    rewrite Qltb_half. cbn [fst snd].
    destruct (Qltb rcx (inject_Z x1)); repeat f_equal; lia.
Qed.

Lemma chain_segments_parts (w : Wall) (win : Window) :
  plan_wall (w_coords w) -> tall_or_flat (w_coords w) ->
  window_fits (w_coords w) win ->
  let '(x1, y1, x2, y2) := w_coords w in
  let '(a, b, c, d) := win_coords win in
  chain_segments w win
  = [(x1, y1, a, b, wall_link (w_id w));
     (a, b, c, d, window_link (win_id win));
     (c, d, x2, y2, wall_link (w_id w))] /\
  ((y1 = y2 /\ b = y1 /\ d = y1) \/ (x1 = x2 /\ a = x1 /\ c = x1)).
Proof.
  unfold plan_wall, tall_or_flat, window_fits, chain_segments.
  destruct (w_coords w) as [[[x1 y1] x2] y2].
  destruct (win_coords win) as [[[a b] c] d].
  intros ((Hax & Hx & Hy) & _) Htf (HL & Hfit).
  apply standard_size_bounds in HL.
  destruct (Z.ltb_spec (Z.abs (y1 - y2)) 5) as [Hh|Hh].
  - assert (y1 = y2) by lia. subst y2.
    destruct Hfit as [(_ & -> & -> & Hlen & Ha & Hc & _)|Hv]; [|lia].
    rewrite sorted4_inside by lia. split; [reflexivity|]. left. tauto.
  - assert (x1 = x2) by lia. subst x2.
    destruct Hfit as [Hhz|(_ & -> & -> & Hlen & Hb & Hd & _)]; [lia|].
    rewrite sorted4_inside by lia. split; [reflexivity|]. right. tauto.
Qed.

Lemma surveyed_draw measure g w off sx1 sy1 sx2 sy2 lk t g' t' :
  In w (walls g) -> is_shared w = false ->
  base_offset g - 5 <= off <= base_offset g + 5 ->
  drawn_for g w (sx1, sy1, sx2, sy2, lk) ->
  _draw_dimension_safe measure g
    (sx1 + fst (wall_offset w off)) (sy1 + snd (wall_offset w off))
    (sx2 + fst (wall_offset w off)) (sy2 + snd (wall_offset w off))
    (_format_value (g_unit_mode g) (hypot (sx2 - sx1) (sy2 - sy1)))
    lk (w_id w) t = Some (g', t') ->
  surveyed g g'.
Proof.
  intros Hin Hsh Hoff Hdr E.
  destruct (draw_dimension_cases _ _ _ _ _ _ _ _ _ _ _ _ E)
    as [->|(d & b & -> & Hl & Hv & Hk & _)]; [apply surveyed_refl|].
  unfold surveyed. cbn [push walls windows base_offset g_unit_mode dimensions].
  repeat split. exists [d]. split; [reflexivity|].
  intros (Hws & Hnd & Hwins). constructor; [|constructor].
  rewrite Forall_forall in Hws. destruct (Hws w Hin) as [Hp Htf].
  rewrite wall_offset_out in Hl by assumption.
  exists w, off, (sx1, sy1, sx2, sy2).
  split; [assumption|]. split; [assumption|]. split; [assumption|].
  assert (Hpart : measured_part (windows g) w (sx1, sy1, sx2, sy2) lk /\
                  (sx1 = sx2 \/ sy1 = sy2)).
  { destruct Hdr as [[Hseg ->]|(win & Hf & Hseg & _)].
    - split; [left; split; [assumption|reflexivity]|].
      unfold plan_wall in Hp. rewrite <- Hseg in Hp. tauto.
    - apply find_some in Hf. destruct Hf as [Hwin Hid].
      apply Z.eqb_eq in Hid.
      rewrite Forall_forall in Hwins.
      destruct (Hwins win Hwin) as (w' & Hin' & Hid' & Hfit).
      assert (Hc : w_coords w' = w_coords w).
      { apply (pairs_agree (map (fun w => (w_id w, w_coords w)) (walls g))
                 (w_id w)).
        - now rewrite map_map.
        - apply in_map_iff. exists w'. split; [|assumption].
          f_equal. congruence.
        - apply in_map_iff. now exists w. }
      rewrite Hc in Hfit.
      pose proof (chain_segments_parts w win Hp Htf Hfit) as Hch.
      unfold measured_part.
      destruct (w_coords w) as [[[x1 y1] x2] y2].
      destruct (win_coords win) as [[[a b'] c] d'] eqn:Ewin.
      destruct Hch as [Hch Hal]. rewrite Hch in Hseg.
      unfold plan_wall in Hp.
      split.
      + right. exists win. split; [assumption|]. split; [assumption|].
        rewrite Ewin.
        destruct Hseg as [Hs|[Hs|[Hs|[]]]]; injection Hs as <- <- <- <- <-;
          tauto.
      + destruct Hseg as [Hs|[Hs|[Hs|[]]]]; injection Hs as <- <- <- <- <-;
          lia. }
  destruct Hpart as [Hpart Hal].
  rewrite Hk. split; [assumption|]. split; [assumption|].
  rewrite Hv. now rewrite hypot_span.
Qed.

(** The records of a run survey its walls. *)
Lemma run_survey measure W H b um depth t g' t' :
  300 <= W < 2 ^ 53 -> 305 <= H < 2 ^ 53 ->
  generate measure (init W H b um depth) t = Some (g', t') ->
  Forall (surveys (walls g') (windows g') (b - 5) (b + 5) um)
         (dimensions g').
Proof.
  intros HW HH E.
  destruct (generate_stages _ _ _ _ _ E)
    as (g1 & t1 & g2 & t2 & g3 & t3 & E1 & E2 & E3 & E4).
  destruct (before_annotation _ _ _ _ _ _ _ _ _ _ _ _ E1 E2 E3)
    as (Hids & U3 & _ & _ & Hd3 & _).
  pose proof (layout_annotations _ _ _ _ E1) as Ha.
  unfold annotations in Ha. cbn [init width height base_offset g_unit_mode
    complexity_depth windows dimensions text_bboxes window_id_counter
    dim_id_counter] in Ha.
  injection Ha as _ _ Hb1 Hu1 _ _ _ _ _ _.
  destruct (add_windows_spec _ _ _ _ E2)
    as (U2 & _ & _ & _ & _ & _ & _ & _ & Hb2 & Hu2 & _).
  destruct (add_doors_spec _ _ _ _ E3)
    as (_ & _ & W3 & _ & _ & _ & _ & _ & Hb3 & Hu3 & _).
  destruct (add_smart_dimensions_calls measure surveyed surveyed_refl
              surveyed_trans (surveyed_draw measure) _ _ _ _ E4)
    as (Hw4 & Hv4 & Hb4 & Hu4 & ds & Hd & Hs).
  rewrite Hd3 in Hd. cbn [app] in Hd.
  rewrite Hd, Hw4, Hv4.
  replace b with (base_offset g3) by congruence.
  replace um with (g_unit_mode g3) by congruence.
  apply Hs. clear Hs.
  assert (Hp1 : Forall (fun w => plan_wall (w_coords w)) (walls g1))
    by (eapply run_plan_walls; [exact HW| |exact E1]; lia).
  assert (Ht1 : Forall (fun w => tall_or_flat (w_coords w)) (walls g1)).
  { apply (layout_walls_Forall tall_or_flat _ _ _ _ E1); [constructor|].
    cbn [width height complexity_depth init]. intros raw ta Eraw.
    destruct (split_leaves_ok (150, 150, W - 2 * 150, H - 2 * 150) depth t)
      as (l & tl' & _ & Es & Hl); cbn [rect_w rect_h]; try lia.
    rewrite Es in Eraw. injection Eraw as <- <-.
    apply Forall_map. eapply Forall_impl; [|exact Hl].
    intros [lf d] [_ Hsz]. cbn [fst]. apply room_edges_tall.
    destruct Hsz as [->|[_ Hh]]; cbn [rect_h]; lia. }
  pose proof (Forall_coords_transfer plan_wall _ _ U3 Hp1) as Hp3.
  pose proof (Forall_coords_transfer tall_or_flat _ _ U3 Ht1) as Ht3.
  split; [|split].
  - apply Forall_forall. intros w Hw. rewrite Forall_forall in Hp3, Ht3.
    split; auto.
  - rewrite (map_unflagged_ids _ _ U3). exact (proj1 Hids).
  - destruct (run_windows _ _ _ _ _ _ _ _ _ _ E1 E2)
      as (_ & _ & _ & Hall & _).
    rewrite W3. eapply Forall_impl; [|exact Hall].
    intros win (w & Hin & Hid & _ & _ & Hfit).
    assert (Hp2 : Forall (fun w => plan_wall (w_coords w)) (walls g2))
      by (apply (Forall_coords_transfer plan_wall _ _ U2 Hp1)).
    rewrite Forall_forall in Hp2. specialize (Hfit (Hp2 w Hin)).
    (* the wall of [g3] with the same identifier has the same endpoints *)
    assert (Hu32 : map unflagged (walls g3) = map unflagged (walls g2))
      by (destruct (add_doors_spec _ _ _ _ E3) as (H0 & _); exact H0).
    assert (Hin3 : In (unflagged w) (map unflagged (walls g3)))
      by (rewrite Hu32; now apply in_map).
    apply in_map_iff in Hin3. destruct Hin3 as (w3 & Hw3 & Hin3).
    exists w3. split; [assumption|].
    unfold unflagged in Hw3. injection Hw3 as Hi Hc _.
    rewrite Hi, Hc. tauto.
Qed.

(** X14.  In the output of a run on a plan of at least 300 x 305, every
    dimension record surveys a part of an unshared wall: the whole wall,
    or (for a wall with a window) the stretch before the window, the
    window, or the stretch after it, and is linked to the wall or, for the
    window, to the window.  Its line is that part moved perpendicular to
    the wall by a distance within 5 of the base offset, to the side facing
    away from the centre of the wall's room, and its text is the formatted
    length of the part. *)
Theorem dimensions_survey_walls measure W H b um depth t g' t' :
  300 <= W < 2 ^ 53 -> 305 <= H < 2 ^ 53 ->
  generate measure (init W H b um depth) t = Some (g', t') ->
  Forall (surveys (walls g') (windows g') (b - 5) (b + 5) um)
         (dimensions g').
Proof. apply run_survey. Qed.

Lemma dimensions_survey_walls_witness :
  exists g' t',
    generate fixed_width_extent (init 400 400 25 mm_suffix 1) label_tape
      = Some (g', t') /\
    List.length (dimensions g') = 4%nat /\
    Forall (surveys (walls g') (windows g') (25 - 5) (25 + 5) mm_suffix)
           (dimensions g').
Proof.
  eexists _, _. split; [vm_compute; reflexivity|].
  split; [vm_compute; reflexivity|].
  eapply (dimensions_survey_walls fixed_width_extent 400 400 25 mm_suffix 1
            label_tape); [lia|lia|].
  vm_compute. reflexivity.
Defined.

(** ** Unit formatter *)

(** Rounding a positive rational to double does not cross a dyadic rational
    [k / 2^j] with [k] below [2^53]. *)
Lemma to_double_pos_le_dyadic (n d k j : Z) :
  0 < n -> 0 < d -> 0 <= j <= 52 -> 0 <= k < 2 ^ 53 -> n * 2 ^ j <= k * d ->
  (to_double_pos n d <= k # Z.to_pos (2 ^ j))%Q.
Proof.
  intros Hn Hd Hj Hk Hle. unfold to_double_pos.
  set (e := binade n d).
  assert (Hpj : 0 < 2 ^ j) by (apply Z.pow_pos_nonneg; lia).
  destruct (Z.leb_spec 0 (52 - e)) as [Hs|Hs].
  - rewrite (Z.max_r 0 (52 - e)) by lia.
    rewrite (Z.max_l 0 (- (52 - e))) by lia.
    rewrite Z.pow_0_r, Z.mul_1_r.
    assert (Hp : 0 < 2 ^ (52 - e)) by (apply Z.pow_pos_nonneg; lia).
    destruct (round_half_even_bounds (n * 2 ^ (52 - e)) d Hd) as [[_ Hhi] Hex].
    unfold Qle; cbn [Qnum Qden]. rewrite !Z2Pos.id by assumption.
    set (N := n * 2 ^ (52 - e)) in *.
    set (m := round_half_even N d) in *.
    (* m * 2^j <= k * 2^(52 - e) *)
    destruct (Z.le_gt_cases j (52 - e)) as [Hjs|Hjs].
    + assert (Hsplit : 2 ^ (52 - e) = 2 ^ (52 - e - j) * 2 ^ j).
      { rewrite <- Z.pow_add_r by lia. f_equal. lia. }
      assert (Hq : 0 < 2 ^ (52 - e - j)) by (apply Z.pow_pos_nonneg; lia).
      set (K := k * 2 ^ (52 - e - j)).
      assert (HN : N <= K * d).
      { unfold N, K. rewrite Hsplit.
        replace (n * (2 ^ (52 - e - j) * 2 ^ j))
          with ((n * 2 ^ j) * 2 ^ (52 - e - j)) by ring.
        replace (k * 2 ^ (52 - e - j) * d)
          with ((k * d) * 2 ^ (52 - e - j)) by ring.
        apply Z.mul_le_mono_nonneg_r; lia. }
      assert (Hm : m <= K).
      { pose proof (Z.div_mod N d ltac:(lia)) as Hdm.
        pose proof (Z.mod_pos_bound N d Hd) as Hmd.
        destruct (Z.eq_dec (N mod d) 0) as [H0|H0].
        - rewrite (Hex H0).
          apply Z.div_le_upper_bound; [assumption|]. lia.
        - assert (N / d < K); [|lia].
          apply Z.div_lt_upper_bound; [assumption|].
          assert (N <> d * K); [|lia].
          intros Heq. apply H0. rewrite Heq, Z.mul_comm.
          apply Z.mod_mul. lia. }
      rewrite Hsplit. unfold K in Hm.
      replace (k * (2 ^ (52 - e - j) * 2 ^ j))
        with ((k * 2 ^ (52 - e - j)) * 2 ^ j) by ring.
      apply Z.mul_le_mono_nonneg_r; lia.
    + (* the value is at least 2^e, so k is at least 2^(e + j) > 2^52 *)
      exfalso.
      pose proof (binade_lower n d Hn Hd ltac:(fold e; lia)) as Hb.
      fold e in Hb.
      assert (Hge : 2 ^ 53 <= 2 ^ e * 2 ^ j).
      { rewrite <- Z.pow_add_r by lia. apply Z.pow_le_mono_r; lia. }
      assert (0 < 2 ^ e) by (apply Z.pow_pos_nonneg; lia).
      assert (d * (2 ^ e * 2 ^ j) <= k * d) by nia.
      nia.
  - exfalso.
    pose proof (binade_lower n d Hn Hd ltac:(fold e; lia)) as Hb. fold e in Hb.
    assert (2 ^ 53 <= 2 ^ e) by (apply Z.pow_le_mono_r; lia).
    assert (d * 2 ^ 53 * 2 ^ j <= k * d * 1) by nia.
    nia.
Qed.

Lemma float_of_int_exact (i : Z) :
  0 <= i < 2 ^ 53 -> (float_of_int i == inject_Z i)%Q.
Proof.
  intros Hi. unfold float_of_int. apply Qle_antisym.
  - apply to_double_le; [assumption| |apply Qle_refl].
    unfold Qle; cbn [Qnum Qden inject_Z]; lia.
  - apply to_double_ge; [assumption|apply Qle_refl].
Qed.

Lemma py_int_exact (q : Q) (k : Z) : 0 <= k -> (q == inject_Z k)%Q -> py_int q = k.
Proof.
  intros Hk Hq. apply Z.le_antisymm.
  - apply py_int_le; [|rewrite Hq; apply Qle_refl].
    rewrite Hq. unfold Qle; cbn [Qnum Qden inject_Z]; lia.
  - apply py_int_ge; [assumption|rewrite Hq; apply Qle_refl].
Qed.

(** [int(px_length * 10)] for an integer length. *)
Lemma mm_val_tenfold (n : Z) :
  0 <= n -> 10 * n < 2 ^ 53 -> py_int (fmul (inject_Z n) 10) = 10 * n.
Proof.
  intros Hn Hb. apply py_int_exact; [lia|]. unfold fmul.
  assert (Hv : (inject_Z n * 10 == inject_Z (10 * n))%Q).
  { unfold Qeq, Qmult; cbn [Qnum Qden inject_Z]. lia. }
  apply Qle_antisym.
  - apply to_double_le; [lia| |rewrite Hv; apply Qle_refl].
    rewrite Hv. unfold Qle; cbn [Qnum Qden inject_Z]; lia.
  - apply to_double_ge; [lia|rewrite Hv; apply Qle_refl].
Qed.

(** [int(mm_val / 25.4)] is the floor of the exact quotient: the error of
    the literal 25.4 and of the division is too small to reach the next
    integer. *)
Lemma inches_floor (mm_val : Z) :
  0 <= mm_val < 2 ^ 44 ->
  py_int (fdiv (float_of_int mm_val) d25_4) = 5 * mm_val / 127.
Proof.
  intros Hm.
  pose proof (float_of_int_exact mm_val ltac:(lia)) as Ha.
  set (a := float_of_int mm_val) in *.
  set (q := 5 * mm_val / 127).
  assert (Hq : 127 * q <= 5 * mm_val < 127 * q + 127).
  { pose proof (Z.div_mod (5 * mm_val) 127 ltac:(lia)).
    pose proof (Z.mod_pos_bound (5 * mm_val) 127 ltac:(lia)).
    unfold q. lia. }
  assert (Hq0 : 0 <= q) by (apply Z.div_pos; lia).
  unfold Qeq in Ha. cbn [inject_Z Qnum Qden] in Ha.
  rewrite Z.mul_1_r in Ha.
  unfold fdiv, Qdiv, d25_4, Qinv, Qmult. cbn [Qnum Qden].
  set (da := Zpos (Qden a)) in *.
  assert (Hda : 0 < da) by (unfold da; lia).
  apply Z.le_antisymm.
  - (* below q + 1 *)
    unfold to_double. cbn [Qnum Qden].
    destruct (Qnum a * 140737488355328) as [|p|p] eqn:Ep.
    + cbn. assumption.
    + rewrite <- Ep. rewrite Pos2Z.inj_mul. fold da.
      pose proof (to_double_pos_le_dyadic
                    (Qnum a * 140737488355328) (da * 3574732204225331)
                    (128 * q + 127) 7) as Hd.
      assert (Hle : (to_double_pos (Qnum a * 140737488355328)
                       (da * 3574732204225331)
                     <= (128 * q + 127) # Z.to_pos (2 ^ 7))%Q).
      { apply Hd; try lia. rewrite Ha.
        change (2 ^ 7) with 128. nia. }
      assert (H0 : (0 <= to_double_pos (Qnum a * 140737488355328)
                       (da * 3574732204225331))%Q).
      { apply Qle_trans with (inject_Z 0); [apply Qle_refl|].
        apply to_double_pos_ge; lia. }
      set (x := to_double_pos _ _) in *.
      unfold Qle in Hle, H0. cbn [Qnum Qden inject_Z] in Hle, H0.
      change (Zpos (Z.to_pos (2 ^ 7))) with 128 in Hle.
      unfold py_int.
      assert (Z.quot (Qnum x) (Zpos (Qden x)) < q + 1); [|lia].
      rewrite Z.quot_div_nonneg by lia.
      apply Z.div_lt_upper_bound; lia.
    + exfalso. lia.
  - (* at least q *)
    apply py_int_ge; [assumption|].
    apply to_double_ge; [lia|].
    unfold Qle. cbn [Qnum Qden inject_Z]. rewrite Pos2Z.inj_mul. fold da.
    rewrite Ha. nia.
Qed.

(** X15.  For an integer length of [n] pixels (below 2^53 / 10) the label
    in the mm modes is ten times the length: [str(10 n)], followed by the
    suffix in the [mm_suffix] mode. *)
Theorem format_value_metric (n : Z) :
  0 <= n -> 10 * n < 2 ^ 53 ->
  _format_value mm (inject_Z n) = str (10 * n) /\
  _format_value mm_suffix (inject_Z n) = (str (10 * n) ++ " mm")%string.
Proof.
  intros Hn Hb. unfold _format_value. cbv zeta.
  rewrite (mm_val_tenfold n Hn Hb). split; reflexivity.
Qed.

Lemma format_value_metric_witness :
  _format_value mm (inject_Z 250) = str (10 * 250) /\
  _format_value mm_suffix (inject_Z 250) = (str (10 * 250) ++ " mm")%string.
Proof. apply (format_value_metric 250); lia. Defined.

(** X16.  For an integer length of [n] pixels (below 2^44 / 10) the label
    in the imperial modes is exact in spite of the float division by 25.4:
    the inch mode prints the floor of [100 n / 25.4], that is of
    [50 n / 127], and the ft mode prints the same number of inches as
    feet and remaining inches. *)
Theorem format_value_imperial (n : Z) :
  0 <= n -> 10 * n < 2 ^ 44 ->
  let total_inches := 50 * n / 127 in
  _format_value inch (inject_Z n) = (str total_inches ++ dquote)%string /\
  _format_value ft (inject_Z n)
  = (str (total_inches / 12) ++ "'" ++ str (total_inches mod 12)
     ++ dquote)%string.
Proof.
  intros Hn Hb. unfold _format_value. cbv zeta.
  rewrite (mm_val_tenfold n Hn ltac:(lia)).
  rewrite (inches_floor (10 * n) ltac:(lia)).
  replace (5 * (10 * n)) with (50 * n) by lia.
  split; reflexivity.
Qed.

Lemma format_value_imperial_witness :
  let total_inches := 50 * 450 / 127 in
  _format_value inch (inject_Z 450) = (str total_inches ++ dquote)%string /\
  _format_value ft (inject_Z 450)
  = (str (total_inches / 12) ++ "'" ++ str (total_inches mod 12)
     ++ dquote)%string.
Proof. apply (format_value_imperial 450); lia. Defined.

(** ** Style sampler *)

Lemma choice_spec {A} (a : A) (l : list A) (t : rng) :
  exists x, choice (a :: l) t = Some (x, tl t) /\ In x (a :: l).
Proof.
  unfold choice, bind. rewrite randbelow_spec. unfold ret.
  eexists. split; [reflexivity|]. apply nth_In.
  pose proof (Z.mod_pos_bound (hd 0 t)
                (Z.of_nat (List.length (a :: l)))
                ltac:(cbn [List.length]; lia)). lia.
Qed.

Lemma randint_range (a b : Z) (t : rng) :
  a <= b -> exists k, randint a b t = Some (k, tl t) /\ a <= k <= b.
Proof. apply randint_spec. Qed.

(** What [__init__] samples. *)
Lemma sampled_style_facts (W H : Z) (t : rng) :
  exists st,
    new_generator W H t
    = Some ((st, init W H (style_base_offset st) (style_unit_mode st)
                   (style_depth st)),
            Nat.iter 9 (@tl Z) t) /\
    2 <= wall_thickness st <= 5 /\ 25 <= style_base_offset st <= 65 /\
    8 <= font_size st <= 11 /\ In (style_depth st) [1; 2; 4]%nat.
Proof.
  unfold new_generator, sample_style.
  destruct (choice_spec 2 [3; 4; 5] t) as (wt & E1 & H1).
  destruct (choice_spec "#000000"%string ["#2F2F2F"; "#000050"]%string (tl t))
    as (wc & E2 & _).
  destruct (choice_spec solid_black [solid_grey; hatch; empty] (tl (tl t)))
    as (fs & E3 & _).
  destruct (choice_spec "<->"%string ["|-|"; "-|>"; "<|-|>"; "->"]%string
              (tl (tl (tl t)))) as (ar & E4 & _).
  destruct (randint_spec 25 65 (tl (tl (tl (tl t)))) ltac:(lia))
    as (bo & E5 & H5).
  destruct (choice_spec "sans-serif"%string ["serif"; "monospace"]%string
              (tl (tl (tl (tl (tl t)))))) as (ff & E6 & _).
  destruct (randint_spec 8 11 (tl (tl (tl (tl (tl (tl t)))))) ltac:(lia))
    as (fz & E7 & H7).
  destruct (choice_spec mm [mm_suffix; m; inch; ft]
              (tl (tl (tl (tl (tl (tl (tl t)))))))) as (um & E8 & _).
  destruct (choice_spec 1%nat [2; 4; 4; 4]%nat
              (tl (tl (tl (tl (tl (tl (tl (tl t))))))))) as (cd & E9 & H9).
  exists (mkStyle wt wc fs ar bo ff fz um cd).
  split.
  - unfold bind. rewrite E1, E2, E3, E4, E5, E6, E7, E8, E9. reflexivity.
  - cbn [wall_thickness style_base_offset font_size style_depth].
    repeat split; try lia.
    + cbn in H1. lia.
    + cbn in H1. lia.
    + cbn in H9. cbn. tauto.
Qed.


(** ** Grid lines *)

Lemma insert_uniq_In (a x : Z) (l : list Z) :
  In x (insert_uniq a l) <-> x = a \/ In x l.
Proof.
  induction l as [|b l IH]; cbn [insert_uniq].
  - cbn. intuition.
  - destruct (Z.ltb_spec a b); [cbn; intuition|].
    destruct (Z.eqb_spec a b) as [->|Hne]; [cbn; intuition|].
    cbn [In]. rewrite IH. intuition.
Qed.

Lemma insert_uniq_sorted (a : Z) (l : list Z) :
  StronglySorted Z.lt l -> StronglySorted Z.lt (insert_uniq a l).
Proof.
  induction 1 as [|b l Hs IH Hb]; cbn [insert_uniq].
  - repeat constructor.
  - destruct (Z.ltb_spec a b) as [Hab|Hab].
    + constructor; [now constructor|].
      constructor; [assumption|].
      eapply Forall_impl; [|exact Hb]. intros; lia.
    + destruct (Z.eqb_spec a b) as [->|Hne]; [now constructor|].
      constructor; [assumption|].
      apply Forall_forall. intros x Hx. apply insert_uniq_In in Hx.
      rewrite Forall_forall in Hb. destruct Hx as [->|Hx]; [lia|auto].
Qed.

Lemma sorted_set_In (x : Z) (l : list Z) : In x (sorted_set l) <-> In x l.
Proof.
  induction l as [|a l IH]; [reflexivity|].
  cbn [sorted_set fold_right]. rewrite insert_uniq_In.
  fold (sorted_set l). rewrite IH. cbn. intuition.
Qed.

Lemma sorted_set_sorted (l : list Z) : StronglySorted Z.lt (sorted_set l).
Proof.
  induction l as [|a l IH]; [constructor|].
  cbn [sorted_set fold_right]. now apply insert_uniq_sorted.
Qed.

Section EveryOther.

Context {A : Type}.

(** Induction two elements at a time. *)
Lemma pair_induction (P : list A -> Prop) :
  P [] -> (forall a, P [a]) -> (forall a b l, P l -> P (a :: b :: l)) ->
  forall l, P l.
Proof.
  intros H0 H1 H2.
  assert (H : forall l, P l /\ forall a, P (a :: l)).
  { induction l as [|b l [IH1 IH2]]; [split; auto|].
    split; [apply IH2|]. intros a. now apply H2. }
  intros l. apply H.
Qed.

Lemma every_other_incl (l : list A) : incl (every_other l) l.
Proof.
  induction l as [| a | a b l IH] using pair_induction.
  - apply incl_refl.
  - apply incl_refl.
  - cbn [every_other]. intros x [<-|Hx]; [now left|].
    right. right. now apply IH.
Qed.

Lemma every_other_length (l : list A) :
  List.length (every_other l) = Nat.div2 (S (List.length l)).
Proof.
  induction l as [| a | a b l IH] using pair_induction.
  - reflexivity.
  - reflexivity.
  - cbn [every_other List.length]. rewrite IH. reflexivity.
Qed.

Lemma every_other_hd (l : list A) : hd_error (every_other l) = hd_error l.
Proof. destruct l as [|a [|b l]]; reflexivity. Qed.

End EveryOther.

Lemma every_other_sorted (l : list Z) :
  StronglySorted Z.lt l -> StronglySorted Z.lt (every_other l).
Proof.
  induction l as [| a | a b l IH] using pair_induction; intros Hs.
  - constructor.
  - assumption.
  - cbn [every_other]. inversion Hs as [|? ? Hs1 Ha]; subst.
    inversion Hs1 as [|? ? Hs2 Hb]; subst.
    inversion Ha as [|? ? _ Ha']; subst.
    constructor; [now apply IH|].
    apply Forall_forall. intros x Hx. apply every_other_incl in Hx.
    rewrite Forall_forall in Ha'. auto.
Qed.

Lemma incl_firstn {A} (n : nat) (l : list A) : incl (firstn n l) l.
Proof.
  intros x Hx. rewrite <- (firstn_skipn n l). apply in_or_app. now left.
Qed.

Lemma firstn_sorted (n : nat) (l : list Z) :
  StronglySorted Z.lt l -> StronglySorted Z.lt (firstn n l).
Proof.
  revert n. induction l as [|a l IH]; intros [|n] Hs; cbn [firstn];
    try constructor.
  - inversion Hs; subst. now apply IH.
  - inversion Hs as [|? ? _ Ha]; subst.
    apply Forall_forall. intros x Hx.
    rewrite Forall_forall in Ha. apply Ha.
    exact (incl_firstn n l x Hx).
Qed.

Lemma label_from_fst (i shift : nat) (starts : list Z) :
  map fst (label_from i shift starts) = starts.
Proof.
  revert i. induction starts as [|x starts IH]; intros i; [reflexivity|].
  cbn [label_from map fst]. now rewrite IH.
Qed.

Lemma label_from_snd (shift : nat) (starts : list Z) :
  (List.length starts <= 3)%nat ->
  map snd (label_from 0 shift starts)
  = firstn (List.length starts)
      (map (fun i => nth (i + shift) grid_labels EmptyString) [0; 1; 2]%nat).
Proof.
  destruct starts as [|a [|b [|c [|d l]]]]; cbn [List.length]; intros H;
    try reflexivity. lia.
Qed.

(** The positions [firstn 3 (every_other (sorted_set l))] of the grid
    lines of one axis. *)
Lemma grid_starts_facts (l : list Z) :
  let starts := firstn 3 (every_other (sorted_set l)) in
  StronglySorted Z.lt starts /\
  incl starts l /\
  List.length starts
  = Nat.min 3 (Nat.div2 (S (List.length (sorted_set l)))) /\
  (forall x0, hd_error starts = Some x0 -> forall x, In x l -> x0 <= x) /\
  (l <> [] -> starts <> []).
Proof.
  cbv zeta. repeat split.
  - apply firstn_sorted, every_other_sorted, sorted_set_sorted.
  - intros x Hx. apply incl_firstn in Hx. apply every_other_incl in Hx.
    now apply sorted_set_In.
  - rewrite length_firstn, every_other_length. reflexivity.
  - intros x0 H0 x Hx.
    assert (Hhd : hd_error (sorted_set l) = Some x0).
    { rewrite <- every_other_hd.
      destruct (every_other (sorted_set l)); [discriminate|exact H0]. }
    apply sorted_set_In in Hx. pose proof (sorted_set_sorted l) as Hs.
    destruct (sorted_set l) as [|a l']; [discriminate|].
    injection Hhd as ->. inversion Hs as [|? ? _ Ha]; subst.
    rewrite Forall_forall in Ha.
    destruct Hx as [->|Hx]; [lia|]. specialize (Ha _ Hx). lia.
  - intros Hl Hs. destruct l as [|a l]; [congruence|].
    assert (Hin : In a (sorted_set (a :: l)))
      by (apply sorted_set_In; now left).
    pose proof (every_other_hd (sorted_set (a :: l))) as Hh.
    destruct (sorted_set (a :: l)) as [|b l']; [destruct Hin|].
    destruct (every_other (b :: l')); [discriminate|discriminate].
Qed.

Lemma every_other_nth {A} (l : list A) :
  forall i, nth_error (every_other l) i = nth_error l (2 * i).
Proof.
  induction l as [| a | a b l IH] using pair_induction; intros i.
  - destruct i; reflexivity.
  - destruct i as [|i]; [reflexivity|].
    cbn [every_other]. replace (2 * S i)%nat with (S (S (2 * i))) by lia.
    cbn [nth_error]. now destruct i.
  - destruct i as [|i]; [reflexivity|].
    cbn [every_other]. replace (2 * S i)%nat with (S (S (2 * i))) by lia.
    cbn [nth_error]. apply IH.
Qed.

(** A strictly increasing list is determined by its elements. *)
Lemma sorted_unique (l1 : list Z) : forall l2,
  StronglySorted Z.lt l1 -> StronglySorted Z.lt l2 ->
  (forall x, In x l1 <-> In x l2) -> l1 = l2.
Proof.
  induction l1 as [|a l1 IH]; intros [|b l2] H1 H2 Hin.
  - reflexivity.
  - exfalso. apply (proj2 (Hin b)). now left.
  - exfalso. apply (proj1 (Hin a)). now left.
  - inversion H1 as [|? ? H1' Ha]; subst. inversion H2 as [|? ? H2' Hb]; subst.
    rewrite Forall_forall in Ha, Hb.
    assert (a = b).
    { destruct (proj1 (Hin a) (or_introl eq_refl)) as [->|Hab]; [reflexivity|].
      destruct (proj2 (Hin b) (or_introl eq_refl)) as [->|Hba]; [reflexivity|].
      specialize (Ha _ Hba). specialize (Hb _ Hab). lia. }
    subst b. f_equal. apply IH; try assumption.
    intros x. split; intros Hx.
    + destruct (proj1 (Hin x) (or_intror Hx)) as [->|H]; [|assumption].
      specialize (Ha _ Hx). lia.
    + destruct (proj2 (Hin x) (or_intror Hx)) as [->|H]; [|assumption].
      specialize (Hb _ Hx). lia.
Qed.

(** X18.  The grid lines of [add_grid_lines], on each axis: at most three
    lines, at strictly increasing positions, each the start coordinate of a
    wall; they take every second of the distinct start coordinates in
    increasing order, beginning with the smallest: with [ds] the increasing
    list of the distinct start coordinates, the lines are at [ds[0]],
    [ds[2]] and [ds[4]], as far as these exist.  So a plan with walls has
    a line through its smallest start coordinate.  The vertical lines are
    labelled A, B, C and the horizontal ones 1, 2, 3, in that order. *)
Theorem grid_lines_spec (g : generator) :
  let xs := map fst (fst (add_grid_lines g)) in
  let ys := map fst (snd (add_grid_lines g)) in
  let wx := map (fun w => let '(x1, _, _, _) := w_coords w in x1) (walls g) in
  let wy := map (fun w => let '(_, y1, _, _) := w_coords w in y1) (walls g) in
  (StronglySorted Z.lt xs /\ incl xs wx /\
   List.length xs = Nat.min 3 (Nat.div2 (S (List.length (sorted_set wx)))) /\
   (forall x0, hd_error xs = Some x0 -> forall x, In x wx -> x0 <= x) /\
   (walls g <> [] -> xs <> []) /\
   map snd (fst (add_grid_lines g))
   = firstn (List.length xs) ["A"; "B"; "C"]%string /\
   (forall ds, StronglySorted Z.lt ds -> (forall x, In x ds <-> In x wx) ->
      forall i, nth_error xs i
                = if (i <? 3)%nat then nth_error ds (2 * i) else None)) /\
  (StronglySorted Z.lt ys /\ incl ys wy /\
   List.length ys = Nat.min 3 (Nat.div2 (S (List.length (sorted_set wy)))) /\
   (forall y0, hd_error ys = Some y0 -> forall y, In y wy -> y0 <= y) /\
   (walls g <> [] -> ys <> []) /\
   map snd (snd (add_grid_lines g))
   = firstn (List.length ys) ["1"; "2"; "3"]%string /\
   (forall ds, StronglySorted Z.lt ds -> (forall y, In y ds <-> In y wy) ->
      forall i, nth_error ys i
                = if (i <? 3)%nat then nth_error ds (2 * i) else None)).
Proof.
  cbv zeta. unfold add_grid_lines. cbn [fst snd].
  rewrite !label_from_fst.
  set (wx := map (fun w => let '(x1, _, _, _) := w_coords w in x1) (walls g)).
  set (wy := map (fun w => let '(_, y1, _, _) := w_coords w in y1) (walls g)).
  destruct (grid_starts_facts wx) as (X1 & X2 & X3 & X4 & X5).
  destruct (grid_starts_facts wy) as (Y1 & Y2 & Y3 & Y4 & Y5).
  cbv zeta in *.
  assert (Hne : forall (f : Wall -> Z), walls g <> [] -> map f (walls g) <> []).
  { intros f Hw Hm. apply Hw. now apply map_eq_nil in Hm. }
  assert (Hpos : forall l ds,
    StronglySorted Z.lt ds -> (forall x, In x ds <-> In x l) ->
    forall i, nth_error (firstn 3 (every_other (sorted_set l))) i
              = if (i <? 3)%nat then nth_error ds (2 * i) else None).
  { intros l ds Hs Hin i.
    rewrite (sorted_unique ds (sorted_set l) Hs (sorted_set_sorted l)).
    - rewrite nth_error_firstn, every_other_nth. reflexivity.
    - intros x. rewrite Hin. symmetry. apply sorted_set_In. }
  split; repeat split; try assumption.
  - intros Hw. apply X5. now apply Hne.
  - rewrite label_from_snd; [reflexivity|]. rewrite X3. lia.
  - apply Hpos.
  - intros Hw. apply Y5. now apply Hne.
  - rewrite label_from_snd; [reflexivity|]. rewrite Y3. lia.
  - apply Hpos.
Qed.

(** ** A plan from construction to annotation *)

Lemma surveys_weaken ws wins lo hi lo' hi' um d :
  lo' <= lo -> hi <= hi' ->
  surveys ws wins lo hi um d -> surveys ws wins lo' hi' um d.
Proof.
  intros Hlo Hhi (w & off & seg & H1 & H2 & H3 & H4).
  exists w, off, seg. repeat split; try tauto; lia.
Qed.

(** X19.  For a generator constructed by [__init__] on a plan of at least
    300 x 305 and then run, every dimension line lies between 20 and 70
    units from the part of the wall it measures, on the side facing away
    from the room, and is labelled with the length of that part in the
    sampled unit system. *)
Theorem styled_plan_survey measure W H t st g t1 g' t' :
  300 <= W < 2 ^ 53 -> 305 <= H < 2 ^ 53 ->
  new_generator W H t = Some ((st, g), t1) ->
  generate measure g t1 = Some (g', t') ->
  Forall (surveys (walls g') (windows g') 20 70 (style_unit_mode st))
         (dimensions g').
Proof.
  intros HW HH En Eg.
  destruct (sampled_style_facts W H t) as (st0 & E0 & _ & Hbo & _).
  rewrite E0 in En. injection En as <- <- <-.
  eapply Forall_impl; [|exact (run_survey _ _ _ _ _ _ _ _ _ HW HH Eg)].
  intros d. apply surveys_weaken; lia.
Qed.

Lemma styled_plan_survey_witness :
  exists st g t1 g' t',
    new_generator 400 400 ([0; 0; 0; 0; 0; 0; 0; 1; 0] ++ label_tape) = Some ((st, g), t1) /\
    generate fixed_width_extent g t1 = Some (g', t') /\
    List.length (dimensions g') = 4%nat /\
    Forall (surveys (walls g') (windows g') 20 70 (style_unit_mode st))
           (dimensions g').
Proof.
  eexists _, _, _, _, _. split; [vm_compute; reflexivity|].
  split; [vm_compute; reflexivity|].
  split; [vm_compute; reflexivity|].
  eapply (styled_plan_survey fixed_width_extent 400 400
            ([0; 0; 0; 0; 0; 0; 0; 1; 0] ++ label_tape)); [lia|lia| |].
  - vm_compute. reflexivity.
  - vm_compute. reflexivity.
Defined.

(** ** The rooms of a run *)

Lemma disjoint_sym (a b : rect) : disjoint a b -> disjoint b a.
Proof. unfold disjoint. intros H p [Hb Ha]. apply (H p). tauto. Qed.

Lemma ForallOrdPairs_perm {A} (R : A -> A -> Prop) (l l' : list A) :
  (forall a b, R a b -> R b a) ->
  Permutation l l' -> ForallOrdPairs R l -> ForallOrdPairs R l'.
Proof.
  intros Hsym. induction 1 as [|x l l' Hp IH|x y l|l l' l'' _ IH1 _ IH2];
    intros H.
  - constructor.
  - inversion H as [|? ? Hx Hl]; subst. constructor; [|now apply IH].
    eapply Permutation_Forall; eassumption.
  - inversion H as [|? ? Hy Hl]; subst.
    inversion Hl as [|? ? Hx Hl']; subst.
    inversion Hy as [|? ? Hyx Hy']; subst.
    constructor; [constructor; [now apply Hsym|assumption]|].
    constructor; assumption.
  - auto.
Qed.

Lemma ForallOrdPairs_skipn {A} (R : A -> A -> Prop) (n : nat) :
  forall l : list A, ForallOrdPairs R l -> ForallOrdPairs R (skipn n l).
Proof.
  induction n as [|n IH]; intros l H; [assumption|].
  destruct l as [|a l]; [constructor|]. cbn [skipn].
  inversion H; subst. now apply IH.
Qed.

Lemma select_rooms_disjoint g raw t sel t' :
  select_rooms g raw t = Some (sel, t') ->
  ForallOrdPairs disjoint raw -> ForallOrdPairs disjoint sel.
Proof.
  unfold select_rooms. destruct (3 <? Z.of_nat (List.length raw)).
  - unfold bind.
    destruct (randint 1 _ t) as [[k t1]|]; [|discriminate].
    intros E H. injection E as <- <-.
    apply ForallOrdPairs_skipn.
    eapply ForallOrdPairs_perm; [exact disjoint_sym| |exact H].
    symmetry. apply sort_desc_perm.
  - intros E H. injection E as <- <-. exact H.
Qed.

(** The leaves of the partitioner: inside the rectangle, pairwise
    disjoint, and at least 64 on each side unless the rectangle was not
    split. *)
Lemma split_leaves_rooms (r : rect) (depth : nat) (t : rng) leaves t' :
  rect_w r < 2 ^ 53 -> rect_h r < 2 ^ 53 ->
  _recursive_split r depth t = Some (leaves, t') ->
  Forall (fun lf => within lf r /\
                    (lf = r \/ (64 <= rect_w lf /\ 64 <= rect_h lf))) leaves /\
  ForallOrdPairs disjoint leaves.
Proof.
  intros Hw Hh E.
  destruct (split_induction
              (fun r _ l =>
                 Forall (fun lf => within lf r) (map fst l) /\
                 Forall (leaf_ok r) l /\ tiles r (map fst l)))
    with (depth := depth) (r := r) (t := t) as (l & t1 & E1 & Hin & Hok & Ht);
    try assumption.
  - intros x y w h d Hd. cbn [map fst]. split; [|split].
    + constructor; [unfold within; lia|constructor].
    + constructor; [|constructor]. split; [exact Hd|now left].
    + apply tiles_self.
  - intros x y w h d s l1 l2 Hw1 Hh1 _ Hs (I1 & O1 & T1) (I2 & O2 & T2).
    rewrite map_app. split; [|split].
    + apply Forall_app. split.
      * eapply Forall_impl; [|exact I1]. intros lf Hlf.
        eapply within_trans; [exact Hlf|]. unfold within; lia.
      * eapply Forall_impl; [|exact I2]. intros lf Hlf.
        eapply within_trans; [exact Hlf|]. unfold within; lia.
    + apply Forall_app. split.
      * eapply leaf_ok_inner; [|eassumption]. cbn. lia.
      * eapply leaf_ok_inner; [|eassumption]. cbn. lia.
    + eapply tiles_join; [|eassumption|eassumption].
      intros p. apply inside_split_w. lia.
  - intros x y w h d s l1 l2 Hw1 Hh1 _ Hs (I1 & O1 & T1) (I2 & O2 & T2).
    rewrite map_app. split; [|split].
    + apply Forall_app. split.
      * eapply Forall_impl; [|exact I1]. intros lf Hlf.
        eapply within_trans; [exact Hlf|]. unfold within; lia.
      * eapply Forall_impl; [|exact I2]. intros lf Hlf.
        eapply within_trans; [exact Hlf|]. unfold within; lia.
    + apply Forall_app. split.
      * eapply leaf_ok_inner; [|eassumption]. cbn. lia.
      * eapply leaf_ok_inner; [|eassumption]. cbn. lia.
    + eapply tiles_join; [|eassumption|eassumption].
      intros p. apply inside_split_h. lia.
  - rewrite traced_erase, E1 in E. injection E as <- <-. split.
    + apply Forall_forall. intros lf Hlf.
      apply in_map_iff in Hlf. destruct Hlf as ([lf' d] & <- & Hlf).
      rewrite Forall_forall in Hin, Hok. split.
      * apply Hin. apply in_map_iff. exists (lf', d). now split.
      * destruct (Hok _ Hlf) as [_ Hsz]. exact Hsz.
    + exact (proj2 Ht).
Qed.

(** X20.  In the output of a run on a plan with sides from 300 to below
    2^53, the rooms lie within the plan's interior (the plan without its
    margin of 150), no two rooms have a point in common, and every room is
    at least 64 wide and 64 high unless it is the whole interior. *)
Theorem rooms_inside_plan measure W H b um depth t g' t' :
  300 <= W < 2 ^ 53 -> 300 <= H < 2 ^ 53 ->
  generate measure (init W H b um depth) t = Some (g', t') ->
  let interior := (150, 150, W - 300, H - 300) in
  Forall (fun room =>
            within (fst room) interior /\
            (fst room = interior \/
             (64 <= rect_w (fst room) /\ 64 <= rect_h (fst room))))
         (rooms g') /\
  ForallOrdPairs disjoint (map fst (rooms g')).
Proof.
  intros HW HH E. cbv zeta.
  destruct (generate_stages _ _ _ _ _ E)
    as (g1 & t1 & g2 & t2 & g3 & t3 & E1 & E2 & E3 & E4).
  destruct (generate_layout_spec _ _ _ _ E1)
    as (raw & ta & sel & tb & labels & Er & Es & _ & Eg1).
  cbn [width height complexity_depth init] in Er.
  replace (W - 2 * 150) with (W - 300) in Er by lia.
  replace (H - 2 * 150) with (H - 300) in Er by lia.
  assert (Hfacts := fun Hw Hh => split_leaves_rooms _ _ _ _ _ Hw Hh Er).
  cbn [rect_w rect_h] in Hfacts.
  destruct (Hfacts ltac:(lia) ltac:(lia)) as [Hraw Hdis]. clear Hfacts.
  assert (R1 : rooms g1 = assign_labels labels 0 sel).
  { rewrite Eg1.
    now destruct (build_walls_annotations (assign_labels labels 0 sel)
                    (set_rooms (init W H b um depth)
                       (assign_labels labels 0 sel))) as [_ ->]. }
  destruct (add_windows_spec _ _ _ _ E2) as (_ & _ & _ & _ & _ & R2 & _).
  destruct (add_doors_spec _ _ _ _ E3) as (_ & _ & _ & _ & _ & R3 & _).
  destruct (annot_steps_frame _ _ (add_smart_dimensions_steps _ _ _ _ _ E4))
    as (_ & _ & R4 & _).
  assert (Hr : rooms g' = assign_labels labels 0 sel) by congruence.
  rewrite Hr, assign_labels_fst. split.
  - apply Forall_forall. intros room Hroom.
    rewrite Forall_forall in Hraw. apply Hraw.
    apply (select_rooms_incl _ _ _ _ _ Es).
    rewrite <- (assign_labels_fst labels sel 0). now apply in_map.
  - eapply select_rooms_disjoint; eassumption.
Qed.

Lemma rooms_inside_plan_witness :
  exists g' t',
    generate fixed_width_extent (init 900 900 25 mm 1) door_tape
      = Some (g', t') /\
    List.length (rooms g') = 2%nat /\
    Forall (fun room =>
              within (fst room) (150, 150, 900 - 300, 900 - 300) /\
              (fst room = (150, 150, 900 - 300, 900 - 300) \/
               (64 <= rect_w (fst room) /\ 64 <= rect_h (fst room))))
           (rooms g') /\
    ForallOrdPairs disjoint (map fst (rooms g')).
Proof.
  eexists _, _. split; [vm_compute; reflexivity|].
  split; [vm_compute; reflexivity|].
  eapply (rooms_inside_plan fixed_width_extent 900 900 25 mm 1 door_tape);
    [lia|lia|].
  vm_compute. reflexivity.
Defined.

(** ** Rates of the random decisions *)

Lemma count_upto_interval (f : Z -> bool) (a c : Z) (n : nat) :
  0 <= a <= c ->
  (forall k, 0 <= k < Z.of_nat n -> (f k = true <-> a <= k < c)) ->
  count_upto f n = Z.max 0 (Z.min (Z.of_nat n) c - a).
Proof.
  intros Hc. induction n as [|n IH]; intros Hf;
    [cbn [count_upto Z.of_nat]; lia|].
  cbn [count_upto]. rewrite IH by (intros k Hk; apply Hf; lia).
  pose proof (Hf (Z.of_nat n) ltac:(lia)) as Hn.
  destruct (f (Z.of_nat n)) eqn:E.
  - assert (a <= Z.of_nat n < c) by (now apply Hn). lia.
  - assert (~ a <= Z.of_nat n < c).
    { intros H. apply Hn in H. congruence. }
    lia.
Qed.

Lemma window_trial_iff (k : Z) :
  window_trial k = true <-> 3602879701896398 <= k.
Proof.
  unfold window_trial. rewrite Qltb_true.
  unfold Qlt, d0_4; cbn [Qnum Qden]. lia.
Qed.

Lemma dimension_trial_iff (k : Z) :
  dimension_trial k = true <-> k <= 6305039478318694.
Proof.
  unfold dimension_trial. rewrite negb_true_iff, Qltb_false.
  unfold Qle, d0_7; cbn [Qnum Qden]. lia.
Qed.

Lemma position_of_cases (k : Z) :
  (k < 3602879701896397 /\ position_of k = inline) \/
  (3602879701896397 <= k < 6305039478318694 /\ position_of k = above) \/
  (6305039478318694 <= k /\ position_of k = below).
Proof.
  unfold position_of.
  destruct (Qltb (k # 9007199254740992) d0_4) eqn:E1.
  - left. apply Qltb_true in E1. unfold Qlt, d0_4 in E1; cbn [Qnum Qden] in E1.
    split; [lia|reflexivity].
  - apply Qltb_false in E1. unfold Qle, d0_4 in E1; cbn [Qnum Qden] in E1.
    destruct (Qltb (k # 9007199254740992) d0_7) eqn:E2.
    + right; left. apply Qltb_true in E2.
      unfold Qlt, d0_7 in E2; cbn [Qnum Qden] in E2. split; [lia|reflexivity].
    + right; right. apply Qltb_false in E2.
      unfold Qle, d0_7 in E2; cbn [Qnum Qden] in E2. split; [lia|reflexivity].
Qed.

(** Counting over all 53-bit draws a decision taken on an interval. *)
Lemma count_draws (f : Z -> bool) (a c : Z) :
  0 <= a <= c -> c <= 9007199254740992 ->
  (forall k, 0 <= k < 9007199254740992 -> (f k = true <-> a <= k < c)) ->
  count_upto f (Z.to_nat (2 ^ 53)) = c - a.
Proof.
  intros Hac Hc Hf.
  assert (Hn : Z.of_nat (Z.to_nat (2 ^ 53)) = 9007199254740992)
    by (rewrite Z2Nat.id; [reflexivity|apply Z.pow_nonneg; lia]).
  revert Hn. generalize (Z.to_nat (2 ^ 53)). intros n Hn.
  rewrite (count_upto_interval f a c n Hac).
  - lia.
  - intros k Hk. apply Hf. lia.
Qed.

(** The window placer on an eligible wall when the trial succeeds. *)
Lemma add_window_tried (w : Wall) (s : list Window * Z) (t : rng) :
  is_shared w = false -> has_opening w = false ->
  window_trial (hd 0 t mod 2 ^ 53) = true ->
  (window_sizes w = [] -> add_window w s t = Some ((w, s), tl t)) /\
  (window_sizes w <> [] ->
   exists win,
     add_window w s t
     = Some ((set_opening w, (fst s ++ [win], snd s + 1)), tl (tl t)) /\
     win_wall_id win = w_id w /\ win_id win = snd s /\
     In (win_length win) (window_sizes w)).
Proof.
  intros Hs Ho Ht. unfold add_window, window_sizes.
  rewrite Hs, Ho. cbn [orb]. unfold bind at 1 3. rewrite random_spec.
  unfold window_trial in Ht. rewrite Ht.
  destruct (w_coords w) as [[[x1 y1] x2] y2].
  destruct (filter _ standard_sizes) as [|sz szs] eqn:Ef.
  - split; [reflexivity|congruence].
  - split; [discriminate|]. intros _.
    unfold choice, bind. rewrite randbelow_spec. unfold ret.
    eexists. split; [reflexivity|].
    cbn [win_wall_id win_id win_length]. repeat split.
    apply nth_In.
    pose proof (Z.mod_pos_bound (hd 0 (tl t))
                  (Z.of_nat (List.length (sz :: szs)))
                  ltac:(cbn [List.length]; lia)). lia.
Qed.

(** The annotator on an unshared wall when the trial succeeds: it draws the
    offset and calls [_draw_dimension_safe] for the wall, or for the chain
    segments of the wall and its window. *)
Lemma dimension_wall_tried measure strat g w t :
  is_shared w = false ->
  dimension_trial (hd 0 t mod 2 ^ 53) = true ->
  exists off t2,
    base_offset g - 5 <= off <= base_offset g + 5 /\
    let '(wx1, wy1, wx2, wy2) := w_coords w in
    let '(dx, dy) := wall_offset w off in
    dimension_wall measure strat g w t
    = _draw_dimension_safe measure g (wx1 + dx) (wy1 + dy) (wx2 + dx)
        (wy2 + dy)
        (_format_value (g_unit_mode g) (hypot (wx2 - wx1) (wy2 - wy1)))
        (wall_link (w_id w)) (w_id w) t2 \/
    exists win,
      find (fun win => win_wall_id win =? w_id w) (windows g) = Some win /\
      dimension_wall measure strat g w t
      = draw_segments measure g dx dy (w_id w) (chain_segments w win) t2.
Proof.
  intros Hsh Ht.
  remember (dimension_wall measure strat g w t) as D eqn:HD.
  unfold dimension_wall in HD. rewrite Hsh in HD.
  unfold bind at 1 in HD. rewrite random_spec in HD.
  unfold dimension_trial in Ht. apply negb_true_iff in Ht. rewrite Ht in HD.
  match type of HD with
  | _ = bind ?m ?k _ => set (M := m) in HD; set (K := k) in HD
  end.
  assert (HM : exists ws t1, M (tl t) = Some (ws, t1)).
  { subst M. destruct strat; try (eexists _, _; reflexivity).
    unfold bind. rewrite random_spec. eexists _, _. reflexivity. }
  destruct HM as (wall_strat & t1 & HM).
  destruct (randint_spec (-5) 5 t1 ltac:(lia)) as (j & Ej & Hj).
  exists (base_offset g + j), (tl t1). split; [lia|].
  unfold bind at 1 in HD. rewrite HM in HD. subst K; cbv beta in HD.
  clear M HM.
  pose proof (eq_refl (wall_offset w (base_offset g + j))) as Hoff.
  unfold wall_offset at 2 in Hoff.
  pose proof (fun win => eq_refl (chain_segments w win)) as Hch.
  unfold chain_segments at 2 in Hch.
  destruct (w_coords w) as [[[wx1 wy1] wx2] wy2].
  unfold bind at 1 in HD. rewrite Ej in HD.
  destruct (room_center w) as [rcx rcy].
  rewrite <- Hoff in HD. clear Hoff.
  destruct (wall_offset w (base_offset g + j)) as [dx dy].
  destruct (find _ (windows g)) as [win|] eqn:Ef; [|now left].
  destruct wall_strat; [|now left|now left].
  right. exists win. split; [reflexivity|].
  rewrite (Hch win), HD.
  destruct (win_coords win) as [[[win_x1 win_y1] win_x2] win_y2].
  destruct (Z.abs (wy1 - wy2) <? 5).
  - destruct (sorted4 wx1 wx2 win_x1 win_x2) as [[[p0 p1] p2] p3].
    reflexivity.
  - destruct (sorted4 wy1 wy2 win_y1 win_y2) as [[[p0 p1] p2] p3].
    reflexivity.
Qed.

(** [_draw_dimension_safe] commits a record when both checks pass, with the
    position the next draw selects. *)
Lemma draw_dimension_commits measure g x1 y1 x2 y2 text lk owner t :
  _line_crosses_walls g (x1, y1) (x2, y2) owner = false ->
  _check_collision g (sim_bbox x1 y1 x2 y2 text) = false ->
  exists d b,
    _draw_dimension_safe measure g x1 y1 x2 y2 text lk owner t
    = Some (push g d b, tl t) /\
    dim_position d = position_of (hd 0 t mod 2 ^ 53) /\
    dim_line d = (x1, y1, x2, y2) /\ dim_val d = text /\ dim_link d = lk.
Proof.
  intros Hc Ho. unfold _draw_dimension_safe. rewrite Hc, Ho.
  unfold bind, choose_pos_mode, bind. rewrite random_spec. unfold ret.
  unfold position_of.
  destruct (if Qltb _ d0_4 then inline else _) as [| |];
    cbv beta iota;
    match goal with
    | |- context [measure ?a ?b ?c ?d] =>
        destruct (measure a b c d) as [[[bx0 by0] bx1] by1]
    end;
    (eexists _, _; split; [reflexivity|]; cbn; tauto).
Qed.

(** X21.  The rates of the random decisions, counted over the 2^53 equally
    likely values of [random.random()].  The window placer tries a window
    on an eligible wall for 5404319552844594 of them (60%): then it puts a
    window of a fitting standard size on the wall whenever one fits, and
    for the other values it leaves the wall alone.  The annotator
    dimensions an unshared wall for 6305039478318695 of them (70%): then it
    draws the offset and calls [_draw_dimension_safe] for the wall or for
    its chain segments, and for the other values it skips the wall.  The
    label of a dimension that passes both checks is committed, inline for
    3602879701896397 of the values (40%), above for 2702159776422297 and
    below for 2702159776422298 (30% each). *)
Theorem decision_rates :
  (count_upto window_trial (Z.to_nat (2 ^ 53)) = 5404319552844594 /\
   (forall w s t,
      window_trial (hd 0 t mod 2 ^ 53) = false ->
      add_window w s t = Some ((w, s), if is_shared w || has_opening w
                                       then t else tl t)) /\
   (forall w s t,
      is_shared w = false -> has_opening w = false ->
      window_trial (hd 0 t mod 2 ^ 53) = true ->
      (window_sizes w = [] -> add_window w s t = Some ((w, s), tl t)) /\
      (window_sizes w <> [] ->
       exists win,
         add_window w s t
         = Some ((set_opening w, (fst s ++ [win], snd s + 1)), tl (tl t)) /\
         win_wall_id win = w_id w /\ win_id win = snd s /\
         In (win_length win) (window_sizes w)))) /\
  (count_upto dimension_trial (Z.to_nat (2 ^ 53)) = 6305039478318695 /\
   (forall measure strat g w t,
      is_shared w = false ->
      dimension_trial (hd 0 t mod 2 ^ 53) = false ->
      dimension_wall measure strat g w t = Some (g, tl t)) /\
   (forall measure strat g w t,
      is_shared w = false ->
      dimension_trial (hd 0 t mod 2 ^ 53) = true ->
      exists off t2,
        base_offset g - 5 <= off <= base_offset g + 5 /\
        let '(wx1, wy1, wx2, wy2) := w_coords w in
        let '(dx, dy) := wall_offset w off in
        dimension_wall measure strat g w t
        = _draw_dimension_safe measure g (wx1 + dx) (wy1 + dy) (wx2 + dx)
            (wy2 + dy)
            (_format_value (g_unit_mode g) (hypot (wx2 - wx1) (wy2 - wy1)))
            (wall_link (w_id w)) (w_id w) t2 \/
        exists win,
          find (fun win => win_wall_id win =? w_id w) (windows g)
          = Some win /\
          dimension_wall measure strat g w t
          = draw_segments measure g dx dy (w_id w) (chain_segments w win)
              t2)) /\
  (count_upto (is_mode inline) (Z.to_nat (2 ^ 53)) = 3602879701896397 /\
   count_upto (is_mode above) (Z.to_nat (2 ^ 53)) = 2702159776422297 /\
   count_upto (is_mode below) (Z.to_nat (2 ^ 53)) = 2702159776422298 /\
   (forall t,
      choose_pos_mode t = Some (position_of (hd 0 t mod 2 ^ 53), tl t)) /\
   (forall measure g x1 y1 x2 y2 text lk owner t,
      _line_crosses_walls g (x1, y1) (x2, y2) owner = false ->
      _check_collision g (sim_bbox x1 y1 x2 y2 text) = false ->
      exists d b,
        _draw_dimension_safe measure g x1 y1 x2 y2 text lk owner t
        = Some (push g d b, tl t) /\
        dim_position d = position_of (hd 0 t mod 2 ^ 53) /\
        dim_line d = (x1, y1, x2, y2) /\ dim_val d = text /\
        dim_link d = lk)).
Proof.
  split; [|split].
  - split; [|split].
    + apply (count_draws window_trial 3602879701896398 9007199254740992);
        [lia|lia|].
      intros k Hk. rewrite window_trial_iff. lia.
    + intros w s t Ht. unfold add_window.
      destruct (is_shared w || has_opening w); [reflexivity|].
      unfold bind. rewrite random_spec.
      unfold window_trial in Ht. rewrite Ht. reflexivity.
    + apply add_window_tried.
  - split; [|split].
    + apply (count_draws dimension_trial 0 6305039478318695); [lia|lia|].
      intros k Hk. rewrite dimension_trial_iff. lia.
    + intros measure strat g w t Hs Ht. unfold dimension_wall.
      rewrite Hs. unfold bind at 1. rewrite random_spec.
      unfold dimension_trial in Ht. apply negb_false_iff in Ht.
      rewrite Ht. reflexivity.
    + apply dimension_wall_tried.
  - split; [|split; [|split; [|split]]].
    + apply (count_draws (is_mode inline) 0 3602879701896397); [lia|lia|].
      intros k Hk. unfold is_mode.
      destruct (position_of_cases k) as [[H ->]|[[H ->]|[H ->]]];
        split; (discriminate || lia || reflexivity || idtac); intros; lia.
    + apply (count_draws (is_mode above) 3602879701896397 6305039478318694);
        [lia|lia|].
      intros k Hk. unfold is_mode.
      destruct (position_of_cases k) as [[H ->]|[[H ->]|[H ->]]];
        split; (discriminate || lia || reflexivity || idtac); intros; lia.
    + apply (count_draws (is_mode below) 6305039478318694 9007199254740992);
        [lia|lia|].
      intros k Hk. unfold is_mode.
      destruct (position_of_cases k) as [[H ->]|[[H ->]|[H ->]]];
        split; (discriminate || lia || reflexivity || idtac); intros; lia.
    + intros t. unfold choose_pos_mode, bind. rewrite random_spec.
      reflexivity.
    + apply draw_dimension_commits.
Qed.
